(** * Aineko core: node lifecycle, dataset contract and config injection

  A shallow embedding of
  - [aineko/datasets/core.py]  (DatasetError, DatasetCreateStatus,
    AbstractDataset, AbstractAsyncDataset),
  - [aineko/core/node.py]      (PoisonPill, AbstractNode),
  - [aineko/core/config_loader.py] (ConfigLoader.inject_env_vars),
  together with the properties of the specification that concern them.

  Python objects that are mutated in place live in explicit state: a
  method is a function from the state before the call to an outcome and the
  state after it, and the state survives a raised exception. *)

From stdpp Require Import base option list strings gmap.
From Stdlib Require Import ZArith Ascii.

Set Warnings "-register-all,-clear-no-such-hyp".

Local Open Scope string_scope.

(* ===================================================================== *)
(** * Python values, exceptions and methods                               *)
(* ===================================================================== *)

Module Py.

(** The part of the exception class hierarchy the sources rely on.
    [UserClass n b] is a class named [n] declared with base [b]. *)
Inductive exc_class : Type :=
  | BaseException
  | Exception
  | KeyboardInterrupt
  | SystemExit
  | CancelledError
  | ValueError
  | LookupError
  | KeyError
  | RuntimeError
  | RecursionError
  | AttributeError
  | DatasetError
  | UserClass (name : string) (base : exc_class).

#[export] Instance exc_class_eq_dec : EqDecision exc_class.
Proof. solve_decision. Defined.

(** The direct base class. [DatasetError] is declared
    [class DatasetError(Exception)]; [KeyboardInterrupt], [SystemExit]
    and [asyncio.CancelledError] derive from [BaseException] only. *)
Definition parent (c : exc_class) : option exc_class :=
  match c with
  | BaseException => None
  | Exception => Some BaseException
  | KeyboardInterrupt | SystemExit | CancelledError => Some BaseException
  | ValueError | LookupError | RuntimeError | AttributeError | DatasetError =>
      Some Exception
  | KeyError => Some LookupError
  | RecursionError => Some RuntimeError
  | UserClass _ b => Some b
  end.

(** Distance to the root of the hierarchy; bounds the walk of
    [issubclass]. *)
Fixpoint height (c : exc_class) : nat :=
  match c with
  | BaseException => 0
  | Exception | KeyboardInterrupt | SystemExit | CancelledError => 1
  | ValueError | LookupError | RuntimeError | AttributeError | DatasetError => 2
  | KeyError | RecursionError => 3
  | UserClass _ b => S (height b)
  end.

Fixpoint issubclass_fuel (n : nat) (c d : exc_class) : bool :=
  bool_decide (c = d) ||
  match n, parent c with
  | S n', Some p => issubclass_fuel n' p d
  | _, _ => false
  end.

Definition issubclass (c d : exc_class) : bool :=
  issubclass_fuel (height c) c d.

(** A raised exception object: its class, its message and [__cause__]
    (set by [raise ... from e]). *)
Inductive exn : Type :=
  mk_exn { exn_class : exc_class; exn_msg : string; exn_cause : option exn }.

Definition isinstance (e : exn) (c : exc_class) : bool :=
  issubclass (exn_class e) c.

(** Values that cross the interfaces modelled here. A float is kept as
    its IEEE 754 binary64 bit pattern: no arithmetic is done on it. *)
Inductive pyval : Type :=
  | PyNone
  | PyBool (b : bool)
  | PyInt (z : Z)
  | PyFloat (bits : Z)
  | PyStr (s : string)
  | PyList (xs : list pyval)
  | PyDict (kvs : list (string * pyval)).

(** [v is False]: identity with the singleton [False]. *)
Definition is_False (v : pyval) : bool :=
  match v with PyBool false => true | _ => false end.

(** [bool(v)]: Python truthiness. *)
Definition truthy (v : pyval) : bool :=
  match v with
  | PyNone => false
  | PyBool b => b
  | PyInt z => negb (Z.eqb z 0)
  | PyFloat bits => negb (Z.eqb bits 0 || Z.eqb bits (2 ^ 63))
  | PyStr s => negb (bool_decide (s = ""))
  | PyList xs => negb (bool_decide (xs = []))
  | PyDict kvs => negb (bool_decide (kvs = []))
  end.

(** Outcome of a call: a returned value or a raised exception. *)
Inductive result (A : Type) : Type :=
  | Ret (a : A)
  | Raise (e : exn).
Arguments Ret {A} a.
Arguments Raise {A} e.

(** A method acting on an object (or world) of type [S]. *)
Definition M (S A : Type) : Type := S -> result A * S.

Definition ret {S A} (a : A) : M S A := fun s => (Ret a, s).
Definition raise {S A} (e : exn) : M S A := fun s => (Raise e, s).
Definition bind {S A B} (m : M S A) (k : A -> M S B) : M S B :=
  fun s =>
    match m s with
    | (Ret a, s') => k a s'
    | (Raise e, s') => (Raise e, s')
    end.

(** [try: body  except <classes matched by handles>: handler(e)];
    an exception no clause matches propagates. *)
Definition try_except {S A} (body : M S A)
    (handler : exn -> option (M S A)) : M S A :=
  fun s =>
    match body s with
    | (Ret a, s') => (Ret a, s')
    | (Raise e, s') =>
        match handler e with
        | Some h => h s'
        | None => (Raise e, s')
        end
    end.

End Py.

Import Py.

Declare Scope py_scope.
Delimit Scope py_scope with py.
Notation "x <- m ;; k" := (bind m (fun x => k))
  (at level 100, m at next level, right associativity) : py_scope.
Notation "m ;;; k" := (bind m (fun _ => k))
  (at level 100, right associativity) : py_scope.
Local Open Scope py_scope.

(* ===================================================================== *)
(** * aineko/datasets/core.py                                             *)
(* ===================================================================== *)

(** ** DatasetCreateStatus *)

Module DatasetCreateStatus.
Section Status.

(** The tracked objects are foreign (Kafka futures, connection
    statuses); all that is used of them is their [done()] method. *)
Context {Future Status : Type}.
Variable future_done : Future -> bool.
Variable status_done : Status -> bool.

Record t : Type := mk {
  dataset_name : string;
  kafka_topic_to_future : option (gmap string Future);
  status_list : option (list Status)
}.

(** Truthiness of an [Optional[Dict]] and of an [Optional[List]]:
    [None] and the empty container are false. *)
Definition truthy_dict (o : option (gmap string Future)) : bool :=
  match o with
  | None => false
  | Some m => negb (bool_decide (m = ∅))
  end.

Definition truthy_list (o : option (list Status)) : bool :=
  match o with
  | None => false
  | Some l => negb (bool_decide (l = []))
  end.

(** [dict.values()] *)
Definition values (m : gmap string Future) : list Future :=
  (map_to_list m).*2.

(** [done]. The three [if]s of the source in order; falling off the end
    of the function returns [None], modelled by [None] here. *)
Definition done (self : t) : option bool :=
  if negb (truthy_dict (kafka_topic_to_future self)
           || truthy_list (status_list self))
  then Some true
  else if truthy_dict (kafka_topic_to_future self)
  then Some (forallb future_done
               (values (default ∅ (kafka_topic_to_future self))))
  else if truthy_list (status_list self)
  then Some (forallb status_done (default [] (status_list self)))
  else None.

(** Every tracked operation, future or status, reports itself complete. *)
Definition all_complete (self : t) : Prop :=
  (∀ m k f, kafka_topic_to_future self = Some m → m !! k = Some f →
            future_done f = true) ∧
  (∀ l s, status_list self = Some l → s ∈ l → status_done s = true).

Definition futures_complete (self : t) : Prop :=
  ∀ m k f, kafka_topic_to_future self = Some m → m !! k = Some f →
           future_done f = true.

Definition statuses_complete (self : t) : Prop :=
  ∀ l s, status_list self = Some l → s ∈ l → status_done s = true.

End Status.
End DatasetCreateStatus.

(** ** The dataset contract *)

(** Positional and keyword arguments of a call. *)
Definition args : Type := list pyval.
Definition kwargs : Type := list (string * pyval).

(** The six guarded operations of the contract. *)
Inductive operation : Type :=
  | OpRead | OpWrite | OpCreate | OpDelete | OpExists | OpInitialize.

(** The message each public method builds in its [except Exception]
    clause, from [self.name]. *)
Definition failure_message (op : operation) (name : string) : string :=
  match op with
  | OpRead => "Failed to read dataset " +:+ name +:+ "."
  | OpWrite => "Failed to write dataset " +:+ name +:+ "."
  | OpCreate => "Failed to create dataset " +:+ name +:+ "."
  | OpDelete => "Failed to delete dataset " +:+ name +:+ "."
  | OpExists => "Failed to check if dataset " +:+ name +:+ " exists."
  | OpInitialize => "Failed to initialize dataset " +:+ name +:+ "."
  end.

(** The two [except] clauses shared by every public method:
<<
    except DatasetError:
        raise
    except Exception as e:
        message = f"Failed to ... dataset {self.name}."
        raise DatasetError(message) from e
>>
    [self.name] is read when the clause runs, that is from the object as
    the failed call left it. An exception that is no [Exception] is matched
    by neither clause. *)
Definition except_clauses {D : Type} (name : D -> string) (op : operation)
    (e : exn) : option (M D pyval) :=
  if isinstance e DatasetError then Some (raise e)
  else if isinstance e Exception then
    Some (fun self =>
            raise (mk_exn DatasetError (failure_message op (name self))
                          (Some e)) self)
  else None.

Module AbstractDataset.

(** What a concrete subclass provides: the [name] attribute and the
    abstract methods. [D] is the state of the instance. *)
Class Backend (D : Type) : Type := {
  name : D -> string;
  _read : kwargs -> M D pyval;
  _write : args -> kwargs -> M D pyval;
  _create : kwargs -> M D pyval;
  _delete : M D pyval;
  _initialize : kwargs -> M D pyval;
  _describe : kwargs -> M D pyval;
  _exists : kwargs -> M D pyval
}.

Section Public.
Context {D : Type} `{Backend D}.

Definition read (kw : kwargs) : M D pyval :=
  try_except (_read kw) (except_clauses name OpRead).

Definition write (a : args) (kw : kwargs) : M D pyval :=
  try_except (_write a kw) (except_clauses name OpWrite).

Definition create (kw : kwargs) : M D pyval :=
  try_except (_create kw) (except_clauses name OpCreate).

Definition delete : M D pyval :=
  try_except _delete (except_clauses name OpDelete).

Definition exists_ (kw : kwargs) : M D pyval :=
  try_except (_exists kw) (except_clauses name OpExists).

Definition initialize (kw : kwargs) : M D pyval :=
  try_except (_initialize kw) (except_clauses name OpInitialize).

(** The private method behind an operation, and the public method that
    guards it. *)
Definition private (op : operation) (a : args) (kw : kwargs) : M D pyval :=
  match op with
  | OpRead => _read kw
  | OpWrite => _write a kw
  | OpCreate => _create kw
  | OpDelete => _delete
  | OpExists => _exists kw
  | OpInitialize => _initialize kw
  end.

Definition public (op : operation) (a : args) (kw : kwargs) : M D pyval :=
  match op with
  | OpRead => read kw
  | OpWrite => write a kw
  | OpCreate => create kw
  | OpDelete => delete
  | OpExists => exists_ kw
  | OpInitialize => initialize kw
  end.

End Public.
End AbstractDataset.

Module AbstractAsyncDataset.

(** Calling an [async def] builds a coroutine and runs nothing;
    [await] runs it to its outcome on the object. *)
Record coroutine (D A : Type) : Type := Coroutine { await : M D A }.
Arguments Coroutine {D A} _.
Arguments await {D A} _.

Class Backend (D : Type) : Type := {
  name : D -> string;
  _read : kwargs -> coroutine D pyval;
  _write : args -> kwargs -> coroutine D pyval;
  _create : kwargs -> coroutine D pyval;
  _delete : coroutine D pyval;
  _initialize : kwargs -> coroutine D pyval;
  _describe : kwargs -> coroutine D pyval;
  _exists : kwargs -> coroutine D pyval
}.

Section Public.
Context {D : Type} `{Backend D}.

Definition read (kw : kwargs) : coroutine D pyval :=
  Coroutine (try_except (await (_read kw)) (except_clauses name OpRead)).

Definition write (a : args) (kw : kwargs) : coroutine D pyval :=
  Coroutine (try_except (await (_write a kw)) (except_clauses name OpWrite)).

Definition create (kw : kwargs) : coroutine D pyval :=
  Coroutine (try_except (await (_create kw)) (except_clauses name OpCreate)).

Definition delete : coroutine D pyval :=
  Coroutine (try_except (await _delete) (except_clauses name OpDelete)).

Definition exists_ (kw : kwargs) : coroutine D pyval :=
  Coroutine (try_except (await (_exists kw)) (except_clauses name OpExists)).

Definition initialize (kw : kwargs) : coroutine D pyval :=
  Coroutine (try_except (await (_initialize kw))
               (except_clauses name OpInitialize)).

Definition private (op : operation) (a : args) (kw : kwargs)
    : coroutine D pyval :=
  match op with
  | OpRead => _read kw
  | OpWrite => _write a kw
  | OpCreate => _create kw
  | OpDelete => _delete
  | OpExists => _exists kw
  | OpInitialize => _initialize kw
  end.

Definition public (op : operation) (a : args) (kw : kwargs)
    : coroutine D pyval :=
  match op with
  | OpRead => read kw
  | OpWrite => write a kw
  | OpCreate => create kw
  | OpDelete => delete
  | OpExists => exists_ kw
  | OpInitialize => initialize kw
  end.

End Public.
End AbstractAsyncDataset.

(* ===================================================================== *)
(** * aineko/core/node.py                                                 *)
(* ===================================================================== *)

(** ** PoisonPill *)

Module PoisonPill.

Record t : Type := mk { state : bool }.

(** [__init__]: the pill starts unactivated. *)
Definition init : t := mk false.

Definition activate : M t pyval := fun _ => (Ret PyNone, mk true).

Definition get_state : M t pyval := fun self => (Ret (PyBool (state self)), self).

(** The methods of the class, as calls that can be made on a pill. *)
Inductive call : Type := Activate | GetState.

Definition perform (c : call) : M t pyval :=
  match c with
  | Activate => activate
  | GetState => get_state
  end.

(** The pill after a sequence of calls. *)
Definition after (cs : list call) (p : t) : t :=
  foldl (fun p c => snd (perform c p)) p cs.

End PoisonPill.

(** ** Configuration constants *)

Module Config.

(** Modelled from the spec: [aineko/config.py] is not among the sources.
    [AINEKO_CONFIG.get("LOG_LEVELS")] is the fixed allowed set of levels,
    which the specification gives as info, debug, warning, error,
    critical. *)
Definition LOG_LEVELS : list string :=
  ["info"; "debug"; "warning"; "error"; "critical"].

End Config.

(** ** Test doubles *)

Module FakeDatasetInput.

(** The attributes [node.py] sets and reads on an input double. *)
Record t : Type := mk {
  dataset_name : string;
  node_name : string;
  values : list pyval;
  empty : bool
}.

End FakeDatasetInput.

Module FakeDatasetOutput.

Record t : Type := mk {
  dataset_name : string;
  node_name : string;
  values : list pyval
}.

(** Modelled from the spec: the class is defined in
    [aineko/datasets/kafka.py], which is not among the sources. An output
    double is an in-memory stand-in that holds, in order, the values
    produced to it: it starts with none and [write] adds one at the end. *)
Definition new (dataset_name node_name : string) : t :=
  mk dataset_name node_name [].

Definition write (message : pyval) : M t pyval := fun self =>
  (Ret PyNone,
   mk (dataset_name self) (node_name self)
      (values self ++ [message])%list).

End FakeDatasetOutput.

(** ** AbstractNode *)

Module AbstractNode.
Section Node.

(** [D]: the state of a dataset object built by
    [AbstractDataset.from_config]; [U]: the attributes a node subclass
    adds to its instances. *)
Context {D : Type} {backend : AbstractDataset.Backend D} {U : Type}.

(** [DEFAULT_KAFKA_CONFIG.get("LOGGING_DATASET")], the name of the
    reserved logging dataset; [aineko/config.py] is not among the sources
    and the name is left open. *)
Variable LOGGING_DATASET : string.

(** Modelled from the spec: [TESTING_NODE_CONFIG.get("DATASETS")], from
    [aineko/config.py], which is not among the sources. The logging
    dataset is the reserved output every node has. *)
Definition TESTING_NODE_DATASETS : list string := [LOGGING_DATASET].

(** The constructor of an input double, from [aineko/datasets/kafka.py],
    which is not among the sources: called with [dataset_name],
    [node_name] and [values]. *)
Variable new_FakeDatasetInput :
  string -> string -> list pyval -> FakeDatasetInput.t.

(** [traceback.format_exc()] for the exception being handled. *)
Variable format_exc : exn -> string.

(** What [self.inputs] and [self.outputs] hold: a double in test mode, a
    dataset object otherwise. *)
Inductive input_handle : Type :=
  | InFake (f : FakeDatasetInput.t)
  | InDataset (d : D).

Inductive output_handle : Type :=
  | OutFake (f : FakeDatasetOutput.t)
  | OutDataset (d : D).

(** Handle of a Ray actor. *)
Definition actor : Type := positive.

(** The attributes of a node. [inputs] keeps the insertion order of the
    dictionary, which [all(...)] in [run_test] follows. *)
Record node : Type := mk_node {
  name : string;
  class_name : string;
  pipeline_name : string;
  last_heartbeat : Z;
  inputs : list (string * input_handle);
  outputs : gmap string output_handle;
  params : pyval;
  test : bool;
  log_levels : list string;
  poison_pill : option actor;
  attrs : U
}.

(** What a method of a node acts on: the node itself, the Ray actors
    that hold a poison pill, and the clock, given by the successive
    readings of [time.time()] (exact numbers, one per call). *)
Record world : Type := mk_world {
  self : node;
  actors : gmap actor PoisonPill.t;
  clock : nat -> Z;
  clock_reads : nat
}.

Definition set_self (n : node) (w : world) : world :=
  mk_world n (actors w) (clock w) (clock_reads w).

Definition set_actors (a : gmap actor PoisonPill.t) (w : world) : world :=
  mk_world (self w) a (clock w) (clock_reads w).

Definition set_inputs (i : list (string * input_handle)) (n : node) : node :=
  mk_node (name n) (class_name n) (pipeline_name n) (last_heartbeat n)
    i (outputs n) (params n) (test n) (log_levels n) (poison_pill n)
    (attrs n).

Definition set_outputs (o : gmap string output_handle) (n : node) : node :=
  mk_node (name n) (class_name n) (pipeline_name n) (last_heartbeat n)
    (inputs n) o (params n) (test n) (log_levels n) (poison_pill n)
    (attrs n).

Definition set_params (p : pyval) (n : node) : node :=
  mk_node (name n) (class_name n) (pipeline_name n) (last_heartbeat n)
    (inputs n) (outputs n) p (test n) (log_levels n) (poison_pill n)
    (attrs n).

Definition set_test (b : bool) (n : node) : node :=
  mk_node (name n) (class_name n) (pipeline_name n) (last_heartbeat n)
    (inputs n) (outputs n) (params n) b (log_levels n) (poison_pill n)
    (attrs n).

Definition set_attrs (u : U) (n : node) : node :=
  mk_node (name n) (class_name n) (pipeline_name n) (last_heartbeat n)
    (inputs n) (outputs n) (params n) (test n) (log_levels n)
    (poison_pill n) u.

(** [time.time()] *)
Definition time_time (w : world) : Z * world :=
  (clock w (clock_reads w),
   mk_world (self w) (actors w) (clock w) (S (clock_reads w))).

(** The methods a subclass defines. The hooks default to [pass]. The
    argument is the parameter dictionary; what the subclass keeps from
    one call to the next is in [attrs]. *)
Class Subclass : Type := {
  _pre_loop_hook : pyval -> M world pyval;
  _execute : pyval -> M world pyval;
  _post_loop_hook : pyval -> M world pyval
}.

Definition pass : pyval -> M world pyval := fun _ => ret PyNone.

(** [x or {}] for an optional dictionary. *)
Definition or_empty_dict (x : pyval) : pyval :=
  if truthy x then x else PyDict [].

(** [__init__]: the node object a constructor call creates, with the
    subclass's own attributes [u]; it reads the clock once. *)
Definition init (cls : string) (u : U) (pipeline : string)
    (node_name : option string) (pill : option actor) (test_flag : bool)
    (ray : gmap actor PoisonPill.t) (clk : nat -> Z) (reads : nat) : world :=
  mk_world
    (mk_node
       (match node_name with
        | Some n => if bool_decide (n = "") then cls else n
        | None => cls
        end)
       cls pipeline (clk reads) [] ∅ (PyDict []) test_flag
       Config.LOG_LEVELS pill u)
    ray clk (S reads).

Definition enable_test_mode : M world pyval := fun w =>
  (Ret PyNone, set_self (set_test true (self w)) w).

Definition not_in_test_mode : exn :=
  mk_exn RuntimeError
    "Node is not in test mode. Please initialize with `enable_test_mode()`."
    None.

(** [setup_test]. The dictionary of inputs is given with its items in
    order. (The source also extends the caller's [outputs] list in
    place; that list is not part of the state kept here.) *)
Definition setup_test (ins : option (list (string * list pyval)))
    (outs : option (list string)) (prms : pyval) : M world pyval := fun w =>
  if negb (test (self w)) then (Raise not_in_test_mode, w)
  else
    let ins := default [] ins in
    let new_inputs :=
      (fun '(dataset_name, vals) =>
         (dataset_name,
          InFake (new_FakeDatasetInput dataset_name
                    (class_name (self w)) vals))) <$> ins in
    let outs := (default [] outs ++ TESTING_NODE_DATASETS)%list in
    let new_outputs : gmap string output_handle :=
      list_to_map
        ((fun dataset_name =>
            (dataset_name,
             OutFake (FakeDatasetOutput.new dataset_name
                        (class_name (self w))))) <$> outs) in
    (Ret PyNone,
     set_self (set_params (or_empty_dict prms)
                 (set_outputs new_outputs
                    (set_inputs new_inputs (self w)))) w).

(** [handle.write(message)] on what [self.outputs] holds. *)
Definition handle_write (message : pyval) : M output_handle pyval := fun h =>
  match h with
  | OutFake f =>
      let '(r, f') := FakeDatasetOutput.write message f in (r, OutFake f')
  | OutDataset d =>
      let '(r, d') := AbstractDataset.write [message] [] d in
      (r, OutDataset d')
  end.

(** [repr] of a string key, as a [KeyError] shows it. *)
Definition repr_key (k : string) : string := "'" +:+ k +:+ "'".

(** [self.outputs[key].write(message)]: the handle is looked up and
    written to; it stays the same object of the dictionary. *)
Definition outputs_write (key : string) (message : pyval) : M world pyval :=
  fun w =>
    match outputs (self w) !! key with
    | None => (Raise (mk_exn KeyError (repr_key key) None), w)
    | Some h =>
        let '(r, h') := handle_write message h in
        (r, set_self (set_outputs (<[key := h']> (outputs (self w)))
                        (self w)) w)
    end.

Definition invalid_level (level : string) (levels : list string) : exn :=
  mk_exn ValueError
    ("Invalid logging level " +:+ level +:+ ". Valid options are: "
       +:+ String.concat ", " levels)
    None.

Definition log_record (message level : string) : pyval :=
  PyDict [("log", PyStr message); ("level", PyStr level)].

(** [log]. What [write] returns is dropped: the method has no [return]
    and gives [None]. *)
Definition log (message : string) (level : string) : M world pyval := fun w =>
  if negb (bool_decide (level ∈ log_levels (self w)))
  then (Raise (invalid_level level (log_levels (self w))), w)
  else (outputs_write LOGGING_DATASET (log_record message level) ;;;
        ret PyNone) w.

(** [_log_traceback], with the exception being handled. *)
Definition _log_traceback (e : exn) : M world pyval :=
  log (format_exc e) "debug".

(** [except Exception: self._log_traceback(); raise] *)
Definition log_and_reraise (e : exn) : option (M world pyval) :=
  if isinstance e Exception
  then Some (_log_traceback e ;;; raise e)
  else None.

Context {subclass : Subclass}.

(** The [while run_loop is not False] loop of [execute]. The first test
    of the condition passes ([run_loop] starts as [True]), so an iteration
    is: run the step, then test what it returned. [None]: the loop is
    still running after [fuel] iterations. *)
Fixpoint execute_loop (fuel : nat) (prms : pyval) (w : world)
    : option (result pyval * world) :=
  match fuel with
  | 0 => None
  | S fuel' =>
      match try_except (_execute prms) log_and_reraise w with
      | (Raise e, w') => Some (Raise e, w')
      | (Ret run_loop, w') =>
          if is_False run_loop then Some (Ret PyNone, w')
          else execute_loop fuel' prms w'
      end
  end.

Definition loop_complete_message (n : node) : string :=
  "Execution loop complete for node: " +:+ class_name n.

(** [execute] *)
Definition execute (fuel : nat) (prms : pyval) (w : world)
    : option (result pyval * world) :=
  let prms := or_empty_dict prms in
  match try_except (_pre_loop_hook prms) log_and_reraise w with
  | (Raise e, w1) => Some (Raise e, w1)
  | (Ret _, w1) =>
      match execute_loop fuel prms w1 with
      | None => None
      | Some (Raise e, w2) => Some (Raise e, w2)
      | Some (Ret _, w2) =>
          Some ((log (loop_complete_message (self w2)) "info" ;;;
                 _post_loop_hook prms ;;;
                 ret PyNone) w2)
      end
  end.

(** A remote method call on the pill actor, waited for with [ray.get].
    A handle whose actor is gone fails the call. *)
Definition ray_actor_error : exn :=
  mk_exn (UserClass "RayActorError" (UserClass "RayError" Exception))
    "The actor died unexpectedly before finishing this task." None.

Definition remote (h : actor) (c : PoisonPill.call) : M world pyval := fun w =>
  match actors w !! h with
  | None => (Raise ray_actor_error, w)
  | Some p =>
      let '(r, p') := PoisonPill.perform c p in
      (r, set_actors (<[h := p']> (actors w)) w)
  end.

(** [activate_poison_pill]. An actor handle is a true value; [None] is
    not. *)
Definition activate_poison_pill : M world pyval := fun w =>
  match poison_pill (self w) with
  | Some h => (remote h PoisonPill.Activate ;;; ret PyNone) w
  | None => (Ret PyNone, w)
  end.

(** [input.empty] on what [self.inputs] holds; a dataset object that is
    no double has no such attribute. *)
Definition handle_empty (h : input_handle) : result bool :=
  match h with
  | InFake f => Ret (FakeDatasetInput.empty f)
  | InDataset _ =>
      Raise (mk_exn AttributeError "object has no attribute 'empty'" None)
  end.

(** [all(input.empty for input in self.inputs.values())] *)
Fixpoint all_empty (ins : list (string * input_handle)) : result bool :=
  match ins with
  | [] => Ret true
  | (_, h) :: rest =>
      match handle_empty h with
      | Raise e => Raise e
      | Ret false => Ret false
      | Ret true => all_empty rest
      end
  end.

(** [self.inputs and all(...)], as the condition of an [if]. *)
Definition inputs_exhausted (ins : list (string * input_handle))
    : result bool :=
  match ins with
  | [] => Ret false
  | _ :: _ => all_empty ins
  end.

(** The loop of [run_test]; [start_time] is the reading taken before the
    pre-loop hook. After the step: with a [runtime] given, the clock is
    read and, while less than [runtime] has passed, the rest of the body
    is skipped ([continue]); otherwise [run_loop] is set to [False] when
    there are inputs and all of them are empty. Then the loop condition
    is tested. *)
Fixpoint run_test_loop (fuel : nat) (runtime : option Z) (start_time : Z)
    (w : world) : option (result pyval * world) :=
  match fuel with
  | 0 => None
  | S fuel' =>
      match _execute (params (self w)) w with
      | (Raise e, w1) => Some (Raise e, w1)
      | (Ret run_loop, w1) =>
          let '(skip, w2) :=
            match runtime with
            | None => (false, w1)
            | Some rt =>
                let '(now, w2) := time_time w1 in
                ((now - start_time <? rt)%Z, w2)
            end in
          if skip then
            if is_False run_loop then Some (Ret PyNone, w2)
            else run_test_loop fuel' runtime start_time w2
          else
            match inputs_exhausted (inputs (self w2)) with
            | Raise e => Some (Raise e, w2)
            | Ret true => Some (Ret PyNone, w2)
            | Ret false =>
                if is_False run_loop then Some (Ret PyNone, w2)
                else run_test_loop fuel' runtime start_time w2
            end
      end
  end.

(** [output.values] on what [self.outputs] holds: a double has the
    attribute, a dataset object that is no double has not. *)
Definition handle_values (h : output_handle) : option (list pyval) :=
  match h with
  | OutFake f => Some (FakeDatasetOutput.values f)
  | OutDataset _ => None
  end.

(** [{dataset_name: output.values for dataset_name, output in
    self.outputs.items()}]. The comprehension reads the attribute of
    every output and fails at the first that has none; whichever comes
    first, the exception is the same. *)
Definition collect_outputs (outs : gmap string output_handle)
    : result (gmap string (list pyval)) :=
  if decide (map_Forall (fun _ h => is_Some (handle_values h)) outs)
  then Ret (omap handle_values outs)
  else Raise (mk_exn AttributeError "object has no attribute 'values'" None).

(** [run_test] *)
Definition run_test (fuel : nat) (runtime : option Z) (w : world)
    : option (result (gmap string (list pyval)) * world) :=
  if negb (test (self w)) then Some (Raise not_in_test_mode, w)
  else
    let '(start_time, w0) := time_time w in
    match _pre_loop_hook (params (self w0)) w0 with
    | (Raise e, w1) => Some (Raise e, w1)
    | (Ret _, w1) =>
        match run_test_loop fuel runtime start_time w1 with
        | None => None
        | Some (Raise e, w2) => Some (Raise e, w2)
        | Some (Ret _, w2) =>
            match _post_loop_hook (params (self w2)) w2 with
            | (Raise e, w3) => Some (Raise e, w3)
            | (Ret _, w3) =>
                Some (collect_outputs (outputs (self w3)), w3)
            end
        end
    end.

(** [input_dataset.values] on what [self.inputs] holds. *)
Definition input_values (h : input_handle) : option (list pyval) :=
  match h with
  | InFake f => Some (FakeDatasetInput.values f)
  | InDataset _ => None
  end.

(** The first loop of an iteration of [run_test_yield]:
<<
    for dataset_name, input_dataset in self.inputs.items():
        if input_dataset.values:
            last_value = input_dataset.values[0]
            last_consumed_values[dataset_name] = last_value
>>
    [acc] is [last_consumed_values] so far. *)
Fixpoint capture_consumed (ins : list (string * input_handle))
    (acc : gmap string pyval) : result (gmap string pyval) :=
  match ins with
  | [] => Ret acc
  | (dataset_name, h) :: rest =>
      match input_values h with
      | None =>
          Raise (mk_exn AttributeError "object has no attribute 'values'" None)
      | Some [] => capture_consumed rest acc
      | Some (last_value :: _) =>
          capture_consumed rest (<[dataset_name := last_value]> acc)
      end
  end.

(** The last loop of an iteration:
<<
    for dataset_name, output in self.outputs.items():
        if output.values:
            last_value = output.values[-1]
            last_produced_values[dataset_name] = last_value
>>
    As in [collect_outputs], an output without the attribute fails the
    loop, with the same exception wherever it stands. *)
Definition capture_produced (outs : gmap string output_handle)
    : result (gmap string pyval) :=
  if decide (map_Forall (fun _ h => is_Some (handle_values h)) outs)
  then Ret (omap (fun h => handle_values h ≫= last) outs)
  else Raise (mk_exn AttributeError "object has no attribute 'values'" None).

(** What [run_test_yield] hands over at a [yield]: the values about to
    be consumed, the values last produced, and the node, seen as it is at
    that moment. *)
Definition yielded : Type := gmap string pyval * gmap string pyval * node.

(** The loop of [run_test_yield], for a generator that is run to its
    end by a consumer that leaves the node alone: the triples handed over
    are collected in order. An iteration cut short by [continue] hands
    over nothing. *)
Fixpoint run_test_yield_loop (fuel : nat) (runtime : option Z)
    (start_time : Z) (w : world)
    : option (result pyval * world * list yielded) :=
  match fuel with
  | 0 => None
  | S fuel' =>
      match capture_consumed (inputs (self w)) ∅ with
      | Raise e => Some (Raise e, w, [])
      | Ret last_consumed_values =>
          match _execute (params (self w)) w with
          | (Raise e, w1) => Some (Raise e, w1, [])
          | (Ret run_loop, w1) =>
              let '(skip, w2) :=
                match runtime with
                | None => (false, w1)
                | Some rt =>
                    let '(now, w2) := time_time w1 in
                    ((now - start_time <? rt)%Z, w2)
                end in
              if skip then
                if is_False run_loop then Some (Ret PyNone, w2, [])
                else run_test_yield_loop fuel' runtime start_time w2
              else
                match inputs_exhausted (inputs (self w2)) with
                | Raise e => Some (Raise e, w2, [])
                | Ret exhausted =>
                    match capture_produced (outputs (self w2)) with
                    | Raise e => Some (Raise e, w2, [])
                    | Ret last_produced_values =>
                        let y := (last_consumed_values, last_produced_values,
                                  self w2) in
                        if exhausted || is_False run_loop
                        then Some (Ret PyNone, w2, [y])
                        else
                          match run_test_yield_loop fuel' runtime
                                  start_time w2 with
                          | None => None
                          | Some (r, w', ys) => Some (r, w', y :: ys)
                          end
                    end
                end
          end
      end
  end.

(** [run_test_yield], run to its end. *)
Definition run_test_yield (fuel : nat) (runtime : option Z) (w : world)
    : option (result pyval * world * list yielded) :=
  if negb (test (self w)) then Some (Raise not_in_test_mode, w, [])
  else
    let '(start_time, w0) := time_time w in
    match _pre_loop_hook (params (self w0)) w0 with
    | (Raise e, w1) => Some (Raise e, w1, [])
    | (Ret _, w1) =>
        match run_test_yield_loop fuel runtime start_time w1 with
        | None => None
        | Some (Raise e, w2, ys) => Some (Raise e, w2, ys)
        | Some (Ret _, w2, ys) =>
            match _post_loop_hook (params (self w2)) w2 with
            | (Raise e, w3) => Some (Raise e, w3, ys)
            | (Ret _, w3) => Some (Ret PyNone, w3, ys)
            end
        end
    end.

End Node.
End AbstractNode.

(* ===================================================================== *)
(** * aineko/core/config_loader.py                                        *)
(* ===================================================================== *)

Module ConfigLoader.

(** ** Strings *)

(** The text up to and including the first closing brace. *)
Fixpoint upto_brace (s : string) : option string :=
  match s with
  | EmptyString => None
  | String c rest =>
      if Ascii.eqb c "}"%char then Some "}"
      else String c <$> upto_brace rest
  end.

(** [re.search(r"\{\$.*?\}", s, re.DOTALL).group()]: the leftmost
    position where "{$" starts and a closing brace follows; the lazy
    [.*?], which matches any character, stops at the first one. *)
Fixpoint re_search (s : string) : option string :=
  match s with
  | EmptyString => None
  | String c rest =>
      if Ascii.eqb c "{"%char then
        match rest with
        | String d rest' =>
            if Ascii.eqb d "$"%char then
              match upto_brace rest' with
              | Some m => Some (String "{"%char (String "$"%char m))
              | None => re_search rest
              end
            else re_search rest
        | EmptyString => None
        end
      else re_search rest
  end.

(** [s[2:]] and [s[:-1]] *)
Definition from_2 (s : string) : string :=
  match s with
  | String _ (String _ rest) => rest
  | _ => ""
  end.

Fixpoint drop_last (s : string) : string :=
  match s with
  | EmptyString => ""
  | String c rest =>
      match rest with
      | EmptyString => ""
      | String _ _ => String c (drop_last rest)
      end
  end.

(** [env_var_env_str[2:][:-1]] *)
Definition var_name (env_var_env_str : string) : string :=
  drop_last (from_2 env_var_env_str).

(** [s.replace(old, new)] for a non-empty [old]: every occurrence, from
    left to right, without overlap. [skip] counts the characters of an
    occurrence just replaced that are still to be passed over. *)
Fixpoint replace_from (old new : string) (skip : nat) (s : string) : string :=
  match s with
  | EmptyString => ""
  | String c rest =>
      match skip with
      | S k => replace_from old new k rest
      | O =>
          if String.prefix old s
          then new +:+ replace_from old new (String.length old - 1) rest
          else String c (replace_from old new 0 rest)
      end
  end.

Definition replace (old new s : string) : string := replace_from old new 0 s.

Definition missing_variable (name : string) : exn :=
  mk_exn ValueError
    ("Failed to inject environment variable. " +:+ name +:+ " was not found.")
    None.

(** Raised by the interpreter when the calls nest deeper than its limit. *)
Definition recursion_error : exn :=
  mk_exn RecursionError "maximum recursion depth exceeded" None.

(** ** Parameter trees in the store *)

(** A dictionary or a list is an object of the store and is passed
    around by reference; the other values are immutable. *)
Definition loc : Type := positive.

Inductive val : Type :=
  | VNone
  | VBool (b : bool)
  | VInt (z : Z)
  | VFloat (bits : Z)
  | VStr (s : string)
  | VRef (l : loc).

Inductive obj : Type :=
  | ODict (items : list (string * val))
  | OList (elems : list val).

Abbreviation store := (gmap loc obj).

(** A reference always leads to an object; a store in which one does
    not is no state of the program, and an access through it is answered
    by this error. *)
Definition bad_reference : exn :=
  mk_exn RuntimeError "reference to no object" None.

(** [d[k] = v] on the items of a dictionary: the value of an existing key
    is replaced where it stands, a new key goes to the end. *)
Fixpoint assoc_set (k : string) (v : val) (items : list (string * val))
    : list (string * val) :=
  match items with
  | [] => [(k, v)]
  | (k', v') :: rest =>
      if decide (k' = k) then (k, v) :: rest
      else (k', v') :: assoc_set k v rest
  end.

Definition dict_setitem (l : loc) (k : string) (v : val) : M store unit :=
  fun h =>
    match h !! l with
    | Some (ODict items) => (Ret tt, <[l := ODict (assoc_set k v items)]> h)
    | _ => (Raise bad_reference, h)
    end.

(** [xs[i] = v] for an index within the list. *)
Definition list_setitem (l : loc) (i : nat) (v : val) : M store unit :=
  fun h =>
    match h !! l with
    | Some (OList elems) => (Ret tt, <[l := OList (<[i := v]> elems)]> h)
    | _ => (Raise bad_reference, h)
    end.

Section Inject.

(** [os.environ] *)
Variable environ : gmap string string.

(** [for k, v in list(node_params.items()): node_params[k] = rec(v)],
    over the items as they were when the loop started. *)
Fixpoint dict_loop (rec : val -> M store val) (l : loc)
    (snapshot : list (string * val)) : M store unit :=
  match snapshot with
  | [] => ret tt
  | (k, v) :: rest =>
      v' <- rec v ;;
      dict_setitem l k v' ;;;
      dict_loop rec l rest
  end.

(** [for i, v in enumerate(node_params): node_params[i] = rec(v)]: the
    element at [i] is read from the list as it is when the loop gets
    there, and the loop ends at the end of the list. [n] bounds the
    iterations by the length the list has at the start. *)
Fixpoint list_loop (rec : val -> M store val) (l : loc) (i n : nat)
    : M store unit :=
  match n with
  | O => ret tt
  | S n' =>
      fun h =>
        match h !! l with
        | Some (OList elems) =>
            match elems !! i with
            | Some v =>
                (v' <- rec v ;;
                 list_setitem l i v' ;;;
                 list_loop rec l (S i) n') h
            | None => (Ret tt, h)
            end
        | _ => (Raise bad_reference, h)
        end
  end.

(** [inject_env_vars]. [depth] is how many nested calls the interpreter
    still allows. *)
Fixpoint inject_env_vars (depth : nat) (node_params : val) : M store val :=
  match depth with
  | O => raise recursion_error
  | S depth' =>
      match node_params with
      | VRef l =>
          fun h =>
            match h !! l with
            | Some (ODict items) =>
                (dict_loop (inject_env_vars depth') l items ;;;
                 ret (VRef l)) h
            | Some (OList elems) =>
                (list_loop (inject_env_vars depth') l 0 (length elems) ;;;
                 ret (VRef l)) h
            | None => (Raise bad_reference, h)
            end
      | VStr s =>
          match re_search s with
          | Some env_var_env_str =>
              match environ !! var_name env_var_env_str with
              | None => raise (missing_variable (var_name env_var_env_str))
              | Some env_var_value =>
                  inject_env_vars depth'
                    (VStr (replace env_var_env_str env_var_value s))
              end
          | None => ret (VStr s)
          end
      | _ => ret node_params
      end
  end.

(** ** The same on trees as values *)

(** Apply [f] from left to right, up to the first failure. *)
Fixpoint traverse {A B : Type} (f : A -> result B) (xs : list A)
    : result (list B) :=
  match xs with
  | [] => Ret []
  | x :: rest =>
      match f x with
      | Raise e => Raise e
      | Ret y =>
          match traverse f rest with
          | Raise e => Raise e
          | Ret ys => Ret (y :: ys)
          end
      end
  end.

(** What [inject_env_vars] computes, read off a tree given as a value:
    the values of a dictionary and the elements of a list are injected in
    order, a string is rewritten placeholder by placeholder. *)
Fixpoint inject_tree (depth : nat) (t : pyval) : result pyval :=
  match depth with
  | O => Raise recursion_error
  | S depth' =>
      match t with
      | PyDict kvs =>
          match traverse (fun kv => match inject_tree depth' kv.2 with
                                    | Ret t' => Ret (kv.1, t')
                                    | Raise e => Raise e
                                    end) kvs with
          | Ret kvs' => Ret (PyDict kvs')
          | Raise e => Raise e
          end
      | PyList ts =>
          match traverse (inject_tree depth') ts with
          | Ret ts' => Ret (PyList ts')
          | Raise e => Raise e
          end
      | PyStr s =>
          match re_search s with
          | Some env_var_env_str =>
              match environ !! var_name env_var_env_str with
              | None => Raise (missing_variable (var_name env_var_env_str))
              | Some env_var_value =>
                  inject_tree depth'
                    (PyStr (replace env_var_env_str env_var_value s))
              end
          | None => Ret (PyStr s)
          end
      | _ => Ret t
      end
  end.

End Inject.

(** No string leaf of the tree holds a placeholder. *)
Fixpoint placeholder_free (t : pyval) : bool :=
  match t with
  | PyStr s => bool_decide (re_search s = None)
  | PyList ts => forallb placeholder_free ts
  | PyDict kvs => forallb (fun kv => placeholder_free kv.2) kvs
  | _ => true
  end.

(** Two trees that differ in their string leaves at most: the same
    dictionaries with the same keys in the same order, the same lists of
    the same length, the same numbers, booleans and [None]s. *)
Fixpoint same_but_strings (t t' : pyval) : bool :=
  match t, t' with
  | PyNone, PyNone => true
  | PyBool b, PyBool b' => bool_decide (b = b')
  | PyInt z, PyInt z' => bool_decide (z = z')
  | PyFloat x, PyFloat x' => bool_decide (x = x')
  | PyStr _, PyStr _ => true
  | PyList ts, PyList ts' =>
      (fix go (ts ts' : list pyval) : bool :=
         match ts, ts' with
         | [], [] => true
         | x :: r, x' :: r' => same_but_strings x x' && go r r'
         | _, _ => false
         end) ts ts'
  | PyDict kvs, PyDict kvs' =>
      (fix go (kvs kvs' : list (string * pyval)) : bool :=
         match kvs, kvs' with
         | [], [] => true
         | (k, x) :: r, (k', x') :: r' =>
             bool_decide (k = k') && same_but_strings x x' && go r r'
         | _, _ => false
         end) kvs kvs'
  | _, _ => false
  end.

(** ** Stores that differ in strings only *)

(** The same value, or two strings. *)
Definition same_or_strings (v v' : val) : Prop :=
  match v, v' with
  | VStr _, VStr _ => True
  | _, _ => v = v'
  end.

(** The same kind of object with the same keys in the same order, or
    the same length, and entries that are the same or two strings. *)
Definition same_entries (o o' : obj) : Prop :=
  match o, o' with
  | ODict items, ODict items' =>
      Forall2 (fun kv kv' => kv.1 = kv'.1 ∧ same_or_strings kv.2 kv'.2)
        items items'
  | OList elems, OList elems' => Forall2 same_or_strings elems elems'
  | _, _ => False
  end.

(** The same objects at the same places, up to the strings they hold. *)
Definition same_objects (h h' : store) : Prop :=
  ∀ l, option_Forall2 same_entries (h !! l) (h' !! l).

(** The keys of every dictionary of the store are distinct. *)
Definition distinct_keys (h : store) : Prop :=
  ∀ l items, h !! l = Some (ODict items) → NoDup (items.*1).

(** ** A tree laid out in the store *)

(** The footprints in [fps] do not overlap. *)
Fixpoint pairwise_disjoint (fps : list (gset loc)) : Prop :=
  match fps with
  | [] => True
  | fp :: rest => Forall (fun fp' => fp ## fp') rest ∧ pairwise_disjoint rest
  end.

(** [laid_out n h v t fp]: in the store [h], the value [v] is the tree
    [t], of height at most [n]; the objects it is made of are those at
    [fp], each used in one place only; the keys of a dictionary are
    distinct. A child is given by its key (for a dictionary), its value
    in the store, the tree it stands for and its footprint. *)
Fixpoint laid_out (n : nat) (h : store) (v : val) (t : pyval)
    (fp : gset loc) {struct n} : Prop :=
  match v, t with
  | VNone, PyNone => fp = ∅
  | VBool b, PyBool b' => b = b' ∧ fp = ∅
  | VInt z, PyInt z' => z = z' ∧ fp = ∅
  | VFloat x, PyFloat x' => x = x' ∧ fp = ∅
  | VStr s, PyStr s' => s = s' ∧ fp = ∅
  | VRef l, PyList ts =>
      match n with
      | O => False
      | S n' =>
          ∃ cs : list (val * pyval * gset loc),
            h !! l = Some (OList ((cs.*1).*1)) ∧
            ts = (cs.*1).*2 ∧
            Forall (fun c => laid_out n' h c.1.1 c.1.2 c.2) cs ∧
            pairwise_disjoint (cs.*2) ∧
            (l ∉ (⋃ (cs.*2) : gset loc)) ∧
            fp = {[l]} ∪ (⋃ (cs.*2))
      end
  | VRef l, PyDict kvs =>
      match n with
      | O => False
      | S n' =>
          ∃ cs : list (string * (val * pyval * gset loc)),
            h !! l = Some (ODict ((fun c => (c.1, c.2.1.1)) <$> cs)) ∧
            kvs = (fun c => (c.1, c.2.1.2)) <$> cs ∧
            NoDup (cs.*1) ∧
            Forall (fun c => laid_out n' h c.2.1.1 c.2.1.2 c.2.2) cs ∧
            pairwise_disjoint ((cs.*2).*2) ∧
            (l ∉ (⋃ ((cs.*2).*2) : gset loc)) ∧
            fp = {[l]} ∪ (⋃ ((cs.*2).*2))
      end
  | _, _ => False
  end.

(** ** _update_params *)

(** How the [TypeError] of [str.replace] names an argument that is no
    string: [None] for [None], and the name of its type for any other
    value. *)
Definition argument_name (v : pyval) : string :=
  match v with
  | PyNone => "None"
  | PyBool _ => "bool"
  | PyInt _ => "int"
  | PyFloat _ => "float"
  | PyStr _ => "str"
  | PyList _ => "list"
  | PyDict _ => "dict"
  end.

(** What [str.replace] raises when its second argument is no string. *)
Definition replace_type_error (v : pyval) : exn :=
  mk_exn (UserClass "TypeError" Exception)
    ("replace() argument 2 must be str, not " +:+ argument_name v) None.

(** [for key, val in params.items(): value = value.replace(f"${key}", val)] *)
Fixpoint substitute (params : list (string * pyval)) (value : string)
    : result string :=
  match params with
  | [] => Ret value
  | (key, val) :: rest =>
      match val with
      | PyStr v => substitute rest (replace (String "$"%char key) v value)
      | _ => Raise (replace_type_error val)
      end
  end.

(** The only value of [pyval] that is none of dict, list, str, int and
    float is [None] ([bool] is a subclass of [int]). *)
Definition invalid_value_type : exn :=
  mk_exn ValueError
    "Invalid value type <class 'NoneType'>. Expected dict, list, str, or int."
    None.

(** [_update_params]. It builds new dictionaries and lists and leaves
    its argument alone, so the trees are values here. [depth] is how many
    nested calls the interpreter still allows. *)
Fixpoint _update_params (depth : nat) (value : pyval)
    (params : list (string * pyval)) : result pyval :=
  match depth with
  | O => Raise recursion_error
  | S depth' =>
      match value with
      | PyDict kvs =>
          match traverse (fun kv => match _update_params depth' kv.2 params with
                                    | Ret t' => Ret (kv.1, t')
                                    | Raise e => Raise e
                                    end) kvs with
          | Ret kvs' => Ret (PyDict kvs')
          | Raise e => Raise e
          end
      | PyList ts =>
          match traverse (fun t => _update_params depth' t params) ts with
          | Ret ts' => Ret (PyList ts')
          | Raise e => Raise e
          end
      | PyStr s =>
          match substitute params s with
          | Ret s' => Ret (PyStr s')
          | Raise e => Raise e
          end
      | PyBool _ | PyInt _ | PyFloat _ => Ret value
      | PyNone => Raise invalid_value_type
      end
  end.

End ConfigLoader.

(* ===================================================================== *)
(** * Properties                                                           *)
(* ===================================================================== *)

(** ** Exception classes *)

Lemma issubclass_fuel_refl n c : issubclass_fuel n c c = true.
Proof. destruct n; simpl; rewrite bool_decide_eq_true_2; done. Qed.

Lemma issubclass_refl c : issubclass c c = true.
Proof. apply issubclass_fuel_refl. Qed.

(** One step up the hierarchy, with the fuel the class itself needs. *)
Lemma issubclass_parent c p d :
  parent c = Some p → c ≠ d → issubclass c d = issubclass p d.
Proof.
  intros Hp Hne. unfold issubclass.
  assert (Hh : height c = S (height p)).
  { destruct c; simpl in *; simplify_eq; reflexivity. }
  rewrite Hh. simpl. rewrite Hp.
  rewrite bool_decide_eq_false_2 by done. reflexivity.
Qed.

(** Every class that derives from [DatasetError] derives from
    [Exception]: the first [except] clause only catches what the second
    would catch as well. *)
Lemma DatasetError_is_Exception c :
  issubclass c DatasetError = true → issubclass c Exception = true.
Proof.
  induction c; try (vm_compute; congruence).
  intros Hc.
  rewrite (issubclass_parent (UserClass name c) c) in Hc by done.
  rewrite (issubclass_parent (UserClass name c) c) by done.
  auto.
Qed.

Lemma isinstance_DatasetError_Exception e :
  isinstance e DatasetError = true → isinstance e Exception = true.
Proof. apply DatasetError_is_Exception. Qed.

(** ** DatasetCreateStatus.done *)

Section StatusFacts.
Context {Future Status : Type}.
Variable future_done : Future -> bool.
Variable status_done : Status -> bool.

Abbreviation status := (@DatasetCreateStatus.t Future Status).
Abbreviation done := (DatasetCreateStatus.done future_done status_done).
Abbreviation futures_complete :=
  (DatasetCreateStatus.futures_complete future_done).
Abbreviation statuses_complete :=
  (DatasetCreateStatus.statuses_complete status_done).
Abbreviation all_complete :=
  (DatasetCreateStatus.all_complete future_done status_done).

Lemma forallb_values (m : gmap string Future) :
  forallb future_done (DatasetCreateStatus.values m) = true ↔
  ∀ k f, m !! k = Some f → future_done f = true.
Proof.
  unfold DatasetCreateStatus.values. rewrite forallb_forall. split.
  - intros Hall k f Hk. apply Hall. apply list_elem_of_In.
    apply list_elem_of_fmap. exists (k, f). split; [done|].
    by apply elem_of_map_to_list.
  - intros Hall f Hin. apply list_elem_of_In in Hin.
    apply list_elem_of_fmap in Hin as [[k f'] [-> Hin]].
    apply elem_of_map_to_list in Hin. eauto.
Qed.

Lemma forallb_statuses (l : list Status) :
  forallb status_done l = true ↔ ∀ s, s ∈ l → status_done s = true.
Proof.
  rewrite forallb_forall. split; intros Hall s Hs; apply Hall;
    by apply list_elem_of_In.
Qed.

Lemma truthy_dict_false (o : option (gmap string Future)) :
  DatasetCreateStatus.truthy_dict o = false ↔ o = None ∨ o = Some ∅.
Proof.
  destruct o as [m|]; simpl; [|naive_solver].
  rewrite negb_false_iff, bool_decide_eq_true. naive_solver.
Qed.

Lemma truthy_list_false (o : option (list Status)) :
  DatasetCreateStatus.truthy_list o = false ↔ o = None ∨ o = Some [].
Proof.
  destruct o as [l|]; simpl; [|naive_solver].
  rewrite negb_false_iff, bool_decide_eq_true. naive_solver.
Qed.

(** A collection that is absent or empty tracks nothing. *)
Lemma no_futures_complete (self : status) :
  DatasetCreateStatus.truthy_dict
    (DatasetCreateStatus.kafka_topic_to_future self) = false →
  futures_complete self.
Proof.
  intros Hf m k f Hm Hk. apply truthy_dict_false in Hf.
  rewrite Hm in Hf. destruct Hf as [Hf | Hf]; [done|].
  injection Hf as ->. by rewrite lookup_empty in Hk.
Qed.

Lemma no_statuses_complete (self : status) :
  DatasetCreateStatus.truthy_list
    (DatasetCreateStatus.status_list self) = false →
  statuses_complete self.
Proof.
  intros Hs l s Hl Hin. apply truthy_list_false in Hs.
  rewrite Hl in Hs. destruct Hs as [Hs | Hs]; [done|].
  injection Hs as ->. by apply elem_of_nil in Hin.
Qed.

(** The implicit [return None] at the end of [done] is never reached. *)
Lemma done_returns_bool (self : status) : ∃ b, done self = Some b.
Proof.
  unfold DatasetCreateStatus.done.
  destruct (DatasetCreateStatus.truthy_dict _),
    (DatasetCreateStatus.truthy_list _); simpl; eauto.
Qed.

(** With a non-empty mapping of futures, [done] is the conjunction of
    the futures alone. *)
Lemma done_futures (self : status) :
  DatasetCreateStatus.truthy_dict
    (DatasetCreateStatus.kafka_topic_to_future self) = true →
  done self = Some true ↔ futures_complete self.
Proof.
  intros Ht. unfold DatasetCreateStatus.done,
    DatasetCreateStatus.futures_complete. rewrite Ht. simpl.
  destruct (DatasetCreateStatus.kafka_topic_to_future self) as [m|];
    [|done]. simpl. split.
  - intros [= Hall] m' k f [= <-]. by apply forallb_values.
  - intros Hall. f_equal. apply forallb_values. eauto.
Qed.

(** Without futures, [done] is the conjunction of the statuses. *)
Lemma done_statuses (self : status) :
  DatasetCreateStatus.truthy_dict
    (DatasetCreateStatus.kafka_topic_to_future self) = false →
  done self = Some true ↔ statuses_complete self.
Proof.
  intros Ht. unfold DatasetCreateStatus.done,
    DatasetCreateStatus.statuses_complete. rewrite Ht. simpl.
  destruct (DatasetCreateStatus.status_list self) as [l|] eqn:Hl; simpl.
  - destruct (bool_decide (l = [])) eqn:Hnil; simpl.
    + apply bool_decide_eq_true in Hnil as ->. split; [|done].
      intros _ l' s [= <-] Hs. by apply elem_of_nil in Hs.
    + split.
      * intros [= Hall] l' s [= <-]. by apply forallb_statuses.
      * intros Hall. f_equal. apply forallb_statuses. eauto.
  - split; [|done]. intros _ l' s [=].
Qed.

(** C5, as the code has it. [done] always returns a boolean. It is true
    exactly when the mapping of futures is non-empty and every future in
    it is complete, or the mapping is absent or empty and every status of
    the status list (if there is one) is complete: a non-empty mapping
    decides alone, and the status list is then not consulted. Whenever at
    most one of the two collections is non-empty, this is the same as
    every tracked operation being complete, and with nothing tracked
    [done] is true. *)
Theorem done_selected_collection (self : status) :
  let futures := DatasetCreateStatus.kafka_topic_to_future self in
  let statuses := DatasetCreateStatus.status_list self in
  (∃ b, done self = Some b) ∧
  (done self = Some true ↔
     (DatasetCreateStatus.truthy_dict futures = true ∧
      futures_complete self) ∨
     (DatasetCreateStatus.truthy_dict futures = false ∧
      statuses_complete self)) ∧
  (DatasetCreateStatus.truthy_dict futures = false ∨
   DatasetCreateStatus.truthy_list statuses = false →
   (done self = Some true ↔ all_complete self)) ∧
  (DatasetCreateStatus.truthy_dict futures = false →
   DatasetCreateStatus.truthy_list statuses = false →
   done self = Some true).
Proof.
  intros futures statuses. split; [apply done_returns_bool|].
  split; [|split].
  - destruct (DatasetCreateStatus.truthy_dict futures) eqn:Ht.
    + rewrite (done_futures self Ht). naive_solver.
    + rewrite (done_statuses self Ht). naive_solver.
  - unfold DatasetCreateStatus.all_complete.
    fold (futures_complete self) (statuses_complete self).
    intros [Hf | Hs].
    + rewrite (done_statuses self Hf).
      pose proof (no_futures_complete self Hf). tauto.
    + pose proof (no_statuses_complete self Hs).
      destruct (DatasetCreateStatus.truthy_dict futures) eqn:Ht.
      * rewrite (done_futures self Ht). tauto.
      * rewrite (done_statuses self Ht).
        pose proof (no_futures_complete self Ht). tauto.
  - intros Hf Hs. unfold DatasetCreateStatus.done.
    subst futures statuses. by rewrite Hf, Hs.
Qed.

End StatusFacts.

(** A status object tracking one completed topic future and one pending
    connection status; the tracked objects are their own [done()] flag. *)
Definition topic_done_connection_pending : @DatasetCreateStatus.t bool bool :=
  DatasetCreateStatus.mk "events"
    (Some {[ "events" := true ]}) (Some [false]).

(** C5 as stated fails: with a completed future and a pending status,
    [done] answers true although a tracked item is incomplete. *)
Lemma done_with_pending_status :
  DatasetCreateStatus.done id id topic_done_connection_pending = Some true ∧
  ¬ DatasetCreateStatus.all_complete id id topic_done_connection_pending.
Proof.
  split; [by vm_compute|].
  intros [_ Hst].
  specialize (Hst [false] false eq_refl (list_elem_of_here _ _)).
  discriminate Hst.
Qed.

(** A status object that only tracks connection statuses, all complete. *)
Definition connections_ready : @DatasetCreateStatus.t bool bool :=
  DatasetCreateStatus.mk "events" None (Some [true; true]).

Lemma done_selected_collection_witness :
  DatasetCreateStatus.done id id connections_ready = Some true ↔
  DatasetCreateStatus.all_complete id id connections_ready.
Proof.
  apply (done_selected_collection id id connections_ready).
  left. reflexivity.
Defined.

(** ** The dataset contract: one error envelope *)

(** [sub] occurs in [s]. *)
Definition occurs_in (sub s : string) : Prop :=
  ∃ pre post, s = pre +:+ sub +:+ post.

Lemma failure_message_names op name : occurs_in name (failure_message op name).
Proof.
  destruct op; simpl; eexists _, _; reflexivity.
Qed.

(** What a caller of a public method observes, given the outcome [r] of
    the private method and the dataset name at that point. *)
Definition envelope (op : operation) (name : string)
    (r r' : result pyval) : Prop :=
  (∀ v, r = Ret v → r' = Ret v) ∧
  (∀ e, r = Raise e → isinstance e DatasetError = true → r' = Raise e) ∧
  (∀ e, r = Raise e → isinstance e DatasetError = false →
        isinstance e Exception = true →
        ∃ e', r' = Raise e' ∧
              exn_class e' = DatasetError ∧
              exn_msg e' = failure_message op name ∧
              occurs_in name (exn_msg e') ∧
              exn_cause e' = Some e) ∧
  (∀ e, r = Raise e → isinstance e Exception = false → r' = Raise e).

(** The guarded call every public method consists of. *)
Lemma try_except_envelope {D : Type} (name : D -> string) op
    (body : M D pyval) self r self' :
  body self = (r, self') →
  ∃ r', try_except body (except_clauses name op) self = (r', self') ∧
        envelope op (name self') r r'.
Proof.
  intros Hbody. unfold try_except, except_clauses. rewrite Hbody.
  destruct r as [v | e].
  - exists (Ret v). split; [done|]. repeat split; intros; simplify_eq; done.
  - destruct (isinstance e DatasetError) eqn:Hd.
    + exists (Raise e). split; [done|].
      pose proof (isinstance_DatasetError_Exception e Hd).
      repeat split; intros; simplify_eq; try done; congruence.
    + destruct (isinstance e Exception) eqn:He.
      * eexists. split; [reflexivity|].
        repeat split; intros; simplify_eq; try congruence.
        eexists. repeat split; try reflexivity.
        apply failure_message_names.
      * exists (Raise e). split; [done|].
        repeat split; intros; simplify_eq; try done; congruence.
Qed.

Lemma sync_public_guarded {D : Type} `{AbstractDataset.Backend D} op a kw :
  AbstractDataset.public op a kw =
  try_except (AbstractDataset.private op a kw)
    (except_clauses AbstractDataset.name op).
Proof. destruct op; reflexivity. Qed.

Lemma async_public_guarded {D : Type} `{AbstractAsyncDataset.Backend D}
    op a kw :
  AbstractAsyncDataset.await (AbstractAsyncDataset.public op a kw) =
  try_except (AbstractAsyncDataset.await (AbstractAsyncDataset.private op a kw))
    (except_clauses AbstractAsyncDataset.name op).
Proof. destruct op; reflexivity. Qed.

(** C1, as the code has it. For each of read, write, create, delete,
    exists and initialize, on a synchronous and on an asynchronous
    dataset: when the private method returns, the public method returns
    the same value; when it raises a [DatasetError] (or an instance of a
    subclass), that very exception propagates; when it raises any other
    instance of [Exception], the public method raises a new
    [DatasetError] whose message is the operation's failure message built
    from the dataset's name and whose cause is the original exception;
    and an exception outside [Exception] ([KeyboardInterrupt],
    [SystemExit], [asyncio.CancelledError]) propagates as it is. The
    object is left as the private method left it. *)
Theorem public_method_envelope
    {D : Type} `{AbstractDataset.Backend D}
    {D' : Type} `{AbstractAsyncDataset.Backend D'}
    (op : operation) (a : args) (kw : kwargs)
    (self self1 : D) (r : result pyval)
    (aself aself1 : D') (ar : result pyval) :
  AbstractDataset.private op a kw self = (r, self1) →
  AbstractAsyncDataset.await (AbstractAsyncDataset.private op a kw) aself
    = (ar, aself1) →
  (∃ r', AbstractDataset.public op a kw self = (r', self1) ∧
         envelope op (AbstractDataset.name self1) r r') ∧
  (∃ ar', AbstractAsyncDataset.await (AbstractAsyncDataset.public op a kw)
            aself = (ar', aself1) ∧
          envelope op (AbstractAsyncDataset.name aself1) ar ar').
Proof.
  intros Hs Ha. split.
  - rewrite sync_public_guarded. by apply try_except_envelope.
  - rewrite async_public_guarded. by apply try_except_envelope.
Qed.

(** *** A backend to run the contract on *)

(** An in-memory queue named [qname]. Reading an empty queue is a lookup
    failure; a write without a value is refused by the backend itself;
    deleting is interrupted from the keyboard. *)
Record queue : Type := Queue { qname : string; items : list pyval }.

Definition queue_read (_ : kwargs) : M queue pyval := fun q =>
  match items q with
  | [] => (Raise (mk_exn KeyError "pop from empty queue" None), q)
  | v :: rest => (Ret v, Queue (qname q) rest)
  end.

Definition queue_write (a : args) (_ : kwargs) : M queue pyval := fun q =>
  match a with
  | [] => (Raise (mk_exn DatasetError "nothing to write" None), q)
  | v :: _ => (Ret PyNone, Queue (qname q) (items q ++ [v]))
  end.

Definition queue_delete : M queue pyval :=
  raise (mk_exn KeyboardInterrupt "" None).

#[local] Instance queue_backend : AbstractDataset.Backend queue := {|
  AbstractDataset.name := qname;
  AbstractDataset._read := queue_read;
  AbstractDataset._write := queue_write;
  AbstractDataset._create := fun _ => ret PyNone;
  AbstractDataset._delete := queue_delete;
  AbstractDataset._initialize := fun _ => ret PyNone;
  AbstractDataset._describe := fun _ q => (Ret (PyStr (qname q)), q);
  AbstractDataset._exists := fun _ => ret (PyBool true)
|}.

#[local] Instance queue_async_backend : AbstractAsyncDataset.Backend queue := {|
  AbstractAsyncDataset.name := qname;
  AbstractAsyncDataset._read := fun kw =>
    AbstractAsyncDataset.Coroutine (queue_read kw);
  AbstractAsyncDataset._write := fun a kw =>
    AbstractAsyncDataset.Coroutine (queue_write a kw);
  AbstractAsyncDataset._create := fun _ =>
    AbstractAsyncDataset.Coroutine (ret PyNone);
  AbstractAsyncDataset._delete :=
    AbstractAsyncDataset.Coroutine (raise (mk_exn CancelledError "" None));
  AbstractAsyncDataset._initialize := fun _ =>
    AbstractAsyncDataset.Coroutine (ret PyNone);
  AbstractAsyncDataset._describe := fun _ =>
    AbstractAsyncDataset.Coroutine (fun q => (Ret (PyStr (qname q)), q));
  AbstractAsyncDataset._exists := fun _ =>
    AbstractAsyncDataset.Coroutine (ret (PyBool true))
|}.

Definition empty_queue : queue := Queue "events" [].

Lemma public_method_envelope_witness :
  (∃ r', AbstractDataset.public OpRead [] [] empty_queue
           = (r', empty_queue) ∧
         envelope OpRead "events"
           (Raise (mk_exn KeyError "pop from empty queue" None)) r') ∧
  (∃ ar', AbstractAsyncDataset.await
            (AbstractAsyncDataset.public OpRead [] []) empty_queue
            = (ar', empty_queue) ∧
          envelope OpRead "events"
            (Raise (mk_exn KeyError "pop from empty queue" None)) ar').
Proof.
  exact (public_method_envelope OpRead [] [] empty_queue empty_queue
           (Raise (mk_exn KeyError "pop from empty queue" None))
           empty_queue empty_queue
           (Raise (mk_exn KeyError "pop from empty queue" None))
           eq_refl eq_refl).
Defined.

(** C1 as stated fails: [_delete] raises [KeyboardInterrupt], which is
    not a [DatasetError]; the public [delete] lets it through, and what
    the caller catches is not a [DatasetError]. The same holds for a
    cancelled asynchronous [delete]. *)
Lemma interrupt_is_not_wrapped :
  let e := mk_exn KeyboardInterrupt "" None in
  let c := mk_exn CancelledError "" None in
  AbstractDataset.private OpDelete [] [] empty_queue = (Raise e, empty_queue) ∧
  isinstance e DatasetError = false ∧
  AbstractDataset.public OpDelete [] [] empty_queue = (Raise e, empty_queue) ∧
  AbstractAsyncDataset.await (AbstractAsyncDataset.private OpDelete [] [])
    empty_queue = (Raise c, empty_queue) ∧
  isinstance c DatasetError = false ∧
  AbstractAsyncDataset.await (AbstractAsyncDataset.public OpDelete [] [])
    empty_queue = (Raise c, empty_queue).
Proof. repeat split. Qed.

(** ** PoisonPill and activate_poison_pill *)

Lemma pill_call_keeps_active (c : PoisonPill.call) (p : PoisonPill.t) :
  PoisonPill.state p = true →
  PoisonPill.state (snd (PoisonPill.perform c p)) = true.
Proof. by destruct c. Qed.

Lemma pill_stays_active (cs : list PoisonPill.call) (p : PoisonPill.t) :
  PoisonPill.state p = true →
  PoisonPill.state (PoisonPill.after cs p) = true.
Proof.
  unfold PoisonPill.after. revert p.
  induction cs as [|c cs IH]; intros p Hp; simpl; [done|].
  apply IH. by apply pill_call_keeps_active.
Qed.

Section NodeFacts.
Context {D : Type} {backend : AbstractDataset.Backend D} {U : Type}.
Variable LOGGING_DATASET : string.
Variable new_FakeDatasetInput :
  string -> string -> list pyval -> FakeDatasetInput.t.
Variable format_exc : exn -> string.

Abbreviation world := (@AbstractNode.world D U).
Abbreviation node := (@AbstractNode.node D U).
Abbreviation self := (@AbstractNode.self D U).
Abbreviation log := (@AbstractNode.log D _ U LOGGING_DATASET).
Abbreviation setup_test :=
  (@AbstractNode.setup_test D U LOGGING_DATASET new_FakeDatasetInput).
Abbreviation activate_poison_pill := (@AbstractNode.activate_poison_pill D U).

(** C9, as the code has it. On a node that holds a handle to a live
    pill actor, [activate_poison_pill] returns and leaves the pill
    active, and a second call changes nothing any more; whatever calls
    are made on a pill, an active pill stays active; on a node built
    without a handle, the call returns and changes nothing; and on a node
    whose handle leads to no live actor, the call fails and changes
    nothing. *)
Theorem activate_poison_pill_one_way :
  (∀ (w : world) h p,
     AbstractNode.poison_pill (self w) = Some h →
     AbstractNode.actors w !! h = Some p →
     ∃ w1, activate_poison_pill w = (Ret PyNone, w1) ∧
           AbstractNode.actors w1 !! h = Some (PoisonPill.mk true) ∧
           self w1 = self w ∧
           activate_poison_pill w1 = (Ret PyNone, w1)) ∧
  (∀ cs p, PoisonPill.state p = true →
           PoisonPill.state (PoisonPill.after cs p) = true) ∧
  (∀ (w : world),
     AbstractNode.poison_pill (self w) = None →
     activate_poison_pill w = (Ret PyNone, w)) ∧
  (∀ (w : world) h,
     AbstractNode.poison_pill (self w) = Some h →
     AbstractNode.actors w !! h = None →
     ∃ e, activate_poison_pill w = (Raise e, w)).
Proof.
  split; [|split; [|split]].
  - intros w h p Hh Hp.
    unfold AbstractNode.activate_poison_pill. rewrite Hh.
    unfold bind, AbstractNode.remote. rewrite Hp. simpl.
    eexists. split; [reflexivity|]. simpl.
    split; [apply lookup_insert_eq|]. split; [reflexivity|].
    rewrite Hh, lookup_insert_eq. simpl.
    unfold AbstractNode.set_actors. simpl.
    by rewrite insert_insert_eq.
  - apply pill_stays_active.
  - intros w Hnone. unfold AbstractNode.activate_poison_pill.
    by rewrite Hnone.
  - intros w h Hh Hgone. unfold AbstractNode.activate_poison_pill.
    rewrite Hh. unfold bind, AbstractNode.remote. rewrite Hgone. eauto.
Qed.

(** ** log and setup_test *)

Lemma list_to_map_fmap_key {B : Type} (g : string -> B) (l : list string)
    (k : string) :
  k ∈ l →
  (list_to_map ((fun x => (x, g x)) <$> l) : gmap string B) !! k
    = Some (g k).
Proof.
  induction l as [|x l IH]; intros Hin; [by apply elem_of_nil in Hin|].
  simpl. destruct (decide (x = k)) as [->|Hne].
  - apply lookup_insert_eq.
  - rewrite lookup_insert_ne by done. apply IH.
    apply elem_of_cons in Hin as [?|?]; [congruence | done].
Qed.



End NodeFacts.

(** ** The run loop of execute *)

Section ExecuteFacts.
Context {D : Type} {backend : AbstractDataset.Backend D} {U : Type}.
Variable LOGGING_DATASET : string.
Variable format_exc : exn -> string.
Context {subclass : @AbstractNode.Subclass D U}.

Abbreviation xworld := (@AbstractNode.world D U).
Abbreviation xlog := (@AbstractNode.log D _ U LOGGING_DATASET).
Abbreviation execute_loop :=
  (@AbstractNode.execute_loop D _ U LOGGING_DATASET format_exc _).
Abbreviation execute :=
  (@AbstractNode.execute D _ U LOGGING_DATASET format_exc _).
Abbreviation log_and_reraise :=
  (@AbstractNode.log_and_reraise D _ U LOGGING_DATASET format_exc).

(** A step that returns is not touched by the [except] clause. *)
Lemma guarded_step_returns (body : M xworld pyval) w r w' :
  body w = (Ret r, w') →
  try_except body log_and_reraise w = (Ret r, w').
Proof. intros Hb. unfold try_except. by rewrite Hb. Qed.

Lemma guarded_step_returned (body : M xworld pyval) w r w' :
  try_except body log_and_reraise w = (Ret r, w') →
  body w = (Ret r, w').
Proof.
  unfold try_except. destruct (body w) as [[v|e] w1]; [done|].
  unfold AbstractNode.log_and_reraise.
  destruct (isinstance e Exception); [|done].
  unfold bind. destruct (AbstractNode._log_traceback _ _ _ w1) as [[?|?] ?];
    done.
Qed.

Lemma is_False_spec (r : pyval) : is_False r = true ↔ r = PyBool false.
Proof. destruct r as [|[]| | | | |]; simpl; naive_solver. Qed.

(** A run of the loop that comes to its end: [n] calls of the step, the
    first [n - 1] of which return something other than [False] and the
    last of which returns [False]. *)
Inductive loop_run (prms : pyval) : nat -> xworld -> xworld -> Prop :=
  | loop_run_last w w' :
      AbstractNode._execute prms w = (Ret (PyBool false), w') →
      loop_run prms 1 w w'
  | loop_run_next n w r w1 w' :
      AbstractNode._execute prms w = (Ret r, w1) →
      r ≠ PyBool false →
      loop_run prms n w1 w' →
      loop_run prms (S n) w w'.

Lemma loop_run_positive prms n w w' : loop_run prms n w w' → (1 ≤ n)%nat.
Proof. destruct 1; lia. Qed.

(** One iteration whose step returns. *)
Lemma execute_loop_step (fuel : nat) (prms : pyval) (w w1 : xworld) r :
  AbstractNode._execute prms w = (Ret r, w1) →
  execute_loop (S fuel) prms w =
  if is_False r then Some (Ret PyNone, w1) else execute_loop fuel prms w1.
Proof.
  intros Hstep. simpl. by rewrite (guarded_step_returns _ _ _ _ Hstep).
Qed.

(** The loop as a whole: it returns after at most [fuel] iterations
    exactly when there is a run of at most that length. *)
Lemma execute_loop_run (fuel : nat) (prms : pyval) (w w' : xworld) v :
  execute_loop fuel prms w = Some (Ret v, w') ↔
  v = PyNone ∧ ∃ n, (n ≤ fuel)%nat ∧ loop_run prms n w w'.
Proof.
  revert w. induction fuel as [|fuel IH]; intros w.
  - simpl. split; [done|]. intros (_ & n & Hn & Hrun).
    apply loop_run_positive in Hrun. lia.
  - split.
    + simpl.
      destruct (try_except _ _ w) as [[r|e] w1] eqn:Hg; [|done].
      apply guarded_step_returned in Hg.
      destruct (is_False r) eqn:Hf.
      * intros [= <- <-]. split; [done|]. exists 1. split; [lia|].
        apply is_False_spec in Hf as ->. by constructor.
      * intros Hrest. apply IH in Hrest as (-> & n & Hn & Hrun).
        split; [done|]. exists (S n). split; [lia|].
        eapply loop_run_next; [done| |done].
        intros ->. done.
    + intros (-> & n & Hn & Hrun). inversion Hrun; subst.
      * by rewrite (execute_loop_step fuel prms w w' (PyBool false)).
      * rewrite (execute_loop_step fuel prms w w1 r) by done.
        destruct (is_False r) eqn:Hf.
        { by apply is_False_spec in Hf. }
        apply IH. split; [done|]. exists n0. split; [lia|done].
Qed.

(** C4, as the code has it. Whatever the step returns, the loop ends
    after it exactly when the value is [False] itself; after any other
    value, also one that counts as false in a condition ([None], [0], an
    empty collection), the loop goes on with the next iteration. So the
    loop returns exactly when some call of the step returns [False], all
    the calls before it having returned something else. *)
Theorem execute_loop_ends_on_False (fuel : nat) (prms : pyval) :
  (∀ (w w1 : xworld) r,
     AbstractNode._execute prms w = (Ret r, w1) →
     (r = PyBool false →
      execute_loop (S fuel) prms w = Some (Ret PyNone, w1)) ∧
     (r ≠ PyBool false →
      execute_loop (S fuel) prms w = execute_loop fuel prms w1)) ∧
  (∀ (w w' : xworld) v,
     execute_loop fuel prms w = Some (Ret v, w') ↔
     v = PyNone ∧ ∃ n, (n ≤ fuel)%nat ∧ loop_run prms n w w').
Proof.
  split.
  - intros w w1 r Hstep. rewrite (execute_loop_step fuel prms w w1 r Hstep).
    split.
    + intros ->. reflexivity.
    + intros Hne. destruct (is_False r) eqn:Hf; [|done].
      by apply is_False_spec in Hf.
  - intros w w' v. apply execute_loop_run.
Qed.

(** C3, as the code has it. [execute] returns (within [fuel] iterations)
    exactly when, in this order: the pre-loop hook returns; the step loop
    runs to the iteration whose step returns [False]; the line
    "Execution loop complete for node: <class name>" is logged at level
    info; and then, after that line, the post-loop hook returns. Each
    stage starts from the state the one before left. *)
Theorem execute_lifecycle (fuel : nat) (prms : pyval) (w w' : xworld) v :
  let p := AbstractNode.or_empty_dict prms in
  execute fuel prms w = Some (Ret v, w') ↔
  v = PyNone ∧
  ∃ r1 w1 n w2 r2 w3 r3,
    AbstractNode._pre_loop_hook p w = (Ret r1, w1) ∧
    (n ≤ fuel)%nat ∧ loop_run p n w1 w2 ∧
    xlog (AbstractNode.loop_complete_message (AbstractNode.self w2)) "info" w2
      = (Ret r2, w3) ∧
    AbstractNode._post_loop_hook p w3 = (Ret r3, w').
Proof.
  intros p. unfold AbstractNode.execute. fold p. split.
  - destruct (try_except _ _ w) as [[r1|e] w1] eqn:Hpre; [|done].
    apply guarded_step_returned in Hpre.
    destruct (execute_loop fuel p w1) as [[[v2|e] w2]|] eqn:Hloop; [|done..].
    apply execute_loop_run in Hloop as (_ & n & Hn & Hrun).
    unfold bind.
    destruct (xlog _ _ w2) as [[r2|e] w3] eqn:Hlog; [|done].
    destruct (AbstractNode._post_loop_hook p w3) as [[r3|e] w4] eqn:Hpost;
      [|done].
    unfold ret. intros [= <- <-]. split; [done|].
    by exists r1, w1, n, w2, r2, w3, r3.
  - intros (-> & r1 & w1 & n & w2 & r2 & w3 & r3 &
            Hpre & Hn & Hrun & Hlog & Hpost).
    rewrite (guarded_step_returns _ _ _ _ Hpre).
    assert (Hloop : execute_loop fuel p w1 = Some (Ret PyNone, w2)).
    { apply execute_loop_run. eauto. }
    rewrite Hloop. unfold bind. by rewrite Hlog, Hpost.
Qed.

End ExecuteFacts.

(** ** run_test *)

Section RunTestFacts.
Context {D : Type} {backend : AbstractDataset.Backend D} {U : Type}.
Context {subclass : @AbstractNode.Subclass D U}.

Abbreviation tworld := (@AbstractNode.world D U).
Abbreviation run_test_loop := (@AbstractNode.run_test_loop D U _).
Abbreviation run_test := (@AbstractNode.run_test D U _).
Abbreviation inputs_exhausted := (@AbstractNode.inputs_exhausted D).

(** The reading the loop would take after the step, and the state once
    it has taken it: the clock is read only when a [runtime] is given. *)
Definition budget_spent (runtime : option Z) (start_time : Z) (w : tworld)
    : bool :=
  match runtime with
  | None => true
  | Some rt =>
      negb (AbstractNode.clock w (AbstractNode.clock_reads w) - start_time
              <? rt)%Z
  end.

Definition after_clock (runtime : option Z) (w : tworld) : tworld :=
  match runtime with
  | None => w
  | Some _ => snd (AbstractNode.time_time w)
  end.

(** The inputs of a node are all doubles that report themselves empty,
    and there is at least one. *)
Definition doubles_exhausted (ins : list (string * AbstractNode.input_handle))
    : Prop :=
  ins ≠ [] ∧
  ∀ k h, (k, h) ∈ ins →
         ∃ f, h = @AbstractNode.InFake D f ∧ FakeDatasetInput.empty f = true.

Lemma all_empty_doubles (ins : list (string * AbstractNode.input_handle)) :
  AbstractNode.all_empty ins = Ret true ↔
  ∀ k h, (k, h) ∈ ins →
         ∃ f, h = @AbstractNode.InFake D f ∧ FakeDatasetInput.empty f = true.
Proof.
  induction ins as [|[k h] ins IH]; simpl.
  - split; [|done]. intros _ k h Hin. by apply elem_of_nil in Hin.
  - destruct h as [f|d]; simpl.
    + destruct (FakeDatasetInput.empty f) eqn:He.
      * rewrite IH. split.
        -- intros Hall k' h' Hin. apply elem_of_cons in Hin as [Heq|Hin].
           ++ injection Heq as -> ->. eauto.
           ++ eauto.
        -- intros Hall k' h' Hin. apply (Hall k'). by apply elem_of_cons; right.
      * split; [done|]. intros Hall.
        destruct (Hall k (AbstractNode.InFake f)) as (f' & [= <-] & He');
          [apply elem_of_cons; by left|]. congruence.
    + split; [done|]. intros Hall.
      destruct (Hall k (AbstractNode.InDataset d)) as (f' & Hf & _);
        [apply elem_of_cons; by left|]. done.
Qed.

Lemma inputs_exhausted_doubles
    (ins : list (string * AbstractNode.input_handle)) :
  inputs_exhausted ins = Ret true ↔ doubles_exhausted ins.
Proof.
  unfold doubles_exhausted. destruct ins as [|x ins].
  - simpl. split; [done|]. by intros [? _].
  - unfold AbstractNode.inputs_exhausted. rewrite all_empty_doubles.
    split; [by intros ?; split|by intros [_ ?]].
Qed.

(** A run of the test loop that comes to its end after [n] calls of the
    step. The loop ends after an iteration when the time is up (no
    [runtime] was given, or at least [runtime] has passed since the
    start) and the inputs are exhausted, or else when the step returned
    [False]; it goes on when the step returned something else and the
    time is not up or the inputs are not exhausted. *)
Inductive test_run (runtime : option Z) (start_time : Z)
    : nat -> tworld -> tworld -> Prop :=
  | test_run_exhausted w r w1 :
      AbstractNode._execute (AbstractNode.params (AbstractNode.self w)) w
        = (Ret r, w1) →
      budget_spent runtime start_time w1 = true →
      inputs_exhausted
        (AbstractNode.inputs (AbstractNode.self (after_clock runtime w1)))
        = Ret true →
      test_run runtime start_time 1 w (after_clock runtime w1)
  | test_run_False w w1 :
      AbstractNode._execute (AbstractNode.params (AbstractNode.self w)) w
        = (Ret (PyBool false), w1) →
      budget_spent runtime start_time w1 = false ∨
      inputs_exhausted
        (AbstractNode.inputs (AbstractNode.self (after_clock runtime w1)))
        = Ret false →
      test_run runtime start_time 1 w (after_clock runtime w1)
  | test_run_next n w r w1 w' :
      AbstractNode._execute (AbstractNode.params (AbstractNode.self w)) w
        = (Ret r, w1) →
      r ≠ PyBool false →
      budget_spent runtime start_time w1 = false ∨
      inputs_exhausted
        (AbstractNode.inputs (AbstractNode.self (after_clock runtime w1)))
        = Ret false →
      test_run runtime start_time n (after_clock runtime w1) w' →
      test_run runtime start_time (S n) w w'.

Lemma test_run_positive runtime start_time n w w' :
  test_run runtime start_time n w w' → (1 ≤ n)%nat.
Proof. destruct 1; lia. Qed.

(** One iteration whose step returns. *)
Lemma run_test_loop_step fuel runtime start_time (w w1 : tworld) r :
  AbstractNode._execute (AbstractNode.params (AbstractNode.self w)) w
    = (Ret r, w1) →
  run_test_loop (S fuel) runtime start_time w =
  let w2 := after_clock runtime w1 in
  if budget_spent runtime start_time w1 then
    match inputs_exhausted (AbstractNode.inputs (AbstractNode.self w2)) with
    | Raise e => Some (Raise e, w2)
    | Ret true => Some (Ret PyNone, w2)
    | Ret false =>
        if is_False r then Some (Ret PyNone, w2)
        else run_test_loop fuel runtime start_time w2
    end
  else
    if is_False r then Some (Ret PyNone, w2)
    else run_test_loop fuel runtime start_time w2.
Proof.
  intros Hstep. simpl. rewrite Hstep.
  destruct runtime as [rt|]; simpl; [|done].
  by destruct (_ - _ <? rt)%Z.
Qed.

Lemma run_test_loop_run fuel runtime start_time (w w' : tworld) v :
  run_test_loop fuel runtime start_time w = Some (Ret v, w') ↔
  v = PyNone ∧ ∃ n, (n ≤ fuel)%nat ∧ test_run runtime start_time n w w'.
Proof.
  revert w. induction fuel as [|fuel IH]; intros w.
  - simpl. split; [done|]. intros (_ & n & Hn & Hrun).
    apply test_run_positive in Hrun. lia.
  - split.
    + destruct (AbstractNode._execute
                  (AbstractNode.params (AbstractNode.self w)) w)
        as [[r|e] w1] eqn:Hstep; [|simpl; by rewrite Hstep].
      rewrite (run_test_loop_step fuel runtime start_time w w1 r Hstep).
      cbv zeta.
      destruct (budget_spent runtime start_time w1) eqn:Hb.
      * destruct (inputs_exhausted _) as [[|]|e] eqn:Hex; [| |done].
        -- intros [= <- <-]. split; [done|]. exists 1%nat. split; [lia|].
           by eapply test_run_exhausted.
        -- destruct (is_False r) eqn:Hf.
           ++ intros [= <- <-]. split; [done|]. exists 1%nat.
              split; [lia|]. apply is_False_spec in Hf as ->.
              apply test_run_False; [done|by right].
           ++ intros Hrest. apply IH in Hrest as (-> & n & Hn & Hrun).
              split; [done|]. exists (S n). split; [lia|].
              eapply test_run_next; [done| |by right|done].
              intros ->. done.
      * destruct (is_False r) eqn:Hf.
        -- intros [= <- <-]. split; [done|]. exists 1%nat.
           split; [lia|]. apply is_False_spec in Hf as ->.
           apply test_run_False; [done|by left].
        -- intros Hrest. apply IH in Hrest as (-> & n & Hn & Hrun).
           split; [done|]. exists (S n). split; [lia|].
           eapply test_run_next; [done| |by left|done].
           intros ->. done.
    + intros (-> & n & Hn & Hrun).
      inversion Hrun as [w0 r w1 Hstep Hb Hex | w0 w1 Hstep Hor
                         | n0 w0 r w1 w0' Hstep Hne Hor Hrest]; subst;
        rewrite (run_test_loop_step fuel runtime start_time w w1 _ Hstep);
        cbv zeta.
      * by rewrite Hb, Hex.
      * destruct Hor as [-> | ->]; [done|].
        by destruct (budget_spent _ _ _).
      * assert (Hf : is_False r = false).
        { destruct (is_False r) eqn:Hf; [|done].
          by apply is_False_spec in Hf. }
        assert (Hgo : run_test_loop fuel runtime start_time
                        (after_clock runtime w1) = Some (Ret PyNone, w')).
        { apply IH. split; [done|]. exists n0. split; [lia|done]. }
        destruct Hor as [-> | ->]; rewrite Hf; [done|].
        by destruct (budget_spent _ _ _).
Qed.

(** What [run_test] hands back: for each output name, the [values] of
    that output. *)
Lemma collect_outputs_values
    (outs : gmap string (@AbstractNode.output_handle D))
    (out : gmap string (list pyval)) :
  AbstractNode.collect_outputs outs = Ret out →
  ∀ k, out !! k =
       match outs !! k with
       | Some (AbstractNode.OutFake f) => Some (FakeDatasetOutput.values f)
       | _ => None
       end.
Proof.
  unfold AbstractNode.collect_outputs.
  destruct (decide _) as [Hall|]; [|done].
  intros [= <-] k. rewrite lookup_omap.
  destruct (outs !! k) as [[f|d]|] eqn:Hk; simpl; try done.
Qed.

(** *** The values produced to an output *)

(** The outputs after one more [write], of the value [kv.2] on the
    output [kv.1]: what a write through [self.outputs] that returns
    leaves. *)
Definition after_write (outs : gmap string (@AbstractNode.output_handle D))
    (kv : string * pyval) : gmap string (@AbstractNode.output_handle D) :=
  match outs !! kv.1 with
  | Some h => <[kv.1 := snd (AbstractNode.handle_write kv.2 h)]> outs
  | None => outs
  end.

(** Of the writes [ws], the values written to the output [k], in the
    order of the writes. *)
Fixpoint produced_to (k : string) (ws : list (string * pyval)) : list pyval :=
  match ws with
  | [] => []
  | (k', v) :: rest =>
      if decide (k' = k) then v :: produced_to k rest
      else produced_to k rest
  end.

(** The writes of [n] iterations of the test loop that starts in [w],
    when a call of the step in the state [u] makes the writes
    [step_writes u]. *)
Fixpoint loop_writes (step_writes : tworld -> list (string * pyval))
    (runtime : option Z) (n : nat) (w : tworld) : list (string * pyval) :=
  match n with
  | 0 => []
  | S n' =>
      (step_writes w ++
       loop_writes step_writes runtime n'
         (after_clock runtime
            (snd (AbstractNode._execute
                    (AbstractNode.params (AbstractNode.self w)) w))))%list
  end.

Lemma outputs_write_after_write k v (u u1 : tworld) r :
  AbstractNode.outputs_write k v u = (Ret r, u1) →
  AbstractNode.outputs (AbstractNode.self u1)
  = after_write (AbstractNode.outputs (AbstractNode.self u)) (k, v).
Proof.
  unfold AbstractNode.outputs_write, after_write. cbn [fst snd].
  destruct (AbstractNode.outputs (AbstractNode.self u) !! k) as [h|]; [|done].
  destruct (AbstractNode.handle_write v h) as [r' h'].
  by intros [= _ <-].
Qed.

Lemma produced_to_app k ws1 ws2 :
  produced_to k (ws1 ++ ws2)%list
  = (produced_to k ws1 ++ produced_to k ws2)%list.
Proof.
  induction ws1 as [|[k' v] ws1 IH]; [done|].
  cbn [app produced_to]. destruct (decide (k' = k)); [|done].
  by rewrite IH.
Qed.

(** A double keeps what it held and gains, in order, the values written
    to it. *)
Lemma after_writes_double ws :
  ∀ (outs : gmap string (@AbstractNode.output_handle D)) k f,
    outs !! k = Some (AbstractNode.OutFake f) →
    foldl after_write outs ws !! k
    = Some (AbstractNode.OutFake
              (FakeDatasetOutput.mk
                 (FakeDatasetOutput.dataset_name f)
                 (FakeDatasetOutput.node_name f)
                 (FakeDatasetOutput.values f ++ produced_to k ws)%list)).
Proof.
  induction ws as [|[k' v] ws IH]; intros outs k f Hk.
  - cbn [foldl produced_to]. rewrite app_nil_r. by destruct f.
  - cbn [foldl produced_to]. destruct (decide (k' = k)) as [->|Hne].
    + unfold after_write at 2. cbn [fst snd]. rewrite Hk.
      change (AbstractNode.handle_write v (AbstractNode.OutFake f)).2
        with (@AbstractNode.OutFake D
                (FakeDatasetOutput.mk (FakeDatasetOutput.dataset_name f)
                   (FakeDatasetOutput.node_name f)
                   (FakeDatasetOutput.values f ++ [v])%list)).
      rewrite (IH _ k _ (lookup_insert_eq _ _ _)).
      cbn [FakeDatasetOutput.dataset_name FakeDatasetOutput.node_name
           FakeDatasetOutput.values].
      by rewrite <- app_assoc.
    + apply IH. unfold after_write. cbn [fst snd].
      destruct (outs !! k') as [h|]; [|done].
      by rewrite lookup_insert_ne.
Qed.

Lemma after_clock_outputs runtime (u : tworld) :
  AbstractNode.outputs (AbstractNode.self (after_clock runtime u))
  = AbstractNode.outputs (AbstractNode.self u).
Proof. by destruct runtime. Qed.

(** The writes of a run of the loop are those of its iterations, one
    after the other. *)
Lemma test_run_writes (step_writes : tworld -> list (string * pyval))
    runtime start_time n (w w' : tworld) :
  (∀ u r u1,
     AbstractNode._execute (AbstractNode.params (AbstractNode.self u)) u
       = (Ret r, u1) →
     AbstractNode.outputs (AbstractNode.self u1)
     = foldl after_write (AbstractNode.outputs (AbstractNode.self u))
         (step_writes u)) →
  test_run runtime start_time n w w' →
  AbstractNode.outputs (AbstractNode.self w')
  = foldl after_write (AbstractNode.outputs (AbstractNode.self w))
      (loop_writes step_writes runtime n w).
Proof.
  intros Hwrites.
  induction 1 as [w r w1 Hstep _ _ | w w1 Hstep _
                  | n w r w1 w' Hstep _ _ _ IH];
    cbn [loop_writes].
  - rewrite app_nil_r, after_clock_outputs. by apply (Hwrites w r).
  - rewrite app_nil_r, after_clock_outputs. by apply (Hwrites w (PyBool false)).
  - rewrite Hstep. cbn [snd].
    rewrite foldl_app, IH, after_clock_outputs.
    by rewrite (Hwrites w r w1 Hstep).
Qed.

(** C2, as the code has it. A node in test mode: [run_test] returns
    (within [fuel] iterations) exactly when the pre-loop hook returns,
    the loop runs to an iteration after which it ends, the post-loop hook
    returns and every output is a double. The loop ends after an
    iteration, and not before the first, when the step returned [False],
    or when the time is up (no [runtime] given, or at least [runtime]
    passed since the start) and there are inputs and all of them report
    empty; with a [runtime] given, exhausted inputs do not end the loop
    before that time has passed, and the passing of the time does not end
    it while an input is not exhausted. The result maps each output name
    to the values held by that output, which are the full ordered
    sequence of the values produced to it: when the hooks and the step
    change the outputs by writing to them, an output double holds at the
    end what it held when [run_test] was called (nothing, right after
    [setup_test]) followed by the values written to it by the pre-loop
    hook, by the step in each iteration in turn, and by the post-loop
    hook, in that order, none lost and none added. *)
Theorem run_test_outcome (fuel : nat) (runtime : option Z)
    (w w' : tworld) (out : gmap string (list pyval)) :
  AbstractNode.test (AbstractNode.self w) = true →
  let start_time := AbstractNode.clock w (AbstractNode.clock_reads w) in
  let w0 := snd (AbstractNode.time_time w) in
  (run_test fuel runtime w = Some (Ret out, w') ↔
   ∃ r1 w1 n w2 r3,
     AbstractNode._pre_loop_hook
       (AbstractNode.params (AbstractNode.self w0)) w0 = (Ret r1, w1) ∧
     (1 ≤ n ≤ fuel)%nat ∧ test_run runtime start_time n w1 w2 ∧
     AbstractNode._post_loop_hook
       (AbstractNode.params (AbstractNode.self w2)) w2 = (Ret r3, w') ∧
     AbstractNode.collect_outputs
       (AbstractNode.outputs (AbstractNode.self w')) = Ret out) ∧
  (run_test fuel runtime w = Some (Ret out, w') →
   ∀ k, out !! k =
        match AbstractNode.outputs (AbstractNode.self w') !! k with
        | Some (AbstractNode.OutFake f) => Some (FakeDatasetOutput.values f)
        | _ => None
        end) ∧
  (∀ ins, inputs_exhausted ins = Ret true ↔ doubles_exhausted ins) ∧
  (∀ k v (u u1 : tworld) r,
     AbstractNode.outputs_write k v u = (Ret r, u1) →
     AbstractNode.outputs (AbstractNode.self u1)
     = after_write (AbstractNode.outputs (AbstractNode.self u)) (k, v)) ∧
  (∀ pre_writes step_writes post_writes : tworld -> list (string * pyval),
     (∀ u r u1,
        AbstractNode._pre_loop_hook
          (AbstractNode.params (AbstractNode.self u)) u = (Ret r, u1) →
        AbstractNode.outputs (AbstractNode.self u1)
        = foldl after_write (AbstractNode.outputs (AbstractNode.self u))
            (pre_writes u)) →
     (∀ u r u1,
        AbstractNode._execute
          (AbstractNode.params (AbstractNode.self u)) u = (Ret r, u1) →
        AbstractNode.outputs (AbstractNode.self u1)
        = foldl after_write (AbstractNode.outputs (AbstractNode.self u))
            (step_writes u)) →
     (∀ u r u1,
        AbstractNode._post_loop_hook
          (AbstractNode.params (AbstractNode.self u)) u = (Ret r, u1) →
        AbstractNode.outputs (AbstractNode.self u1)
        = foldl after_write (AbstractNode.outputs (AbstractNode.self u))
            (post_writes u)) →
     run_test fuel runtime w = Some (Ret out, w') →
     let w1 := snd (AbstractNode._pre_loop_hook
                      (AbstractNode.params (AbstractNode.self w0)) w0) in
     ∃ n w2,
       (1 ≤ n ≤ fuel)%nat ∧ test_run runtime start_time n w1 w2 ∧
       ∀ k f,
         AbstractNode.outputs (AbstractNode.self w) !! k
           = Some (AbstractNode.OutFake f) →
         out !! k
         = Some (FakeDatasetOutput.values f ++
                 produced_to k
                   (pre_writes w0 ++
                    loop_writes step_writes runtime n w1 ++
                    post_writes w2))%list).
Proof.
  intros Htest start_time w0.
  assert (Hiff : run_test fuel runtime w = Some (Ret out, w') ↔
     ∃ r1 w1 n w2 r3,
       AbstractNode._pre_loop_hook
         (AbstractNode.params (AbstractNode.self w0)) w0 = (Ret r1, w1) ∧
       (1 ≤ n ≤ fuel)%nat ∧ test_run runtime start_time n w1 w2 ∧
       AbstractNode._post_loop_hook
         (AbstractNode.params (AbstractNode.self w2)) w2 = (Ret r3, w') ∧
       AbstractNode.collect_outputs
         (AbstractNode.outputs (AbstractNode.self w')) = Ret out).
  { unfold AbstractNode.run_test. rewrite Htest. cbn [negb].
    change (AbstractNode.time_time w) with (start_time, w0).
    cbv beta iota. split.
    - destruct (AbstractNode._pre_loop_hook _ w0) as [[r1|e] w1] eqn:Hpre;
        [|done].
      destruct (run_test_loop fuel runtime start_time w1)
        as [[[v|e] w2]|] eqn:Hloop; [|done..].
      apply run_test_loop_run in Hloop as (_ & n & Hn & Hrun).
      destruct (AbstractNode._post_loop_hook _ w2) as [[r3|e] w3] eqn:Hpost;
        [|done].
      intros [= Hout <-].
      pose proof (test_run_positive _ _ _ _ _ Hrun).
      exists r1, w1, n, w2, r3. repeat split; try done; lia.
    - intros (r1 & w1 & n & w2 & r3 & Hpre & Hn & Hrun & Hpost & Hout).
      rewrite Hpre.
      assert (Hloop : run_test_loop fuel runtime start_time w1
                      = Some (Ret PyNone, w2)).
      { apply run_test_loop_run. split; [done|]. exists n.
        split; [lia|done]. }
      rewrite Hloop, Hpost. by rewrite Hout. }
  split; [exact Hiff|]. split; [|split; [apply inputs_exhausted_doubles|]].
  { intros Hrun.
    apply Hiff in Hrun as (? & ? & ? & ? & ? & _ & _ & _ & _ & Hout).
    by apply collect_outputs_values. }
  split; [intros k v u u1 r; apply outputs_write_after_write|].
  intros pre_writes step_writes post_writes Hpre_w Hstep_w Hpost_w Hrun w1.
  apply Hiff in Hrun as (r1 & w1' & n & w2 & r3 & Hpre & Hn & Hloop & Hpost
                           & Hout).
  assert (Hw1 : w1 = w1') by (unfold w1; by rewrite Hpre). subst w1'.
  exists n, w2. split; [done|]. split; [done|].
  intros k f Hk.
  rewrite (collect_outputs_values _ _ Hout k).
  rewrite (Hpost_w _ _ _ Hpost).
  rewrite (test_run_writes step_writes _ _ _ _ _ Hstep_w Hloop).
  rewrite (Hpre_w _ _ _ Hpre).
  rewrite <- !foldl_app.
  assert (Hk0 : AbstractNode.outputs (AbstractNode.self w0) !! k
                = Some (AbstractNode.OutFake f)) by exact Hk.
  rewrite (after_writes_double _ _ k f Hk0). cbn [FakeDatasetOutput.values].
  reflexivity.
Qed.

End RunTestFacts.

(* ===================================================================== *)
(** * Nodes to run                                                         *)
(* ===================================================================== *)

Module Examples.

(** The nodes below use in-memory queues as datasets, keep a counter as
    their own attribute, log to the dataset "logging", and run against a
    clock that advances by ten at each reading. *)
Abbreviation eworld := (@AbstractNode.world queue nat).

Definition LOGGING : string := "logging".

Definition new_input (dataset_name node_name : string) (vals : list pyval)
    : FakeDatasetInput.t :=
  FakeDatasetInput.mk dataset_name node_name vals false.

Definition show_exc (e : exn) : string := "Traceback: " +:+ exn_msg e.

Definition tens (k : nat) : Z := 10 * Z.of_nat k.

Definition elog (message level : string) : M eworld pyval :=
  AbstractNode.log LOGGING message level.

(** The values held by an output double of a node. *)
Definition produced (name : string) (w : eworld) : list pyval :=
  match AbstractNode.outputs (AbstractNode.self w) !! name with
  | Some (AbstractNode.OutFake f) => FakeDatasetOutput.values f
  | _ => []
  end.

Definition final_world (o : option (result pyval * eworld)) : option eworld :=
  match o with
  | Some (Ret _, w) => Some w
  | _ => None
  end.

(** A node of class [cls] in test mode, set up by [setup_test] with the
    given inputs and outputs, one pill actor alive. *)
Definition test_node (cls : string) (pill : option AbstractNode.actor)
    (ins : option (list (string * list pyval))) (outs : option (list string))
    : eworld :=
  let w := AbstractNode.init cls 0%nat "pipeline" None pill true
             {[ 1%positive := PoisonPill.init ]} tens 0 in
  snd (AbstractNode.setup_test LOGGING new_input ins outs PyNone w).

(** *** Probe: every stage leaves a line in the log *)

Definition Probe : @AbstractNode.Subclass queue nat := {|
  AbstractNode._pre_loop_hook := fun _ => elog "pre" "info";
  AbstractNode._execute := fun _ => (elog "step" "info" ;;; ret (PyBool false));
  AbstractNode._post_loop_hook := fun _ => elog "post" "info"
|}.

Definition probe_world : eworld := test_node "Probe" None None None.

(** *** Countdown: a step that returns false-like values before False *)

Definition countdown_step (_ : pyval) : M eworld pyval := fun w =>
  let n := AbstractNode.attrs (AbstractNode.self w) in
  (Ret (match n with
        | 0 => PyNone
        | 1 => PyInt 0
        | 2 => PyList []
        | _ => PyBool false
        end),
   AbstractNode.set_self
     (AbstractNode.set_attrs (S n) (AbstractNode.self w)) w).

Definition Countdown : @AbstractNode.Subclass queue nat := {|
  AbstractNode._pre_loop_hook := AbstractNode.pass;
  AbstractNode._execute := countdown_step;
  AbstractNode._post_loop_hook := AbstractNode.pass
|}.

Definition countdown_world : eworld := test_node "Countdown" None None None.

(** *** Relay: pass the next input value on to the output *)

(** Take the next value of an input double: the first of its values,
    marking the double empty when that was the last one; [None] when
    there is none. *)
Definition take_next (f : FakeDatasetInput.t) : pyval * FakeDatasetInput.t :=
  match FakeDatasetInput.values f with
  | [] => (PyNone, f)
  | v :: rest =>
      (v, FakeDatasetInput.mk (FakeDatasetInput.dataset_name f)
            (FakeDatasetInput.node_name f) rest
            (if bool_decide (rest = []) then true
             else FakeDatasetInput.empty f))
  end.

Definition relay_step (_ : pyval) : M eworld pyval := fun w =>
  match AbstractNode.inputs (AbstractNode.self w) with
  | [(name, AbstractNode.InFake f)] =>
      let '(v, f') := take_next f in
      let w1 := AbstractNode.set_self
                  (AbstractNode.set_inputs [(name, AbstractNode.InFake f')]
                     (AbstractNode.self w)) w in
      (AbstractNode.outputs_write "output" v ;;; ret PyNone) w1
  | _ => (Raise (mk_exn KeyError "'input'" None), w)
  end.

Definition Relay : @AbstractNode.Subclass queue nat := {|
  AbstractNode._pre_loop_hook := AbstractNode.pass;
  AbstractNode._execute := relay_step;
  AbstractNode._post_loop_hook := AbstractNode.pass
|}.

Definition relay_world (vals : list pyval) : eworld :=
  test_node "Relay" None (Some [("input", vals)]) (Some ["output"]).

Definition run_result
    (o : option (result (gmap string (list pyval)) * eworld))
    (name : string) : option (list pyval) :=
  match o with
  | Some (Ret out, _) => out !! name
  | _ => None
  end.

End Examples.

(** C3 as stated fails: on a node whose hooks and step each log a line,
    [execute] returns and the logging output holds, in this order, the
    line of the pre-loop hook, that of the step, the completion line and
    only then the line of the post-loop hook. The completion line is
    emitted before the post-loop hook runs, not after it. *)
Lemma completion_line_precedes_post_hook :
  let rec := AbstractNode.log_record in
  Examples.produced "logging" <$>
    Examples.final_world
      (AbstractNode.execute (subclass := Examples.Probe) Examples.LOGGING
         Examples.show_exc 5 PyNone Examples.probe_world)
  = Some [rec "pre" "info"; rec "step" "info";
          rec "Execution loop complete for node: Probe" "info";
          rec "post" "info"].
Proof. vm_compute. reflexivity. Qed.

Lemma execute_lifecycle_witness :
  ∃ w', AbstractNode.execute (subclass := Examples.Probe) Examples.LOGGING
          Examples.show_exc 5 PyNone Examples.probe_world
        = Some (Ret PyNone, w').
Proof.
  eexists.
  apply (execute_lifecycle (subclass := Examples.Probe) Examples.LOGGING
           Examples.show_exc 5 PyNone Examples.probe_world).
  split; [reflexivity|].
  eexists _, _, 1%nat, _, _, _, _.
  split; [vm_compute; reflexivity|].
  split; [lia|].
  split; [apply loop_run_last; vm_compute; reflexivity|].
  split; vm_compute; reflexivity.
Defined.

(** C4 as stated fails: the step of [Countdown] returns [None] the first
    time, a false-like value, and the loop does not end there. It calls
    the step again, which returns [0], then [[]], and ends only at the
    fourth call, which returns [False]. *)
Lemma false_like_value_continues :
  let w0 := Examples.countdown_world in
  fst (Examples.countdown_step (PyDict []) w0) = Ret PyNone ∧
  truthy PyNone = false ∧
  (AbstractNode.attrs ∘ AbstractNode.self) <$>
    Examples.final_world
      (AbstractNode.execute_loop (subclass := Examples.Countdown)
         Examples.LOGGING Examples.show_exc 10 (PyDict []) w0)
  = Some 4%nat.
Proof. repeat split. Qed.

Lemma execute_loop_ends_on_False_witness :
  let w0 := Examples.countdown_world in
  let w1 := snd (Examples.countdown_step (PyDict []) w0) in
  AbstractNode.execute_loop (subclass := Examples.Countdown)
    Examples.LOGGING Examples.show_exc 4 (PyDict []) w0
  = AbstractNode.execute_loop (subclass := Examples.Countdown)
      Examples.LOGGING Examples.show_exc 3 (PyDict []) w1.
Proof.
  intros w0 w1.
  apply (proj1 (execute_loop_ends_on_False (subclass := Examples.Countdown)
                  Examples.LOGGING Examples.show_exc 3 (PyDict []))
           w0 w1 PyNone).
  - reflexivity.
  - discriminate.
Defined.

(** C2 as stated fails, in both of its halves. With a budget of 1 and
    the input [1, 2, 3]: the budget is spent after the first iteration
    while the input is not exhausted, and the loop goes on until the
    input is exhausted; the output holds all three values. With a budget
    of 25 and the input [1]: the input is exhausted after the first
    iteration while the budget is not spent, and the loop goes on until
    the budget is spent; the step is called three times and the output
    holds what it wrote each time. *)
Lemma neither_limit_alone_stops_run_test :
  let one_two_three := [PyInt 1; PyInt 2; PyInt 3] in
  let start (w : Examples.eworld) :=
    AbstractNode.clock w (AbstractNode.clock_reads w) in
  let first_step (w : Examples.eworld) :=
    snd (Examples.relay_step PyNone (snd (AbstractNode.time_time w))) in
  let wa := Examples.relay_world one_two_three in
  let wb := Examples.relay_world [PyInt 1] in
  (budget_spent (Some 1%Z) (start wa) (first_step wa) = true ∧
   AbstractNode.inputs_exhausted
     (AbstractNode.inputs (AbstractNode.self (first_step wa))) = Ret false ∧
   Examples.run_result
     (AbstractNode.run_test (subclass := Examples.Relay) 10 (Some 1%Z) wa)
     "output" = Some one_two_three) ∧
  (budget_spent (Some 25%Z) (start wb) (first_step wb) = false ∧
   AbstractNode.inputs_exhausted
     (AbstractNode.inputs (AbstractNode.self (first_step wb))) = Ret true ∧
   Examples.run_result
     (AbstractNode.run_test (subclass := Examples.Relay) 10 (Some 25%Z) wb)
     "output" = Some [PyInt 1; PyNone; PyNone]).
Proof. vm_compute. repeat split. Qed.

(** The pass-through node of the specification: the inputs
    {"input": [1, 2, 3]} give the output [1, 2, 3], and the run ends once
    the input is exhausted. *)
Example relay_passes_through :
  Examples.run_result
    (AbstractNode.run_test (subclass := Examples.Relay) 10 None
       (Examples.relay_world [PyInt 1; PyInt 2; PyInt 3]))
    "output" = Some [PyInt 1; PyInt 2; PyInt 3] ∧
  AbstractNode.run_test (subclass := Examples.Relay) 2 None
    (Examples.relay_world [PyInt 1; PyInt 2; PyInt 3]) = None.
Proof. vm_compute. split; reflexivity. Qed.

(** The writes of one step of [Relay]: the next value of its input, to
    the output "output". *)
Definition relay_writes (w : Examples.eworld) : list (string * pyval) :=
  match AbstractNode.inputs (AbstractNode.self w) with
  | [(_, AbstractNode.InFake f)] => [("output", fst (Examples.take_next f))]
  | _ => []
  end.

Lemma relay_step_writes (u u1 : Examples.eworld) p r :
  Examples.relay_step p u = (Ret r, u1) →
  AbstractNode.outputs (AbstractNode.self u1)
  = foldl after_write (AbstractNode.outputs (AbstractNode.self u))
      (relay_writes u).
Proof.
  unfold Examples.relay_step, relay_writes.
  destruct (AbstractNode.inputs (AbstractNode.self u))
    as [|[name [f|d]] [|? ?]]; try done.
  destruct (Examples.take_next f) as [v f'] eqn:Hnext. cbn [fst].
  unfold bind.
  destruct (AbstractNode.outputs_write "output" v _) as [[r'|e] u2] eqn:Hw;
    [|done].
  intros [= _ <-]. apply outputs_write_after_write in Hw.
  rewrite Hw. reflexivity.
Qed.

Lemma run_test_outcome_witness :
  let w := Examples.relay_world [PyInt 1; PyInt 2] in
  let w0 := snd (AbstractNode.time_time w) in
  let w' := snd (Examples.relay_step PyNone
                   (snd (Examples.relay_step PyNone w0))) in
  let out : gmap string (list pyval) :=
    {[ "logging" := []; "output" := [PyInt 1; PyInt 2] ]} in
  ∃ n w2,
    (1 ≤ n ≤ 10)%nat ∧
    test_run (subclass := Examples.Relay) None
      (AbstractNode.clock w (AbstractNode.clock_reads w)) n w0 w2 ∧
    ∀ k f,
      AbstractNode.outputs (AbstractNode.self w) !! k
        = Some (AbstractNode.OutFake f) →
      out !! k
      = Some (FakeDatasetOutput.values f ++
              produced_to k
                ([] ++
                 loop_writes (subclass := Examples.Relay) relay_writes
                   None n w0 ++
                 []))%list.
Proof.
  intros w w0 w' out.
  refine (proj2 (proj2 (proj2 (proj2
            (run_test_outcome (subclass := Examples.Relay) 10 None w w' out
               eq_refl))))
            (fun _ => []) relay_writes (fun _ => []) _ _ _ _).
  - intros u r u1 [= _ <-]. reflexivity.
  - intros u r u1. apply relay_step_writes.
  - intros u r u1 [= _ <-]. reflexivity.
  - vm_compute. reflexivity.
Defined.



Lemma activate_poison_pill_one_way_witness :
  let w := Examples.test_node "Probe" (Some 1%positive) None None in
  ∃ w1, AbstractNode.activate_poison_pill w = (Ret PyNone, w1) ∧
        AbstractNode.actors w1 !! 1%positive = Some (PoisonPill.mk true) ∧
        AbstractNode.self w1 = AbstractNode.self w ∧
        AbstractNode.activate_poison_pill w1 = (Ret PyNone, w1).
Proof.
  intros w.
  apply (proj1 activate_poison_pill_one_way w 1%positive PoisonPill.init);
    reflexivity.
Defined.


(** C9 as stated fails: a node that holds a handle to a pill actor that
    is gone. [activate_poison_pill] does not return: it fails, and no
    pill has been activated. *)
Lemma activate_poison_pill_actor_gone :
  let w := Examples.test_node "Probe" (Some 2%positive) None None in
  AbstractNode.poison_pill (AbstractNode.self w) = Some 2%positive ∧
  AbstractNode.actors w !! 2%positive = None ∧
  (∃ e, AbstractNode.activate_poison_pill w = (Raise e, w)) ∧
  AbstractNode.actors w !! 1%positive = Some (PoisonPill.mk false).
Proof.
  intros w. split; [reflexivity|]. split; [reflexivity|].
  split; [|reflexivity]. eexists. vm_compute. reflexivity.
Qed.

(* ===================================================================== *)
(** * inject_env_vars                                                      *)
(* ===================================================================== *)

(** The example of the docstring. *)
Definition secrets : gmap string string :=
  {[ "SECRET1" := "secret1"; "SECRET2" := "secret2" ]}.

Example re_search_first :
  ConfigLoader.re_search "A string with a {$SECRET1} and a {$SECRET2}."
  = Some "{$SECRET1}".
Proof. reflexivity. Qed.

Example var_name_strips : ConfigLoader.var_name "{$SECRET1}" = "SECRET1".
Proof. reflexivity. Qed.

Example replace_all_occurrences :
  ConfigLoader.replace "{$A}" "x" "{$A}-{$B}-{$A}" = "x-{$B}-x".
Proof. reflexivity. Qed.

Example inject_docstring_string :
  ConfigLoader.inject_tree secrets 5
    (PyStr "A string with a {$SECRET1} and a {$SECRET2}.")
  = Ret (PyStr "A string with a secret1 and a secret2.").
Proof. vm_compute. reflexivity. Qed.

Section InjectFacts.
Variable environ : gmap string string.

Abbreviation inject_env_vars := (ConfigLoader.inject_env_vars environ).
Abbreviation inject_tree := (ConfigLoader.inject_tree environ).
Abbreviation store := (gmap ConfigLoader.loc ConfigLoader.obj).

(** *** Strings *)

(** A string is returned only once nothing in it matches, and the store
    plays no part. *)
Lemma inject_string_outcome d s (h : store) r h' :
  inject_env_vars d (ConfigLoader.VStr s) h = (r, h') →
  h' = h ∧
  inject_tree d (PyStr s) =
    match r with
    | Ret v' => Ret (PyStr (match v' with ConfigLoader.VStr s' => s' | _ => "" end))
    | Raise e => Raise e
    end ∧
  ∀ v', r = Ret v' → ∃ s', v' = ConfigLoader.VStr s' ∧
                           ConfigLoader.re_search s' = None.
Proof.
  revert s. induction d as [|d IH]; intros s; simpl.
  - intros [= <- <-]. done.
  - destruct (ConfigLoader.re_search s) as [m|] eqn:Hm.
    + destruct (environ !! ConfigLoader.var_name m) as [value|].
      * apply IH.
      * intros [= <- <-]. done.
    + intros [= <- <-]. repeat split; eauto.
      intros v' [= <-]. eauto.
Qed.

Lemma inject_tree_string d s t' :
  inject_tree d (PyStr s) = Ret t' →
  ∃ s', t' = PyStr s' ∧ ConfigLoader.re_search s' = None.
Proof.
  revert s. induction d as [|d IH]; intros s; simpl; [done|].
  destruct (ConfigLoader.re_search s) as [m|] eqn:Hm.
  - destruct (environ !! ConfigLoader.var_name m); [apply IH|done].
  - intros [= <-]. eauto.
Qed.

(** A string without a placeholder comes back as it is. *)
Lemma inject_tree_no_placeholder d s :
  ConfigLoader.re_search s = None →
  inject_tree (S d) (PyStr s) = Ret (PyStr s).
Proof. intros Hs. simpl. by rewrite Hs. Qed.

(** *** traverse *)

Lemma traverse_Ret {A B : Type} (f : A -> result B) xs ys :
  ConfigLoader.traverse f xs = Ret ys ↔ Forall2 (fun x y => f x = Ret y) xs ys.
Proof.
  revert ys. induction xs as [|x xs IH]; intros ys; simpl.
  - split.
    + intros [= <-]. constructor.
    + intros Hf. by inversion Hf.
  - destruct (f x) as [y|e] eqn:Hx.
    + destruct (ConfigLoader.traverse f xs) as [ys'|e] eqn:Hxs.
      * split.
        -- intros [= <-]. constructor; [done|]. by apply IH.
        -- intros Hf. inversion Hf as [|? y' ? ys'' Hy Hys]; subst.
           apply IH in Hys. congruence.
      * split; [done|]. intros Hf.
        inversion Hf as [|? y' ? ys'' Hy Hys]; subst.
        apply IH in Hys. done.
    + split; [done|]. intros Hf. inversion Hf; subst. congruence.
Qed.

(** *** Trees *)

(** After an injection that succeeds, no string of the tree holds a
    placeholder, and injecting again gives the same tree. *)
Lemma inject_tree_result d t t' :
  inject_tree d t = Ret t' →
  ConfigLoader.placeholder_free t' = true ∧ inject_tree d t' = Ret t'.
Proof.
  revert t t'. induction d as [|d IH]; intros t t'; [done|].
  destruct t as [| b | z | x | s | ts | kvs].
  1-4: by intros [= <-].
  - intros Hs. destruct (inject_tree_string _ _ _ Hs) as (s' & -> & Hfree).
    split; [simpl; by rewrite bool_decide_eq_true|].
    by apply inject_tree_no_placeholder.
  - simpl.
    destruct (ConfigLoader.traverse _ ts) as [ts'|e] eqn:Hts; [|done].
    intros [= <-]. apply traverse_Ret in Hts.
    assert (Hall : Forall (fun y => ConfigLoader.placeholder_free y = true ∧
                                    inject_tree d y = Ret y) ts').
    { induction Hts as [|x y xs ys Hxy _ IHf]; constructor; eauto. }
    split.
    + simpl. apply forallb_forall. intros y Hy.
      apply list_elem_of_In in Hy.
      by apply (proj1 (Forall_forall _ _) Hall y).
    + assert (Hfix : ConfigLoader.traverse (inject_tree d) ts' = Ret ts').
      { apply traverse_Ret. clear Hts.
        induction Hall as [|y ys [_ Hy] _ IHa]; constructor; done. }
      by rewrite Hfix.
  - simpl.
    destruct (ConfigLoader.traverse _ kvs) as [kvs'|e] eqn:Hkvs; [|done].
    intros [= <-]. apply traverse_Ret in Hkvs.
    assert (Hall : Forall (fun kv => ConfigLoader.placeholder_free kv.2 = true ∧
                                     inject_tree d kv.2 = Ret kv.2) kvs').
    { induction Hkvs as [|x y xs ys Hxy _ IHf]; constructor; [|done].
      destruct (inject_tree d x.2) as [t'|] eqn:Hx; [|done].
      injection Hxy as <-. simpl. eauto. }
    split.
    + simpl. apply forallb_forall. intros kv Hkv.
      apply list_elem_of_In in Hkv.
      by apply (proj1 (Forall_forall _ _) Hall kv).
    + match goal with |- match ConfigLoader.traverse ?f _ with _ => _ end = _ =>
        assert (Hfix : ConfigLoader.traverse f kvs' = Ret kvs') end.
      { apply traverse_Ret. clear Hkvs.
        induction Hall as [|[k y] ys [_ Hy] _ IHa]; constructor; [|done].
        simpl in *. by rewrite Hy. }
      by rewrite Hfix.
Qed.

End InjectFacts.

(** *** Trees laid out in the store *)

Local Open Scope list_scope.

Section LayoutFacts.
Variable environ : gmap string string.

Abbreviation inject := (ConfigLoader.inject_env_vars environ).
Abbreviation inject_t := (ConfigLoader.inject_tree environ).
Abbreviation heap := (gmap ConfigLoader.loc ConfigLoader.obj).
Abbreviation laid_out := ConfigLoader.laid_out.

(** A layout only depends on the objects of its footprint. *)
Lemma laid_out_frame n (h h' : heap) v t fp :
  laid_out n h v t fp →
  (∀ l, l ∈ fp → h' !! l = h !! l) →
  laid_out n h' v t fp.
Proof.
  revert h h' v t fp.
  induction n as [|n IH]; intros h h' v t fp Hl Hagree;
    destruct v, t; simpl in *; try done.
  - destruct Hl as (cs & Hh & Hts & Hall & Hdisj & Hnotin & ->).
    exists cs. split; [rewrite Hagree; [done|set_solver]|].
    repeat split; try done.
    apply Forall_forall. intros c Hc. rewrite Forall_forall in Hall.
    apply (IH h); [by apply Hall|].
    intros l' Hl'. apply Hagree. apply elem_of_union. right.
    apply elem_of_union_list. exists c.2. split; [|done].
    by apply list_elem_of_fmap_2.
  - destruct Hl as (cs & Hh & Hts & Hnd & Hall & Hdisj & Hnotin & ->).
    exists cs. split; [rewrite Hagree; [done|set_solver]|].
    repeat split; try done.
    apply Forall_forall. intros c Hc. rewrite Forall_forall in Hall.
    apply (IH h); [by apply Hall|].
    intros l' Hl'. apply Hagree. apply elem_of_union. right.
    apply elem_of_union_list. exists c.2.2. split; [|done].
    apply (list_elem_of_fmap_2 snd). by apply (list_elem_of_fmap_2 snd).
Qed.


(** What it means for a procedure [rec] on the store to compute [rec_t]
    on laid-out trees of height at most [n]: it touches the footprint
    only; it fails exactly as [rec_t] does; when it returns, the value
    returned is laid out as the tree [rec_t] gives, in the same objects;
    a reference is returned as it was passed; and if the tree comes out
    unchanged, so do the store and the value. *)
Definition computes (n : nat) (rec : ConfigLoader.val -> M heap ConfigLoader.val)
    (rec_t : pyval -> result pyval) : Prop :=
  ∀ (h : heap) v t fp r h',
    laid_out n h v t fp →
    rec v h = (r, h') →
    (∀ l, l ∉ fp → h' !! l = h !! l) ∧
    match r with
    | Ret v' =>
        ∃ t', rec_t t = Ret t' ∧
              laid_out n h' v' t' fp ∧
              (∀ l, v = ConfigLoader.VRef l → v' = v) ∧
              (t' = t → h' = h ∧ v' = v)
    | Raise e => rec_t t = Raise e
    end.

Lemma disjoint_from_rest (fp : gset ConfigLoader.loc) fps l :
  Forall (fun fp' => fp ## fp') fps → l ∈ fp → l ∉ (⋃ fps : gset _).
Proof.
  intros Hall Hl Hin. apply elem_of_union_list in Hin as (X & HX & HlX).
  rewrite Forall_forall in Hall. specialize (Hall X HX). set_solver.
Qed.

(** The loop over a list, from the element at position [length done]
    on: [done] are the values already written back, [rest] the children
    still to be visited. *)
Lemma list_loop_computes n rec rec_t l :
  computes n rec rec_t →
  ∀ (rest : list (ConfigLoader.val * pyval * gset ConfigLoader.loc))
    (done : list ConfigLoader.val) (h : heap) r h',
    h !! l = Some (ConfigLoader.OList (done ++ (rest.*1).*1)) →
    Forall (fun c => laid_out n h c.1.1 c.1.2 c.2) rest →
    ConfigLoader.pairwise_disjoint (rest.*2) →
    l ∉ (⋃ (rest.*2) : gset _) →
    ConfigLoader.list_loop rec l (length done) (length rest) h = (r, h') →
    (∀ l', l' ≠ l → l' ∉ (⋃ (rest.*2) : gset _) → h' !! l' = h !! l') ∧
    match r with
    | Ret _ =>
        ∃ rest' : list (ConfigLoader.val * pyval * gset ConfigLoader.loc),
          ConfigLoader.traverse rec_t ((rest.*1).*2) = Ret ((rest'.*1).*2) ∧
          rest'.*2 = rest.*2 ∧
          h' !! l = Some (ConfigLoader.OList (done ++ (rest'.*1).*1)) ∧
          Forall (fun c => laid_out n h' c.1.1 c.1.2 c.2) rest' ∧
          ((rest'.*1).*2 = (rest.*1).*2 → h' = h)
    | Raise e => ConfigLoader.traverse rec_t ((rest.*1).*2) = Raise e
    end.
Proof.
  intros Hrec rest.
  induction rest as [|[[v t] fp] rest IH]; intros done h r h' Hl Hall Hdisj Hnotin.
  - simpl. intros [= <- <-]. split; [done|].
    exists []. simpl. repeat split; try done.
  - rewrite !fmap_cons in Hl. rewrite !fmap_cons in Hdisj.
    rewrite !fmap_cons in Hnotin. rewrite !fmap_cons. cbn [fst snd] in *.
    cbn [ConfigLoader.pairwise_disjoint] in Hdisj.
    destruct Hdisj as [Hfp Hdisj].
    rewrite union_list_cons in Hnotin.
    apply Forall_cons in Hall as [Hc Hall]. simpl in Hc.
    cbn [length ConfigLoader.list_loop]. rewrite Hl.
    rewrite list_lookup_middle by done.
    unfold bind at 1.
    destruct (rec v h) as [[v1|e] h1] eqn:Hv.
    + destruct (Hrec h v t fp (Ret v1) h1 Hc Hv)
        as (Hframe1 & t1 & Ht1 & Hc1 & _ & Hfix1).
      assert (Hl1 : h1 !! l = Some (ConfigLoader.OList (done ++ v :: (rest.*1).*1))).
      { rewrite Hframe1; [done|set_solver]. }
      unfold bind, ConfigLoader.list_setitem. rewrite Hl1.
      set (h2 := <[l := _]> h1).
      assert (Hins : <[length done := v1]> (done ++ v :: (rest.*1).*1)
                     = (done ++ [v1]) ++ (rest.*1).*1).
      { replace (length done) with (length done + 0)%nat by lia.
        rewrite insert_app_r. simpl. by rewrite <- app_assoc. }
      assert (Hl2 : h2 !! l
                    = Some (ConfigLoader.OList ((done ++ [v1]) ++ (rest.*1).*1))).
      { subst h2. rewrite lookup_insert_eq. by rewrite Hins. }
      assert (Hall2 : Forall (fun c => laid_out n h2 c.1.1 c.1.2 c.2) rest).
      { apply Forall_forall. intros c Hin. rewrite Forall_forall in Hall.
        apply (laid_out_frame n h); [by apply Hall|].
        intros l' Hl'.
        assert (Hin' : l' ∈ (⋃ (rest.*2) : gset _)).
        { apply elem_of_union_list. exists c.2. split; [|done].
          by apply list_elem_of_fmap_2. }
        subst h2. rewrite lookup_insert_ne by set_solver.
        apply Hframe1. intros Hl'fp.
        by apply (disjoint_from_rest fp (rest.*2) l' Hfp Hl'fp). }
      replace (S (length done)) with (length (done ++ [v1]))
        by (rewrite length_app; simpl; lia).
      intros Hloop.
      destruct (IH (done ++ [v1]) h2 r h' Hl2 Hall2 Hdisj
                  ltac:(set_solver) Hloop) as [Hframe2 Hres].
      split.
      * intros l' Hne Hl'. rewrite union_list_cons in Hl'.
        rewrite Hframe2 by set_solver. subst h2.
        rewrite lookup_insert_ne by done. apply Hframe1. set_solver.
      * destruct r as [[]|e]; cbn [ConfigLoader.traverse]; rewrite Ht1.
        -- destruct Hres as (rest' & Htr & Hfps & Hl' & Hall' & Hfix').
           exists ((v1, t1, fp) :: rest'). rewrite !fmap_cons.
           cbn [fst snd]. rewrite Htr.
           split; [done|]. split; [by rewrite Hfps|].
           split; [by rewrite Hl', <- app_assoc|].
           split.
           ++ constructor; [|done]. simpl.
              apply (laid_out_frame n h1); [done|].
              intros l' Hl'fp.
              rewrite Hframe2.
              ** subst h2. apply lookup_insert_ne. set_solver.
              ** set_solver.
              ** by apply (disjoint_from_rest fp (rest.*2) l' Hfp Hl'fp).
           ++ intros [= -> Hsame].
              destruct (Hfix1 eq_refl) as [-> ->].
              rewrite (Hfix' Hsame). subst h2.
              apply insert_id. rewrite Hl. by rewrite Hins, <- app_assoc.
        -- by rewrite Hres.
    + intros [= <- <-].
      destruct (Hrec h v t fp (Raise e) h1 Hc Hv) as (Hframe1 & Ht1).
      split.
      * intros l' Hne Hl'. rewrite union_list_cons in Hl'.
        apply Hframe1. set_solver.
      * cbn [ConfigLoader.traverse]. by rewrite Ht1.
Qed.


Lemma assoc_set_middle k v v' (done rest : list (string * ConfigLoader.val)) :
  k ∉ done.*1 →
  ConfigLoader.assoc_set k v' (done ++ (k, v) :: rest)
  = done ++ (k, v') :: rest.
Proof.
  induction done as [|[k0 v0] done IH]; intros Hk; simpl.
  - by rewrite decide_True.
  - rewrite fmap_cons in Hk. cbn [fst] in Hk.
    rewrite decide_False by set_solver.
    rewrite IH by set_solver. done.
Qed.

(** The step [traverse] applies to the items of a dictionary. *)
Definition on_value (rec_t : pyval -> result pyval) (kv : string * pyval)
    : result (string * pyval) :=
  match rec_t kv.2 with
  | Ret t' => Ret (kv.1, t')
  | Raise e => Raise e
  end.

(** The loop over the items of a dictionary: [done] are the items
    already written back, [rest] the children still to be visited. *)
Lemma dict_loop_computes n rec rec_t l :
  computes n rec rec_t →
  ∀ (rest : list (string * (ConfigLoader.val * pyval * gset ConfigLoader.loc)))
    (done : list (string * ConfigLoader.val)) (h : heap) r h',
    h !! l = Some (ConfigLoader.ODict
                     (done ++ ((fun c => (c.1, c.2.1.1)) <$> rest))) →
    NoDup (done.*1 ++ rest.*1) →
    Forall (fun c => laid_out n h c.2.1.1 c.2.1.2 c.2.2) rest →
    ConfigLoader.pairwise_disjoint ((rest.*2).*2) →
    l ∉ (⋃ ((rest.*2).*2) : gset _) →
    ConfigLoader.dict_loop rec l ((fun c => (c.1, c.2.1.1)) <$> rest) h
      = (r, h') →
    (∀ l', l' ≠ l → l' ∉ (⋃ ((rest.*2).*2) : gset _) → h' !! l' = h !! l') ∧
    match r with
    | Ret _ =>
        ∃ rest' : list (string * (ConfigLoader.val * pyval * gset ConfigLoader.loc)),
          ConfigLoader.traverse (on_value rec_t)
            ((fun c => (c.1, c.2.1.2)) <$> rest)
            = Ret ((fun c => (c.1, c.2.1.2)) <$> rest') ∧
          rest'.*1 = rest.*1 ∧
          (rest'.*2).*2 = (rest.*2).*2 ∧
          h' !! l = Some (ConfigLoader.ODict
                            (done ++ ((fun c => (c.1, c.2.1.1)) <$> rest'))) ∧
          Forall (fun c => laid_out n h' c.2.1.1 c.2.1.2 c.2.2) rest' ∧
          ((fun c => (c.1, c.2.1.2)) <$> rest'
             = (fun c => (c.1, c.2.1.2)) <$> rest → h' = h)
    | Raise e =>
        ConfigLoader.traverse (on_value rec_t)
          ((fun c => (c.1, c.2.1.2)) <$> rest) = Raise e
    end.
Proof.
  intros Hrec rest.
  induction rest as [|[k [[v t] fp]] rest IH];
    intros done h r h' Hl Hnd Hall Hdisj Hnotin.
  - simpl. intros [= <- <-]. split; [done|].
    exists []. repeat split; try done.
  - rewrite !fmap_cons in Hl. rewrite !fmap_cons in Hdisj.
    rewrite !fmap_cons in Hnotin. rewrite !fmap_cons in Hnd.
    rewrite !fmap_cons. cbn [fst snd] in *.
    cbn [ConfigLoader.pairwise_disjoint] in Hdisj.
    destruct Hdisj as [Hfp Hdisj].
    rewrite union_list_cons in Hnotin.
    apply Forall_cons in Hall as [Hc Hall]. cbn [fst snd] in Hc.
    assert (Hk : k ∉ done.*1).
    { apply NoDup_app in Hnd as (_ & Hsep & _). intros Hin.
      apply (Hsep k Hin). apply elem_of_cons. by left. }
    cbn [ConfigLoader.dict_loop]. unfold bind at 1.
    destruct (rec v h) as [[v1|e] h1] eqn:Hv.
    + destruct (Hrec h v t fp (Ret v1) h1 Hc Hv)
        as (Hframe1 & t1 & Ht1 & Hc1 & _ & Hfix1).
      assert (Hl1 : h1 !! l = h !! l).
      { apply Hframe1. set_solver. }
      unfold bind, ConfigLoader.dict_setitem. rewrite Hl1, Hl.
      rewrite (assoc_set_middle k v v1 done _ Hk).
      set (h2 := <[l := _]> h1).
      assert (Hl2 : h2 !! l
                    = Some (ConfigLoader.ODict
                              ((done ++ [(k, v1)])
                                 ++ ((fun c => (c.1, c.2.1.1)) <$> rest)))).
      { subst h2. rewrite lookup_insert_eq. by rewrite <- app_assoc. }
      assert (Hnd2 : NoDup ((done ++ [(k, v1)]).*1 ++ rest.*1)).
      { rewrite fmap_app, <- app_assoc. done. }
      assert (Hall2 : Forall (fun c => laid_out n h2 c.2.1.1 c.2.1.2 c.2.2) rest).
      { apply Forall_forall. intros c Hin. rewrite Forall_forall in Hall.
        apply (laid_out_frame n h); [by apply Hall|].
        intros l' Hl'.
        assert (Hin' : l' ∈ (⋃ ((rest.*2).*2) : gset _)).
        { apply elem_of_union_list. exists c.2.2. split; [|done].
          apply (list_elem_of_fmap_2 snd). by apply (list_elem_of_fmap_2 snd). }
        subst h2. rewrite lookup_insert_ne by set_solver.
        apply Hframe1. intros Hl'fp.
        by apply (disjoint_from_rest fp ((rest.*2).*2) l' Hfp Hl'fp). }
      intros Hloop.
      destruct (IH (done ++ [(k, v1)]) h2 r h' Hl2 Hnd2 Hall2 Hdisj
                  ltac:(set_solver) Hloop) as [Hframe2 Hres].
      split.
      * intros l' Hne Hl'. rewrite union_list_cons in Hl'.
        rewrite Hframe2 by set_solver. subst h2.
        rewrite lookup_insert_ne by done. apply Hframe1. set_solver.
      * destruct r as [[]|e]; cbn [ConfigLoader.traverse];
          unfold on_value at 1; cbn [fst snd]; rewrite Ht1.
        -- destruct Hres as (rest' & Htr & Hkeys & Hfps & Hl' & Hall' & Hfix').
           exists ((k, (v1, t1, fp)) :: rest'). rewrite !fmap_cons.
           cbn [fst snd]. rewrite Htr.
           split; [done|]. split; [by rewrite Hkeys|].
           split; [by rewrite Hfps|].
           split; [by rewrite Hl', <- app_assoc|].
           split.
           ++ constructor; [|done]. cbn [fst snd].
              apply (laid_out_frame n h1); [done|].
              intros l' Hl'fp.
              rewrite Hframe2.
              ** subst h2. apply lookup_insert_ne. set_solver.
              ** set_solver.
              ** by apply (disjoint_from_rest fp ((rest.*2).*2) l' Hfp Hl'fp).
           ++ intros [= -> Hsame].
              destruct (Hfix1 eq_refl) as [-> ->].
              rewrite (Hfix' Hsame). subst h2.
              apply insert_id. by rewrite Hl.
        -- by rewrite Hres.
    + intros [= <- <-].
      destruct (Hrec h v t fp (Raise e) h1 Hc Hv) as (Hframe1 & Ht1).
      split.
      * intros l' Hne Hl'. rewrite union_list_cons in Hl'.
        apply Hframe1. set_solver.
      * cbn [ConfigLoader.traverse]. unfold on_value at 1. cbn [fst snd].
        by rewrite Ht1.
Qed.

(** [inject_env_vars] on a tree laid out in the store computes
    [inject_tree]. *)
Lemma inject_computes d : ∀ n, computes n (inject d) (inject_t d).
Proof.
  induction d as [|d IH]; intros n h v t fp r h' Hlaid Hrun.
  - injection Hrun as <- <-. done.
  - destruct v as [| b | z | x | s | l], t as [| b' | z' | x' | s' | ts | kvs];
      try (destruct n; done).
    + injection Hrun as <- <-. split; [done|]. exists PyNone.
      split; [done|]. split; [by destruct n|]. by split.
    + injection Hrun as <- <-. split; [done|]. exists (PyBool b').
      split; [done|]. split; [by destruct n|]. by split.
    + injection Hrun as <- <-. split; [done|]. exists (PyInt z').
      split; [done|]. split; [by destruct n|]. by split.
    + injection Hrun as <- <-. split; [done|]. exists (PyFloat x').
      split; [done|]. split; [by destruct n|]. by split.
    + assert (Hs : s = s' ∧ fp = ∅) by (by destruct n).
      destruct Hs as [<- ->].
      destruct (inject_string_outcome environ (S d) s h r h' Hrun)
        as (-> & Htree & Hclean).
      split; [done|]. destruct r as [v'|e]; [|done].
      destruct (Hclean v' eq_refl) as (s1 & -> & _).
      exists (PyStr s1). split; [done|]. split; [by destruct n|].
      split; [done|]. intros [= ->]. done.
    + destruct n as [|n]; [done|].
      destruct Hlaid as (cs & Hh & -> & Hall & Hdisj & Hnotin & ->).
      cbn [ConfigLoader.inject_env_vars] in Hrun. rewrite Hh in Hrun.
      unfold bind in Hrun.
      replace (length ((cs.*1).*1)) with (length cs) in Hrun
        by (by rewrite !length_fmap).
      destruct (ConfigLoader.list_loop _ l 0 (length cs) h)
        as [[[]|e] h1] eqn:Hloop.
      * injection Hrun as <- <-.
        destruct (list_loop_computes n (inject d) (inject_t d) l (IH n)
                    cs [] h (Ret tt) h1 Hh Hall Hdisj Hnotin Hloop)
          as (Hframe & cs' & Htr & Hfps & Hh' & Hall' & Hfix).
        split.
        { intros l' Hl'. apply Hframe; set_solver. }
        exists (PyList ((cs'.*1).*2)).
        split; [cbn [ConfigLoader.inject_tree]; by rewrite Htr|].
        split.
        { exists cs'. rewrite Hfps. done. }
        split; [done|].
        intros [= Hsame]. by rewrite (Hfix Hsame).
      * injection Hrun as <- <-.
        destruct (list_loop_computes n (inject d) (inject_t d) l (IH n)
                    cs [] h (Raise e) h1 Hh Hall Hdisj Hnotin Hloop)
          as (Hframe & Htr).
        split.
        { intros l' Hl'. apply Hframe; set_solver. }
        cbn [ConfigLoader.inject_tree]. by rewrite Htr.
    + destruct n as [|n]; [done|].
      destruct Hlaid as (cs & Hh & -> & Hnd & Hall & Hdisj & Hnotin & ->).
      cbn [ConfigLoader.inject_env_vars] in Hrun. rewrite Hh in Hrun.
      unfold bind in Hrun.
      destruct (ConfigLoader.dict_loop _ l _ h) as [[[]|e] h1] eqn:Hloop.
      * injection Hrun as <- <-.
        destruct (dict_loop_computes n (inject d) (inject_t d) l (IH n)
                    cs [] h (Ret tt) h1 Hh Hnd Hall Hdisj Hnotin Hloop)
          as (Hframe & cs' & Htr & Hkeys & Hfps & Hh' & Hall' & Hfix).
        split.
        { intros l' Hl'. apply Hframe; set_solver. }
        exists (PyDict ((fun c => (c.1, c.2.1.2)) <$> cs')).
        split.
        { cbn [ConfigLoader.inject_tree]. unfold on_value in Htr.
          by rewrite Htr. }
        split.
        { exists cs'. rewrite Hfps, Hkeys. done. }
        split; [done|].
        intros [= Hsame]. by rewrite (Hfix Hsame).
      * injection Hrun as <- <-.
        destruct (dict_loop_computes n (inject d) (inject_t d) l (IH n)
                    cs [] h (Raise e) h1 Hh Hnd Hall Hdisj Hnotin Hloop)
          as (Hframe & Htr).
        split.
        { intros l' Hl'. apply Hframe; set_solver. }
        cbn [ConfigLoader.inject_tree]. unfold on_value in Htr.
        by rewrite Htr.
Qed.


(** *** What the trees say about a run *)

Lemma traverse_Raise {A B : Type} (f : A -> result B) xs e :
  ConfigLoader.traverse f xs = Raise e → ∃ x, x ∈ xs ∧ f x = Raise e.
Proof.
  induction xs as [|x xs IH]; simpl; [done|].
  destruct (f x) as [y|e'] eqn:Hx.
  - destruct (ConfigLoader.traverse f xs) as [ys|e'']; [done|].
    intros [= ->]. destruct (IH eq_refl) as (x' & Hin & Hx').
    exists x'. split; [by apply elem_of_cons; right|done].
  - intros [= ->]. exists x. split; [by apply elem_of_cons; left|done].
Qed.

Lemma traverse_stops {A B : Type} (f : A -> result B) pre pre' x post e :
  ConfigLoader.traverse f pre = Ret pre' →
  f x = Raise e →
  ConfigLoader.traverse f (pre ++ x :: post) = Raise e.
Proof.
  revert pre'. induction pre as [|p pre IH]; intros pre'; simpl.
  - intros _ ->. done.
  - destruct (f p) as [y|]; [|done].
    destruct (ConfigLoader.traverse f pre) as [ys|] eqn:Hpre; [|done].
    intros _ Hx. by rewrite (IH ys eq_refl Hx).
Qed.

(** Injection changes string leaves only. *)
Lemma inject_tree_shape d t t' :
  inject_t d t = Ret t' → ConfigLoader.same_but_strings t t' = true.
Proof.
  revert t t'. induction d as [|d IH]; intros t t'; [done|].
  destruct t as [| b | z | x | s | ts | kvs].
  1-4: by (intros [= <-]; simpl; rewrite ?bool_decide_eq_true_2).
  - intros Hs. by destruct (inject_tree_string _ _ _ _ Hs) as (s' & -> & _).
  - cbn [ConfigLoader.inject_tree].
    destruct (ConfigLoader.traverse _ ts) as [ts'|e] eqn:Hts; [|done].
    intros [= <-]. apply traverse_Ret in Hts. cbn [ConfigLoader.same_but_strings].
    induction Hts as [|x y xs ys Hxy _ IHf]; [done|].
    rewrite (IH _ _ Hxy). done.
  - cbn [ConfigLoader.inject_tree].
    destruct (ConfigLoader.traverse _ kvs) as [kvs'|e] eqn:Hkvs; [|done].
    intros [= <-]. apply traverse_Ret in Hkvs.
    cbn [ConfigLoader.same_but_strings].
    induction Hkvs as [|[k x] [k' y] xs ys Hxy _ IHf]; [done|].
    cbn [fst snd] in Hxy.
    destruct (inject_t d x) as [t'|] eqn:Hx; [|done].
    injection Hxy as <- <-.
    rewrite bool_decide_eq_true_2 by done. rewrite (IH _ _ Hx). done.
Qed.

(** [first_unset d t name]: walking the tree [t] as the injection does,
    within [d] nested calls, the first placeholder whose variable is not
    set is the one for [name]. The values visited before it inject
    without failure, and in its own string the placeholders before it are
    set and have been substituted. *)
Inductive first_unset : nat -> pyval -> string -> Prop :=
  | first_unset_here d s m :
      ConfigLoader.re_search s = Some m →
      environ !! ConfigLoader.var_name m = None →
      first_unset (S d) (PyStr s) (ConfigLoader.var_name m)
  | first_unset_later d s m value name :
      ConfigLoader.re_search s = Some m →
      environ !! ConfigLoader.var_name m = Some value →
      first_unset d (PyStr (ConfigLoader.replace m value s)) name →
      first_unset (S d) (PyStr s) name
  | first_unset_element d pre pre' x post name :
      ConfigLoader.traverse (inject_t d) pre = Ret pre' →
      first_unset d x name →
      first_unset (S d) (PyList (pre ++ x :: post)) name
  | first_unset_item d pre pre' k x post name :
      ConfigLoader.traverse (on_value (inject_t d)) pre = Ret pre' →
      first_unset d x name →
      first_unset (S d) (PyDict (pre ++ (k, x) :: post)) name.

Lemma first_unset_fails d t name :
  first_unset d t name →
  inject_t d t = Raise (ConfigLoader.missing_variable name).
Proof.
  induction 1 as [d s m Hm Henv | d s m value name Hm Henv _ IH
                  | d pre pre' x post name Hpre _ IH
                  | d pre pre' k x post name Hpre _ IH];
    cbn [ConfigLoader.inject_tree].
  - by rewrite Hm, Henv.
  - by rewrite Hm, Henv.
  - by rewrite (traverse_stops _ pre pre' x post _ Hpre IH).
  - fold (on_value (inject_t d)).
    assert (Hx : on_value (inject_t d) (k, x)
                 = Raise (ConfigLoader.missing_variable name)).
    { unfold on_value. cbn [snd]. by rewrite IH. }
    by rewrite (traverse_stops _ pre pre' (k, x) post _ Hpre Hx).
Qed.

(** An injection fails for one of two reasons only: the calls nest too
    deep, or a variable is missing, and then the variable named in the
    error is not set. *)
Lemma inject_tree_failure d t e :
  inject_t d t = Raise e →
  e = ConfigLoader.recursion_error ∨
  ∃ name, e = ConfigLoader.missing_variable name ∧ environ !! name = None.
Proof.
  revert t e. induction d as [|d IH]; intros t e.
  - intros [= <-]. by left.
  - destruct t as [| b | z | x | s | ts | kvs]; try done;
      cbn [ConfigLoader.inject_tree].
    + destruct (ConfigLoader.re_search s) as [m|]; [|done].
      destruct (environ !! ConfigLoader.var_name m) eqn:Henv; [apply IH|].
      intros [= <-]. right. eauto.
    + destruct (ConfigLoader.traverse _ ts) as [|e'] eqn:Hts; [done|].
      intros [= ->]. apply traverse_Raise in Hts as (x & _ & Hx). eauto.
    + destruct (ConfigLoader.traverse _ kvs) as [|e'] eqn:Hkvs; [done|].
      intros [= ->]. apply traverse_Raise in Hkvs as ([k x] & _ & Hx).
      cbn [snd] in Hx. destruct (inject_t d x) eqn:Hx'; [done|].
      injection Hx as ->. eauto.
Qed.

(** C6. A parameter tree laid out in the store, on which the injection
    succeeds: injecting the result again returns the same value and
    leaves the store as the first injection left it; the tree then in
    the store has no placeholder in any of its strings; and a string in
    which nothing matches is returned as it is, the store untouched. *)
Theorem inject_env_vars_idempotent (d n : nat) (h h' : heap)
    (v v' : ConfigLoader.val) (t : pyval) (fp : gset ConfigLoader.loc) :
  laid_out n h v t fp →
  inject d v h = (Ret v', h') →
  inject d v' h' = (Ret v', h') ∧
  (∃ t', inject_t d t = Ret t' ∧ laid_out n h' v' t' fp ∧
         ConfigLoader.placeholder_free t' = true) ∧
  (∀ d0 s (h0 : heap),
     ConfigLoader.re_search s = None →
     inject (S d0) (ConfigLoader.VStr s) h0 = (Ret (ConfigLoader.VStr s), h0)).
Proof.
  intros Hlaid Hrun.
  destruct (inject_computes d n h v t fp (Ret v') h' Hlaid Hrun)
    as (_ & t' & Ht' & Hlaid' & _ & _).
  destruct (inject_tree_result environ d t t' Ht') as [Hfree Hagain].
  split; [|split].
  - destruct (inject d v' h') as [r2 h2] eqn:Hrun2.
    pose proof (inject_computes d n h' v' t' fp r2 h2 Hlaid' Hrun2)
      as (_ & Hres).
    destruct r2 as [v2|e].
    + destruct Hres as (t2 & Ht2 & _ & _ & Hfix).
      rewrite Hagain in Ht2. injection Ht2 as <-.
      by destruct (Hfix eq_refl) as [-> ->].
    + congruence.
  - eauto.
  - intros d0 s h0 Hs. cbn [ConfigLoader.inject_env_vars]. by rewrite Hs.
Qed.

(** C7, as the code has it. On a parameter tree laid out in the store:
    when the first placeholder the traversal meets whose variable is not
    set is the one for [name], the injection raises the missing-variable
    error, whose message names exactly [name]; and whenever the injection
    raises a [ValueError], it is this error for a variable that is not
    set. *)
Theorem inject_env_vars_missing (d n : nat) (h : heap)
    (v : ConfigLoader.val) (t : pyval) (fp : gset ConfigLoader.loc) :
  laid_out n h v t fp →
  (∀ name, first_unset d t name →
     ∃ h', inject d v h = (Raise (ConfigLoader.missing_variable name), h') ∧
           exn_msg (ConfigLoader.missing_variable name)
           = "Failed to inject environment variable. " +:+ name +:+
             " was not found.") ∧
  (∀ e h', inject d v h = (Raise e, h') → exn_class e = ValueError →
     ∃ name, e = ConfigLoader.missing_variable name ∧
             environ !! name = None).
Proof.
  intros Hlaid. split.
  - intros name Hfirst. apply first_unset_fails in Hfirst.
    destruct (inject d v h) as [r h'] eqn:Hrun.
    pose proof (inject_computes d n h v t fp r h' Hlaid Hrun) as (_ & Hres).
    destruct r as [v'|e].
    + destruct Hres as (t' & Ht' & _). congruence.
    + exists h'. split; [|done]. congruence.
  - intros e h' Hrun Hcls.
    pose proof (inject_computes d n h v t fp (Raise e) h' Hlaid Hrun)
      as (_ & Hres).
    apply inject_tree_failure in Hres as [-> | Hname]; [done|done].
Qed.

(** *** Any store: strings change, nothing else *)

Lemma same_or_strings_refl v : ConfigLoader.same_or_strings v v.
Proof. by destruct v. Qed.

Lemma same_or_strings_sym v v' :
  ConfigLoader.same_or_strings v v' → ConfigLoader.same_or_strings v' v.
Proof. destruct v, v'; simpl; congruence. Qed.

Lemma same_or_strings_trans v1 v2 v3 :
  ConfigLoader.same_or_strings v1 v2 → ConfigLoader.same_or_strings v2 v3 →
  ConfigLoader.same_or_strings v1 v3.
Proof. destruct v1, v2, v3; simpl; congruence. Qed.

Lemma same_entries_refl o : ConfigLoader.same_entries o o.
Proof.
  destruct o as [items|elems]; simpl; apply Forall2_same_length_lookup_2;
    try done; intros i x y Hx Hy; simplify_eq;
    auto using same_or_strings_refl.
Qed.

Lemma same_entries_trans o1 o2 o3 :
  ConfigLoader.same_entries o1 o2 → ConfigLoader.same_entries o2 o3 →
  ConfigLoader.same_entries o1 o3.
Proof.
  destruct o1 as [a|a], o2 as [b|b], o3 as [c|c]; simpl; try done;
    intros H12 H23.
  - revert c H23.
    induction H12 as [|x y xs ys [Hk Hv] _ IH]; intros zs H23;
      inversion H23 as [|? z ? zs' [Hk' Hv'] Hrest]; subst; constructor.
    + split; [congruence|]. by eapply same_or_strings_trans.
    + by apply IH.
  - revert c H23.
    induction H12 as [|x y xs ys Hv _ IH]; intros zs H23;
      inversion H23 as [|? z ? zs' Hv' Hrest]; subst; constructor.
    + by eapply same_or_strings_trans.
    + by apply IH.
Qed.

Lemma same_objects_refl (h : heap) : ConfigLoader.same_objects h h.
Proof.
  intros l. destruct (h !! l); constructor. apply same_entries_refl.
Qed.

Lemma same_objects_trans (h1 h2 h3 : heap) :
  ConfigLoader.same_objects h1 h2 → ConfigLoader.same_objects h2 h3 →
  ConfigLoader.same_objects h1 h3.
Proof.
  intros H12 H23 l. specialize (H12 l). specialize (H23 l).
  destruct H12 as [o1 o2 H12|]; inversion H23; subst; constructor.
  by eapply same_entries_trans.
Qed.

Lemma same_entries_keys items items' :
  ConfigLoader.same_entries (ConfigLoader.ODict items)
    (ConfigLoader.ODict items') →
  items'.*1 = items.*1.
Proof.
  simpl. induction 1 as [|x y xs ys [Hk _] _ IH]; [done|].
  rewrite !fmap_cons. congruence.
Qed.

Lemma same_objects_distinct_keys (h h' : heap) :
  ConfigLoader.same_objects h h' → ConfigLoader.distinct_keys h →
  ConfigLoader.distinct_keys h'.
Proof.
  intros Hsame Hnd l items' Hl. specialize (Hsame l). rewrite Hl in Hsame.
  inversion Hsame as [o o' Hrel Ho|]; subst.
  destruct o as [items|]; [|done].
  rewrite (same_entries_keys _ _ Hrel). by apply (Hnd l).
Qed.

(** Writing back, under its key, a value that stands for the one read
    under that key keeps the dictionary the same up to strings. *)
Lemma assoc_set_same k v v1 items0 items1 :
  NoDup (items0.*1) → (k, v) ∈ items0 →
  ConfigLoader.same_or_strings v v1 →
  Forall2 (fun kv kv' => kv.1 = kv'.1 ∧ ConfigLoader.same_or_strings kv.2 kv'.2)
    items0 items1 →
  Forall2 (fun kv kv' => kv.1 = kv'.1 ∧ ConfigLoader.same_or_strings kv.2 kv'.2)
    items0 (ConfigLoader.assoc_set k v1 items1).
Proof.
  intros Hnd Hin Hv Hrel. revert Hnd Hin.
  induction Hrel as [|[k0 v0] [k1 v1'] r0 r1 [Hk Hv'] Hrest IH];
    intros Hnd Hin; [by apply elem_of_nil in Hin|].
  cbn [fst snd] in *. subst k1. rewrite fmap_cons in Hnd. cbn [fst] in Hnd.
  apply NoDup_cons in Hnd as [Hk0 Hnd].
  cbn [ConfigLoader.assoc_set]. destruct (decide (k0 = k)) as [->|Hne].
  - constructor; [|done]. split; [done|]. cbn [snd].
    apply elem_of_cons in Hin as [[= <-]|Hin]; [done|].
    exfalso. apply Hk0. by apply (list_elem_of_fmap_2 fst _ (k, v)).
  - constructor; [done|]. apply IH; [done|].
    apply elem_of_cons in Hin as [[= <- <-]|Hin]; done.
Qed.

(** What the injection is shown to do to any store, by induction on
    the depth: the store after has the same objects up to strings, and
    the value returned is the one passed in, or a string for a string. *)
Definition changes_strings_only
    (rec : ConfigLoader.val -> M heap ConfigLoader.val) : Prop :=
  ∀ v (h : heap) r h',
    ConfigLoader.distinct_keys h →
    rec v h = (r, h') →
    ConfigLoader.same_objects h h' ∧
    ∀ v', r = Ret v' → ConfigLoader.same_or_strings v v'.

Lemma dict_loop_strings_only rec l :
  changes_strings_only rec →
  ∀ snapshot (h0 h : heap) items0 r h',
    ConfigLoader.distinct_keys h0 →
    h0 !! l = Some (ConfigLoader.ODict items0) →
    (∀ kv, kv ∈ snapshot → kv ∈ items0) →
    ConfigLoader.same_objects h0 h →
    ConfigLoader.dict_loop rec l snapshot h = (r, h') →
    ConfigLoader.same_objects h0 h'.
Proof.
  intros Hrec snapshot.
  induction snapshot as [|[k v] rest IH];
    intros h0 h items0 r h' Hnd Hl Hsub Hsame.
  - by intros [= <- <-].
  - cbn [ConfigLoader.dict_loop]. unfold bind at 1.
    destruct (rec v h) as [[v1|e] h1] eqn:Hv.
    + destruct (Hrec v h _ h1 (same_objects_distinct_keys _ _ Hsame Hnd) Hv)
        as [Hsame1 Hret].
      specialize (Hret v1 eq_refl).
      pose proof (same_objects_trans _ _ _ Hsame Hsame1) as Hsame01.
      pose proof (Hsame01 l) as Hat. rewrite Hl in Hat.
      inversion Hat as [o o1 Hrel Ho Ho1|]; subst.
      destruct o1 as [items1|]; [|done].
      unfold bind, ConfigLoader.dict_setitem. rewrite <- Ho1.
      apply IH with (items0 := items0); try done.
      * intros kv Hkv. apply Hsub. by apply elem_of_cons; right.
      * intros l'. destruct (decide (l' = l)) as [->|Hne].
        -- rewrite Hl, lookup_insert_eq. constructor. simpl.
           apply (assoc_set_same k v); try done.
           ++ by apply (Hnd l).
           ++ apply Hsub. by apply elem_of_cons; left.
        -- rewrite lookup_insert_ne by done. apply Hsame01.
    + intros [= <- <-].
      destruct (Hrec v h _ h1 (same_objects_distinct_keys _ _ Hsame Hnd) Hv)
        as [Hsame1 _].
      by eapply same_objects_trans.
Qed.

Lemma list_loop_strings_only rec l :
  changes_strings_only rec →
  ∀ n i (h0 h : heap) r h',
    ConfigLoader.distinct_keys h0 →
    ConfigLoader.same_objects h0 h →
    ConfigLoader.list_loop rec l i n h = (r, h') →
    ConfigLoader.same_objects h0 h'.
Proof.
  intros Hrec n.
  induction n as [|n IH]; intros i h0 h r h' Hnd Hsame.
  - by intros [= <- <-].
  - cbn [ConfigLoader.list_loop].
    destruct (h !! l) as [[items|elems]|] eqn:Hl;
      try by intros [= <- <-].
    destruct (elems !! i) as [v|] eqn:Hi; [|by intros [= <- <-]].
    unfold bind at 1.
    destruct (rec v h) as [[v1|e] h1] eqn:Hv.
    + destruct (Hrec v h _ h1 (same_objects_distinct_keys _ _ Hsame Hnd) Hv)
        as [Hsame1 Hret].
      specialize (Hret v1 eq_refl).
      pose proof (Hsame1 l) as Hat. rewrite Hl in Hat.
      inversion Hat as [o o1 Hrel Ho Ho1|]; subst.
      destruct o1 as [|elems1]; [done|].
      unfold bind, ConfigLoader.list_setitem. rewrite <- Ho1.
      apply IH; [done|].
      apply (same_objects_trans _ h); [done|].
      intros l'. destruct (decide (l' = l)) as [->|Hne].
      * rewrite Hl, lookup_insert_eq. constructor. simpl.
        rewrite <- (list_insert_id elems i v Hi).
        by apply Forall2_insert.
      * rewrite lookup_insert_ne by done. apply Hsame1.
    + intros [= <- <-].
      destruct (Hrec v h _ h1 (same_objects_distinct_keys _ _ Hsame Hnd) Hv)
        as [Hsame1 _].
      by eapply same_objects_trans.
Qed.

(** On any store whose dictionaries have distinct keys, shared objects
    or not, and whether the injection returns or fails: the objects stay
    where they are, with the same keys and lengths, and an entry is
    either what it was or a string in place of a string. *)
Lemma inject_changes_strings_only d : changes_strings_only (inject d).
Proof.
  induction d as [|d IH]; intros v h r h' Hnd.
  - intros [= <- <-]. split; [apply same_objects_refl|done].
  - destruct v as [| b | z | x | s | l];
      try (intros [= <- <-]; split; [apply same_objects_refl|];
           intros ? [= <-]; apply same_or_strings_refl).
    + intros Hrun.
      destruct (inject_string_outcome environ (S d) s h r h' Hrun)
        as (-> & _ & Hstr).
      split; [apply same_objects_refl|].
      intros v' ->. by destruct (Hstr v' eq_refl) as (s' & -> & _).
    + cbn [ConfigLoader.inject_env_vars].
      destruct (h !! l) as [[items|elems]|] eqn:Hl; unfold bind.
      * destruct (ConfigLoader.dict_loop _ l items h) as [[[]|e] h1] eqn:Hloop;
          intros [= <- <-];
          (split; [|intros ? [= <-]; apply same_or_strings_refl]);
          eapply (dict_loop_strings_only _ l IH items h h items);
          eauto using same_objects_refl.
      * destruct (ConfigLoader.list_loop _ l 0 _ h) as [[[]|e] h1] eqn:Hloop;
          intros [= <- <-];
          (split; [|intros ? [= <-]; apply same_or_strings_refl]);
          eapply (list_loop_strings_only _ l IH _ 0 h h);
          eauto using same_objects_refl.
      * intros [= <- <-]. split; [apply same_objects_refl|done].
Qed.

(** Called on a reference, the injection returns that reference, in
    whatever store. *)
Lemma inject_returns_reference d (h h' : heap) l v' :
  inject d (ConfigLoader.VRef l) h = (Ret v', h') → v' = ConfigLoader.VRef l.
Proof.
  destruct d as [|d]; [done|]. cbn [ConfigLoader.inject_env_vars].
  destruct (h !! l) as [[items|elems]|]; [| |done]; unfold bind.
  - destruct (ConfigLoader.dict_loop _ l items h) as [[[]|e] h1]; [|done].
    by intros [= <- <-].
  - destruct (ConfigLoader.list_loop _ l 0 _ h) as [[[]|e] h1]; [|done].
    by intros [= <- <-].
Qed.

(** C10. When the injection is called on a dictionary or a list and
    returns, the value returned is the reference passed in: the very
    object of the caller. Every object of the store is still in its
    place, with the same keys or the same length, and each of its entries
    is what it was or a string where a string was. For a tree laid out in
    the store, the objects the tree is made of now hold the injected
    tree, which differs from the original in its string leaves at most,
    and the rest of the store is untouched. *)
Theorem inject_env_vars_in_place (d n : nat) (h h' : heap)
    (l : ConfigLoader.loc) (v' : ConfigLoader.val) (t : pyval)
    (fp : gset ConfigLoader.loc) :
  inject d (ConfigLoader.VRef l) h = (Ret v', h') →
  v' = ConfigLoader.VRef l ∧
  (ConfigLoader.distinct_keys h → ConfigLoader.same_objects h h') ∧
  (laid_out n h (ConfigLoader.VRef l) t fp →
   (∃ t', inject_t d t = Ret t' ∧
          laid_out n h' (ConfigLoader.VRef l) t' fp ∧
          ConfigLoader.same_but_strings t t' = true) ∧
   (∀ l', l' ∉ fp → h' !! l' = h !! l')).
Proof.
  intros Hrun.
  pose proof (inject_returns_reference d h h' l v' Hrun) as ->.
  split; [done|]. split.
  - intros Hnd. by apply (inject_changes_strings_only d _ h _ h' Hnd Hrun).
  - intros Hlaid.
    destruct (inject_computes d n h _ t fp _ h' Hlaid Hrun)
      as (Hframe & t' & Ht' & Hlaid' & _ & _).
    split; [|done].
    exists t'. split; [done|]. split; [done|].
    by apply (inject_tree_shape d).
Qed.

End LayoutFacts.

(** *** The example of the docstring, in the store *)

Definition docstring_leaf : string :=
  "A string with a {$SECRET1} and a {$SECRET2}.".

Definition docstring_tree : pyval :=
  PyDict [("key1", PyStr docstring_leaf);
          ("key2", PyDict [("key3", PyStr docstring_leaf);
                           ("key4", PyList [PyStr docstring_leaf;
                                            PyStr docstring_leaf])])].

Definition docstring_store : gmap ConfigLoader.loc ConfigLoader.obj :=
  {[ 1%positive :=
       ConfigLoader.ODict [("key1", ConfigLoader.VStr docstring_leaf);
                           ("key2", ConfigLoader.VRef 2%positive)];
     2%positive :=
       ConfigLoader.ODict [("key3", ConfigLoader.VStr docstring_leaf);
                           ("key4", ConfigLoader.VRef 3%positive)];
     3%positive :=
       ConfigLoader.OList [ConfigLoader.VStr docstring_leaf;
                           ConfigLoader.VStr docstring_leaf] ]}.

Definition docstring_footprint : gset ConfigLoader.loc :=
  {[1%positive]} ∪ ⋃ [∅; {[2%positive]} ∪ ⋃ [∅; {[3%positive]} ∪ ⋃ [∅; ∅]]].

(** Side conditions of a layout given with explicit footprints. *)
Ltac footprints :=
  cbn [ConfigLoader.pairwise_disjoint fmap list_fmap fst snd];
  repeat split; repeat constructor; set_solver.

Lemma docstring_laid_out :
  ConfigLoader.laid_out 3 docstring_store (ConfigLoader.VRef 1%positive)
    docstring_tree docstring_footprint.
Proof.
  exists [("key1", (ConfigLoader.VStr docstring_leaf, PyStr docstring_leaf, ∅));
          ("key2", (ConfigLoader.VRef 2%positive,
                    PyDict [("key3", PyStr docstring_leaf);
                            ("key4", PyList [PyStr docstring_leaf;
                                             PyStr docstring_leaf])],
                    {[2%positive]} ∪ ⋃ [∅; {[3%positive]} ∪ ⋃ [∅; ∅]]))].
  split; [reflexivity|]. split; [reflexivity|].
  split; [repeat constructor; set_solver|].
  split; [|split; [footprints|split; [footprints|reflexivity]]].
  constructor; [done|]. constructor; [|constructor]. cbn [fst snd].
  exists [("key3", (ConfigLoader.VStr docstring_leaf, PyStr docstring_leaf, ∅));
          ("key4", (ConfigLoader.VRef 3%positive,
                    PyList [PyStr docstring_leaf; PyStr docstring_leaf],
                    {[3%positive]} ∪ ⋃ [∅; ∅]))].
  split; [reflexivity|]. split; [reflexivity|].
  split; [repeat constructor; set_solver|].
  split; [|split; [footprints|split; [footprints|reflexivity]]].
  constructor; [done|]. constructor; [|constructor]. cbn [fst snd].
  exists [(ConfigLoader.VStr docstring_leaf, PyStr docstring_leaf, ∅);
          (ConfigLoader.VStr docstring_leaf, PyStr docstring_leaf, ∅)].
  split; [reflexivity|]. split; [reflexivity|].
  split; [|split; [footprints|split; [footprints|reflexivity]]].
  repeat constructor.
Qed.

Definition docstring_injected : gmap ConfigLoader.loc ConfigLoader.obj :=
  snd (ConfigLoader.inject_env_vars secrets 10 (ConfigLoader.VRef 1%positive)
         docstring_store).

Example docstring_injected_key1 :
  docstring_injected !! 1%positive
  = Some (ConfigLoader.ODict
            [("key1", ConfigLoader.VStr "A string with a secret1 and a secret2.");
             ("key2", ConfigLoader.VRef 2%positive)]).
Proof. vm_compute. reflexivity. Qed.

Lemma inject_env_vars_idempotent_witness :
  ConfigLoader.inject_env_vars secrets 10 (ConfigLoader.VRef 1%positive)
    docstring_injected
  = (Ret (ConfigLoader.VRef 1%positive), docstring_injected).
Proof.
  apply (inject_env_vars_idempotent secrets 10 3 docstring_store
           docstring_injected (ConfigLoader.VRef 1%positive) (ConfigLoader.VRef 1%positive)
           docstring_tree docstring_footprint).
  - exact docstring_laid_out.
  - vm_compute. reflexivity.
Defined.

Lemma inject_env_vars_in_place_witness :
  (∃ t', ConfigLoader.inject_tree secrets 10 docstring_tree = Ret t' ∧
         ConfigLoader.laid_out 3 docstring_injected
           (ConfigLoader.VRef 1%positive) t' docstring_footprint ∧
         ConfigLoader.same_but_strings docstring_tree t' = true) ∧
  (∀ l', l' ∉ docstring_footprint →
         docstring_injected !! l' = docstring_store !! l').
Proof.
  refine (proj2 (proj2 (inject_env_vars_in_place secrets 10 3 docstring_store
                          docstring_injected 1%positive
                          (ConfigLoader.VRef 1%positive)
                          docstring_tree docstring_footprint _)) _).
  - vm_compute. reflexivity.
  - exact docstring_laid_out.
Defined.

(** *** Two placeholders, neither variable set *)

Definition two_unset_store : gmap ConfigLoader.loc ConfigLoader.obj :=
  {[ 1%positive :=
       ConfigLoader.OList [ConfigLoader.VStr "{$A}"; ConfigLoader.VStr "{$B}"] ]}.

Definition two_unset_tree : pyval := PyList [PyStr "{$A}"; PyStr "{$B}"].

Lemma two_unset_laid_out :
  ConfigLoader.laid_out 1 two_unset_store (ConfigLoader.VRef 1%positive)
    two_unset_tree ({[1%positive]} ∪ ⋃ [∅; ∅]).
Proof.
  exists [(ConfigLoader.VStr "{$A}", PyStr "{$A}", ∅);
          (ConfigLoader.VStr "{$B}", PyStr "{$B}", ∅)].
  split; [reflexivity|]. split; [reflexivity|].
  split; [|split; [footprints|split; [footprints|reflexivity]]].
  repeat constructor.
Qed.

(** C7 as stated fails: the list holds the string "{$B}", a placeholder
    for B, and B is not set; yet the error the injection raises names A,
    the first variable it misses, and not B. *)
Lemma missing_variable_error_names_first :
  ConfigLoader.re_search "{$B}" = Some "{$B}" ∧
  ConfigLoader.var_name "{$B}" = "B" ∧
  (∅ : gmap string string) !! "B" = None ∧
  ConfigLoader.inject_env_vars ∅ 5 (ConfigLoader.VRef 1%positive) two_unset_store
  = (Raise (ConfigLoader.missing_variable "A"), two_unset_store) ∧
  exn_msg (ConfigLoader.missing_variable "A")
  = "Failed to inject environment variable. A was not found." ∧
  ConfigLoader.missing_variable "A" ≠ ConfigLoader.missing_variable "B".
Proof.
  split; [reflexivity|]. split; [reflexivity|]. split; [reflexivity|].
  split; [vm_compute; reflexivity|]. split; [reflexivity|]. discriminate.
Qed.

(** A list whose second string first names a variable that is set and
    then one that is not. *)
Definition token_store : gmap ConfigLoader.loc ConfigLoader.obj :=
  {[ 1%positive :=
       ConfigLoader.OList [ConfigLoader.VStr "{$SECRET1}";
                           ConfigLoader.VStr "{$SECRET1} {$TOKEN}"] ]}.

Definition token_tree : pyval :=
  PyList [PyStr "{$SECRET1}"; PyStr "{$SECRET1} {$TOKEN}"].

Lemma token_laid_out :
  ConfigLoader.laid_out 1 token_store (ConfigLoader.VRef 1%positive)
    token_tree ({[1%positive]} ∪ ⋃ [∅; ∅]).
Proof.
  exists [(ConfigLoader.VStr "{$SECRET1}", PyStr "{$SECRET1}", ∅);
          (ConfigLoader.VStr "{$SECRET1} {$TOKEN}",
           PyStr "{$SECRET1} {$TOKEN}", ∅)].
  split; [reflexivity|]. split; [reflexivity|].
  split; [|split; [footprints|split; [footprints|reflexivity]]].
  repeat constructor.
Qed.

Lemma token_first_unset : first_unset secrets 3 token_tree "TOKEN".
Proof.
  apply (first_unset_element secrets 2 [PyStr "{$SECRET1}"]
           [PyStr "secret1"] (PyStr "{$SECRET1} {$TOKEN}") [] "TOKEN").
  - vm_compute. reflexivity.
  - apply (first_unset_later secrets 1 "{$SECRET1} {$TOKEN}" "{$SECRET1}"
             "secret1" "TOKEN"); [reflexivity|reflexivity|].
    apply (first_unset_here secrets 0 "secret1 {$TOKEN}" "{$TOKEN}");
      reflexivity.
Qed.

Lemma inject_env_vars_missing_witness :
  ∃ h', ConfigLoader.inject_env_vars secrets 3 (ConfigLoader.VRef 1%positive)
          token_store
        = (Raise (ConfigLoader.missing_variable "TOKEN"), h') ∧
        exn_msg (ConfigLoader.missing_variable "TOKEN")
        = "Failed to inject environment variable. TOKEN was not found.".
Proof.
  apply (proj1 (inject_env_vars_missing secrets 3 1 token_store
                  (ConfigLoader.VRef 1%positive) token_tree _ token_laid_out)
           "TOKEN").
  exact token_first_unset.
Defined.

(* ===================================================================== *)
(** * Further properties of the code                                       *)
(* ===================================================================== *)

Local Open Scope string_scope.

(** ** Datasets that delegate to datasets *)

(** Guarding a guarded call changes nothing: what the inner clauses let
    out is either returned, or a [DatasetError], or no [Exception]. *)
Lemma try_except_guard_twice {D : Type} (n1 n2 : D -> string) op1 op2
    (body : M D pyval) (self : D) :
  try_except (try_except body (except_clauses n1 op1))
    (except_clauses n2 op2) self
  = try_except body (except_clauses n1 op1) self.
Proof.
  destruct (try_except body (except_clauses n1 op1) self) as [r s'] eqn:Hin.
  unfold try_except at 1. rewrite Hin.
  destruct r as [v|e0]; [done|].
  assert (Hout : isinstance e0 DatasetError = true ∨
                 isinstance e0 Exception = false).
  { unfold try_except in Hin.
    destruct (body self) as [[v|e] self']; [done|].
    unfold except_clauses in Hin.
    destruct (isinstance e DatasetError) eqn:Hd.
    - injection Hin as <- <-. by left.
    - destruct (isinstance e Exception) eqn:He.
      + injection Hin as <- <-. by left.
      + injection Hin as <- <-. by right. }
  unfold except_clauses.
  destruct Hout as [Hd | He].
  - by rewrite Hd.
  - destruct (isinstance e0 DatasetError) eqn:Hd; [done|]. by rewrite He.
Qed.

(** A dataset class whose private methods are the public methods of
    another dataset [inner] kept in the same object, under a name of its
    own. *)
Definition delegating {D : Type} (inner : AbstractDataset.Backend D)
    (outer_name : D -> string) : AbstractDataset.Backend D := {|
  AbstractDataset.name := outer_name;
  AbstractDataset._read := @AbstractDataset.read D inner;
  AbstractDataset._write := @AbstractDataset.write D inner;
  AbstractDataset._create := @AbstractDataset.create D inner;
  AbstractDataset._delete := @AbstractDataset.delete D inner;
  AbstractDataset._initialize := @AbstractDataset.initialize D inner;
  AbstractDataset._describe := @AbstractDataset._describe D inner;
  AbstractDataset._exists := @AbstractDataset.exists_ D inner
|}.

(** X1. The public methods of a delegating dataset behave as those of
    the dataset it delegates to, whatever its own name: a failure is
    wrapped once, under the inner dataset's name, and a success or an
    interrupt passes through both layers. *)
Theorem delegation_wraps_once {D : Type} (inner : AbstractDataset.Backend D)
    (outer_name : D -> string) (op : operation) (a : args) (kw : kwargs)
    (self : D) :
  @AbstractDataset.public D (delegating inner outer_name) op a kw self
  = @AbstractDataset.public D inner op a kw self.
Proof.
  destruct op; cbn [AbstractDataset.public];
    unfold AbstractDataset.read, AbstractDataset.write, AbstractDataset.create,
      AbstractDataset.delete, AbstractDataset.exists_,
      AbstractDataset.initialize;
    cbn [delegating AbstractDataset._read AbstractDataset._write
         AbstractDataset._create AbstractDataset._delete
         AbstractDataset._exists AbstractDataset._initialize
         AbstractDataset.name];
    unfold AbstractDataset.read, AbstractDataset.write, AbstractDataset.create,
      AbstractDataset.delete, AbstractDataset.exists_,
      AbstractDataset.initialize;
    apply try_except_guard_twice.
Qed.

(** ** The poison pill, read back *)

Section PillFacts.
Context {D : Type} {U : Type}.

Abbreviation pworld := (@AbstractNode.world D U).

(** X2. Reading the state of the pill through its handle changes
    nothing; a pill just created reads as inactive; and once a node has
    activated the pill, every read through the handle gives [True]. *)
Theorem get_state_reads_activation (w : pworld) h p :
  AbstractNode.poison_pill (AbstractNode.self w) = Some h →
  AbstractNode.actors w !! h = Some p →
  AbstractNode.remote h PoisonPill.GetState w
    = (Ret (PyBool (PoisonPill.state p)), w) ∧
  fst (PoisonPill.get_state PoisonPill.init) = Ret (PyBool false) ∧
  (let w1 := snd (AbstractNode.activate_poison_pill w) in
   AbstractNode.remote h PoisonPill.GetState w1 = (Ret (PyBool true), w1)).
Proof.
  intros Hh Hp. split; [|split; [reflexivity|]].
  - unfold AbstractNode.remote. rewrite Hp. simpl.
    unfold AbstractNode.set_actors. rewrite (insert_id _ _ _ Hp).
    by destruct w.
  - unfold AbstractNode.activate_poison_pill. rewrite Hh.
    unfold bind, AbstractNode.remote. rewrite Hp. simpl.
    rewrite lookup_insert_eq. simpl. unfold AbstractNode.set_actors. simpl.
    by rewrite insert_insert_eq.
Qed.

End PillFacts.

(** ** execute fails fast *)

Section ExecuteFailure.
Context {D : Type} {backend : AbstractDataset.Backend D} {U : Type}.
Variable LOGGING_DATASET : string.
Variable format_exc : exn -> string.
Context {subclass : @AbstractNode.Subclass D U}.

Abbreviation fworld := (@AbstractNode.world D U).
Abbreviation flog := (@AbstractNode.log D _ U LOGGING_DATASET).
Abbreviation fexecute_loop :=
  (@AbstractNode.execute_loop D _ U LOGGING_DATASET format_exc _).
Abbreviation fexecute :=
  (@AbstractNode.execute D _ U LOGGING_DATASET format_exc _).
Abbreviation freraise :=
  (@AbstractNode.log_and_reraise D _ U LOGGING_DATASET format_exc).

(** What the caller of [execute] gets when a hook or the step raised
    [e] and left the node in [w]: an [Exception] is logged at level debug
    and raised again, unless the logging fails, in which case that
    failure is what is raised; anything else is not caught. *)
Definition handled (e : exn) (w : fworld) : result pyval * fworld :=
  if isinstance e Exception then
    match flog (format_exc e) "debug" w with
    | (Ret _, w') => (Raise e, w')
    | (Raise e', w') => (Raise e', w')
    end
  else (Raise e, w).

Lemma guarded_failure (body : M fworld pyval) w e w1 :
  body w = (Raise e, w1) →
  try_except body freraise w = handled e w1.
Proof.
  intros Hb. unfold try_except, handled. rewrite Hb.
  unfold AbstractNode.log_and_reraise.
  destruct (isinstance e Exception); [|done].
  unfold bind, AbstractNode._log_traceback.
  by destruct (flog _ _ w1) as [[?|?] ?].
Qed.

(** [n] iterations of the loop of [execute], none of which ends it. *)
Inductive loop_prefix (prms : pyval) : nat -> fworld -> fworld -> Prop :=
  | loop_prefix_none w : loop_prefix prms 0 w w
  | loop_prefix_step n w r w1 w' :
      AbstractNode._execute prms w = (Ret r, w1) →
      r ≠ PyBool false →
      loop_prefix prms n w1 w' →
      loop_prefix prms (S n) w w'.

Lemma execute_loop_after_prefix prms n fuel w w1 :
  loop_prefix prms n w w1 →
  fexecute_loop (n + fuel) prms w = fexecute_loop fuel prms w1.
Proof.
  induction 1 as [|n w r w1 w' Hstep Hne _ IH]; [done|].
  cbn [Nat.add AbstractNode.execute_loop]. unfold try_except.
  rewrite Hstep. destruct r as [|[]| | | | |]; done.
Qed.

(** Where [execute] fails: in the pre-loop hook, or in the step after
    [n] iterations that went through, with [e] raised and the node left
    as [w2]. *)
Definition fails_in (fuel : nat) (p : pyval) (w : fworld) (e : exn)
    (w2 : fworld) : Prop :=
  AbstractNode._pre_loop_hook p w = (Raise e, w2) ∨
  ∃ r0 w0 n w1,
    AbstractNode._pre_loop_hook p w = (Ret r0, w0) ∧
    loop_prefix p n w0 w1 ∧ (n < fuel)%nat ∧
    AbstractNode._execute p w1 = (Raise e, w2).

Lemma execute_failure fuel prms (w : fworld) e w2 :
  fails_in fuel (AbstractNode.or_empty_dict prms) w e w2 →
  fexecute fuel prms w = Some (handled e w2).
Proof.
  unfold AbstractNode.execute.
  intros [Hpre | (r0 & w0 & n & w1 & Hpre & Hprefix & Hn & Hstep)].
  - rewrite (guarded_failure _ _ _ _ Hpre).
    unfold handled. destruct (isinstance e Exception); [|done].
    by destruct (flog _ _ w2) as [[?|?] ?].
  - unfold try_except at 1. rewrite Hpre.
    replace fuel with (n + S (fuel - S n))%nat by lia.
    rewrite (execute_loop_after_prefix _ n _ w0 w1 Hprefix).
    cbn [AbstractNode.execute_loop].
    rewrite (guarded_failure _ _ _ _ Hstep).
    unfold handled. destruct (isinstance e Exception); [|done].
    by destruct (flog _ _ w2) as [[?|?] ?].
Qed.

(** X3. When the pre-loop hook, or the step in some iteration, raises
    an [Exception] [e] and the traceback can be logged, [execute] logs it
    at level debug and raises [e] itself; the node is left as the logging
    left it: no later iteration, no completion line and no post-loop
    hook. *)
Theorem execute_logs_and_reraises fuel prms (w w2 w3 : fworld) e r :
  fails_in fuel (AbstractNode.or_empty_dict prms) w e w2 →
  isinstance e Exception = true →
  flog (format_exc e) "debug" w2 = (Ret r, w3) →
  fexecute fuel prms w = Some (Raise e, w3).
Proof.
  intros Hfail He Hlog. rewrite (execute_failure _ _ _ _ _ Hfail).
  unfold handled. by rewrite He, Hlog.
Qed.

(** X4. When the traceback cannot be logged, the failure of the logging
    is what [execute] raises, and the exception of the hook or step is
    not raised: on a node without the logging output, every [Exception]
    raised by user code reaches the caller as the [KeyError] for the
    logging dataset, and with "debug" not among the node's levels as the
    invalid-level error. *)
Theorem execute_logging_failure_masks fuel prms (w w2 : fworld) e :
  fails_in fuel (AbstractNode.or_empty_dict prms) w e w2 →
  isinstance e Exception = true →
  (∀ e' w3, flog (format_exc e) "debug" w2 = (Raise e', w3) →
            fexecute fuel prms w = Some (Raise e', w3)) ∧
  ("debug" ∈ AbstractNode.log_levels (AbstractNode.self w2) →
   AbstractNode.outputs (AbstractNode.self w2) !! LOGGING_DATASET = None →
   fexecute fuel prms w
   = Some (Raise (mk_exn KeyError (AbstractNode.repr_key LOGGING_DATASET) None),
           w2)) ∧
  ("debug" ∉ AbstractNode.log_levels (AbstractNode.self w2) →
   fexecute fuel prms w
   = Some (Raise (AbstractNode.invalid_level "debug"
                    (AbstractNode.log_levels (AbstractNode.self w2))), w2)).
Proof.
  intros Hfail He. rewrite (execute_failure _ _ _ _ _ Hfail).
  unfold handled. rewrite He. split; [|split].
  - intros e' w3 ->. done.
  - intros Hin Hnone. unfold AbstractNode.log.
    rewrite bool_decide_eq_true_2 by done. cbn [negb].
    unfold bind, AbstractNode.outputs_write. by rewrite Hnone.
  - intros Hnot. unfold AbstractNode.log.
    by rewrite bool_decide_eq_false_2.
Qed.

(** X5. What user code raises that is no [Exception] (an interrupt, an
    exit) leaves [execute] as it is, with nothing logged: the node is as
    the failing hook or step left it. *)
Theorem execute_lets_interrupts_through fuel prms (w w2 : fworld) e :
  fails_in fuel (AbstractNode.or_empty_dict prms) w e w2 →
  isinstance e Exception = false →
  fexecute fuel prms w = Some (Raise e, w2).
Proof.
  intros Hfail He. rewrite (execute_failure _ _ _ _ _ Hfail).
  unfold handled. by rewrite He.
Qed.

End ExecuteFailure.

(** ** Test mode: setup_test, run_test, run_test_yield *)

Section TestModeFacts.
Context {D : Type} {backend : AbstractDataset.Backend D} {U : Type}.
Variable LOGGING_DATASET : string.
Variable new_FakeDatasetInput :
  string -> string -> list pyval -> FakeDatasetInput.t.
Context {subclass : @AbstractNode.Subclass D U}.

Abbreviation mworld := (@AbstractNode.world D U).
Abbreviation msetup_test :=
  (@AbstractNode.setup_test D U LOGGING_DATASET new_FakeDatasetInput).
Abbreviation mrun_test := (@AbstractNode.run_test D U _).
Abbreviation mrun_test_loop := (@AbstractNode.run_test_loop D U _).
Abbreviation mrun_test_yield := (@AbstractNode.run_test_yield D U _).
Abbreviation mrun_test_yield_loop := (@AbstractNode.run_test_yield_loop D U _).

(** X6. On a node that is not in test mode, [setup_test], [run_test]
    and [run_test_yield] raise the same [RuntimeError] and touch nothing:
    no double is installed, the clock is not read, no hook and no step is
    called, nothing is handed over. After [enable_test_mode], on any node,
    [setup_test] returns. *)
Theorem test_mode_is_required (w : mworld) ins outs prms fuel runtime :
  (AbstractNode.test (AbstractNode.self w) = false →
   msetup_test ins outs prms w = (Raise AbstractNode.not_in_test_mode, w) ∧
   mrun_test fuel runtime w = Some (Raise AbstractNode.not_in_test_mode, w) ∧
   mrun_test_yield fuel runtime w
     = Some (Raise AbstractNode.not_in_test_mode, w, [])) ∧
  (∃ w', msetup_test ins outs prms (snd (AbstractNode.enable_test_mode w))
         = (Ret PyNone, w')).
Proof.
  split.
  - intros Htest. unfold AbstractNode.setup_test, AbstractNode.run_test,
      AbstractNode.run_test_yield. by rewrite Htest.
  - unfold AbstractNode.setup_test. simpl. eauto.
Qed.

Lemma list_to_map_fmap_absent {B : Type} (g : string -> B) (l : list string)
    (k : string) :
  k ∉ l →
  (list_to_map ((fun x => (x, g x)) <$> l) : gmap string B) !! k = None.
Proof.
  intros Hk. apply not_elem_of_list_to_map_1.
  rewrite <- list_fmap_compose. intros Hin.
  apply list_elem_of_fmap in Hin as (x & -> & Hx). done.
Qed.

(** X7. What [setup_test] installs on a node in test mode: as inputs,
    in the order given, one double per input name built from the values
    given; as outputs, exactly the names asked for and the logging
    dataset, each an output double that holds no value, a name asked for
    twice counting once; as parameters, the ones given, or an empty
    dictionary. The rest of the node, the actors and the clock are left
    alone. *)
Theorem setup_test_installs (w : mworld) ins outs prms :
  AbstractNode.test (AbstractNode.self w) = true →
  ∃ w', msetup_test ins outs prms w = (Ret PyNone, w') ∧
    AbstractNode.inputs (AbstractNode.self w')
      = (fun kv => (kv.1, AbstractNode.InFake
                            (new_FakeDatasetInput kv.1
                               (AbstractNode.class_name (AbstractNode.self w))
                               kv.2))) <$> default [] ins ∧
    (∀ k, AbstractNode.outputs (AbstractNode.self w') !! k
          = if bool_decide (k ∈ default [] outs ∨ k = LOGGING_DATASET)
            then Some (AbstractNode.OutFake
                         (FakeDatasetOutput.mk k
                            (AbstractNode.class_name (AbstractNode.self w)) []))
            else None) ∧
    AbstractNode.params (AbstractNode.self w')
      = (if truthy prms then prms else PyDict []) ∧
    AbstractNode.set_params (AbstractNode.params (AbstractNode.self w))
      (AbstractNode.set_outputs (AbstractNode.outputs (AbstractNode.self w))
         (AbstractNode.set_inputs (AbstractNode.inputs (AbstractNode.self w))
            (AbstractNode.self w')))
      = AbstractNode.self w ∧
    AbstractNode.actors w' = AbstractNode.actors w ∧
    AbstractNode.clock w' = AbstractNode.clock w ∧
    AbstractNode.clock_reads w' = AbstractNode.clock_reads w.
Proof.
  intros Htest. unfold AbstractNode.setup_test. rewrite Htest.
  cbn [negb]. eexists. split; [reflexivity|].
  cbn [AbstractNode.self AbstractNode.set_self AbstractNode.set_params
       AbstractNode.set_outputs AbstractNode.set_inputs AbstractNode.inputs
       AbstractNode.outputs AbstractNode.params AbstractNode.actors
       AbstractNode.clock AbstractNode.clock_reads].
  split.
  { apply list_fmap_ext. intros i [k vals] _. reflexivity. }
  split.
  { intros k. unfold AbstractNode.TESTING_NODE_DATASETS.
    destruct (bool_decide _) eqn:Hk.
    - apply bool_decide_eq_true in Hk.
      apply (list_to_map_fmap_key
               (fun k => AbstractNode.OutFake
                           (FakeDatasetOutput.new k
                              (AbstractNode.class_name (AbstractNode.self w))))).
      set_solver.
    - apply bool_decide_eq_false in Hk.
      apply (list_to_map_fmap_absent
               (fun k => AbstractNode.OutFake
                           (FakeDatasetOutput.new k
                              (AbstractNode.class_name (AbstractNode.self w))))).
      set_solver. }
  split; [reflexivity|]. split; [|done].
  by destruct w as [[] ? ? ?].
Qed.

(** X8. [setup_test] starts afresh: called a second time, it leaves the
    node exactly as if the first call had never been made. *)
Theorem setup_test_last_call_wins (w : mworld) ins1 outs1 prms1
    ins2 outs2 prms2 :
  AbstractNode.test (AbstractNode.self w) = true →
  AbstractNode.setup_test LOGGING_DATASET new_FakeDatasetInput
    ins2 outs2 prms2
    (snd (AbstractNode.setup_test LOGGING_DATASET new_FakeDatasetInput
            ins1 outs1 prms1 w))
  = AbstractNode.setup_test LOGGING_DATASET new_FakeDatasetInput
      ins2 outs2 prms2 w.
Proof.
  intros Htest. unfold AbstractNode.setup_test. rewrite Htest.
  cbn [negb snd AbstractNode.self AbstractNode.set_self AbstractNode.set_params
       AbstractNode.set_outputs AbstractNode.set_inputs AbstractNode.test
       AbstractNode.class_name].
  rewrite Htest. reflexivity.
Qed.

(** [n] iterations of the loop of [run_test], none of which ends it. *)
Inductive test_prefix (runtime : option Z) (start_time : Z)
    : nat -> mworld -> mworld -> Prop :=
  | test_prefix_none w : test_prefix runtime start_time 0 w w
  | test_prefix_step n w r w1 w' :
      AbstractNode._execute (AbstractNode.params (AbstractNode.self w)) w
        = (Ret r, w1) →
      r ≠ PyBool false →
      budget_spent runtime start_time w1 = false ∨
      AbstractNode.inputs_exhausted
        (AbstractNode.inputs (AbstractNode.self (after_clock runtime w1)))
        = Ret false →
      test_prefix runtime start_time n (after_clock runtime w1) w' →
      test_prefix runtime start_time (S n) w w'.

Lemma run_test_loop_after_prefix runtime start_time n fuel w w1 :
  test_prefix runtime start_time n w w1 →
  mrun_test_loop (n + fuel) runtime start_time w
  = mrun_test_loop fuel runtime start_time w1.
Proof.
  induction 1 as [|n w r w1 w' Hstep Hne Hor _ IH]; [done|].
  cbn [Nat.add].
  rewrite (run_test_loop_step _ runtime start_time w w1 r Hstep). cbv zeta.
  assert (Hf : is_False r = false).
  { destruct (is_False r) eqn:Hf; [|done]. by apply is_False_spec in Hf. }
  rewrite Hf. destruct Hor as [-> | ->]; [done|].
  by destruct (budget_spent _ _ _).
Qed.

(** X9. [run_test] has no handler around user code: whatever the
    pre-loop hook raises, or the step in some iteration, an [Exception]
    or not, [run_test] raises that very exception, with nothing logged
    and the node left as the failing call left it; the post-loop hook is
    not called and no outputs are returned. *)
Theorem run_test_propagates_failure fuel runtime (w w2 : mworld) e :
  AbstractNode.test (AbstractNode.self w) = true →
  let start_time := AbstractNode.clock w (AbstractNode.clock_reads w) in
  let w0 := snd (AbstractNode.time_time w) in
  (AbstractNode._pre_loop_hook
     (AbstractNode.params (AbstractNode.self w0)) w0 = (Raise e, w2) ∨
   ∃ r1 w1 n w1',
     AbstractNode._pre_loop_hook
       (AbstractNode.params (AbstractNode.self w0)) w0 = (Ret r1, w1) ∧
     test_prefix runtime start_time n w1 w1' ∧ (n < fuel)%nat ∧
     AbstractNode._execute
       (AbstractNode.params (AbstractNode.self w1')) w1' = (Raise e, w2)) →
  mrun_test fuel runtime w = Some (Raise e, w2).
Proof.
  intros Htest start_time w0 Hfail.
  unfold AbstractNode.run_test. rewrite Htest. cbn [negb].
  change (AbstractNode.time_time w) with (start_time, w0). cbv beta iota.
  destruct Hfail as [Hpre | (r1 & w1 & n & w1' & Hpre & Hprefix & Hn & Hstep)].
  - by rewrite Hpre.
  - rewrite Hpre.
    replace fuel with (n + S (fuel - S n))%nat by lia.
    rewrite (run_test_loop_after_prefix _ _ n _ w1 w1' Hprefix).
    cbn [AbstractNode.run_test_loop]. by rewrite Hstep.
Qed.

(** The loop of [run_test_yield] moves the node as the loop of
    [run_test] does. *)
Lemma run_test_yield_loop_state fuel runtime start_time (w w' : mworld) v ys :
  mrun_test_yield_loop fuel runtime start_time w = Some (Ret v, w', ys) →
  mrun_test_loop fuel runtime start_time w = Some (Ret v, w') ∧
  (length ys ≤ fuel)%nat.
Proof.
  revert w ys. induction fuel as [|fuel IH]; intros w ys; [done|].
  cbn [AbstractNode.run_test_yield_loop AbstractNode.run_test_loop].
  destruct (AbstractNode.capture_consumed _ _) as [consumed|]; [|done].
  destruct (AbstractNode._execute _ w) as [[r|e] w1]; [|done].
  destruct (match runtime with
            | Some rt => _
            | None => (false, w1)
            end) as [skip w2].
  destruct skip.
  - destruct (is_False r).
    + intros [= <- <- <-]. split; [done|simpl; lia].
    + intros Hrest. apply IH in Hrest as [-> ?]. split; [done|lia].
  - destruct (AbstractNode.inputs_exhausted _) as [ex|]; [|done].
    destruct (AbstractNode.capture_produced _) as [produced|]; [|done].
    destruct ex; cbn [orb].
    + intros [= <- <- <-]. split; [done|simpl; lia].
    + destruct (is_False r).
      * intros [= <- <- <-]. split; [done|simpl; lia].
      * destruct (mrun_test_yield_loop fuel runtime start_time w2)
          as [[[r' w''] ys']|] eqn:Hrest; [|done].
        intros [= -> <- <-]. apply IH in Hrest as [-> ?].
        split; [done|simpl; lia].
Qed.

(** Without a [runtime], every iteration hands over a triple. *)
Lemma run_test_yield_loop_count fuel start_time (w w' : mworld) v ys :
  mrun_test_yield_loop fuel None start_time w = Some (Ret v, w', ys) →
  test_run None start_time (length ys) w w'.
Proof.
  revert w ys. induction fuel as [|fuel IH]; intros w ys; [done|].
  cbn [AbstractNode.run_test_yield_loop].
  destruct (AbstractNode.capture_consumed _ _) as [consumed|]; [|done].
  destruct (AbstractNode._execute _ w) as [[r|e] w1] eqn:Hstep; [|done].
  destruct (AbstractNode.inputs_exhausted _) as [ex|] eqn:Hex; [|done].
  destruct (AbstractNode.capture_produced _) as [produced|]; [|done].
  destruct ex; cbn [orb].
  - intros [= <- <- <-].
    by apply (test_run_exhausted None start_time w r w1).
  - destruct (is_False r) eqn:Hf.
    + intros [= <- <- <-]. apply is_False_spec in Hf as ->.
      apply (test_run_False None start_time w w1); [done|by right].
    + destruct (mrun_test_yield_loop fuel None start_time w1)
        as [[[r' w''] ys']|] eqn:Hrest; [|done].
      intros [= -> <- <-]. apply IH in Hrest.
      apply (test_run_next None start_time (length ys') w r w1 w'');
        [done| |by right|done].
      intros ->. done.
Qed.

(** X10. A run of [run_test_yield] that reaches its end leaves the node
    exactly where [run_test] leaves it, having called the hooks and the
    step in the same way, and hands over at most one triple per
    iteration. Without a [runtime] it hands over one triple for every
    call of the step. With a [runtime], an iteration that ends before the
    runtime has passed hands over nothing. *)
Theorem run_test_yield_follows_run_test fuel runtime (w w' : mworld) v ys :
  AbstractNode.test (AbstractNode.self w) = true →
  mrun_test_yield fuel runtime w = Some (Ret v, w', ys) →
  let start_time := AbstractNode.clock w (AbstractNode.clock_reads w) in
  let w0 := snd (AbstractNode.time_time w) in
  (∃ r, mrun_test fuel runtime w = Some (r, w')) ∧
  (length ys ≤ fuel)%nat ∧
  (runtime = None →
   ∃ r1 w1 w2 r3,
     AbstractNode._pre_loop_hook
       (AbstractNode.params (AbstractNode.self w0)) w0 = (Ret r1, w1) ∧
     test_run None start_time (length ys) w1 w2 ∧
     AbstractNode._post_loop_hook
       (AbstractNode.params (AbstractNode.self w2)) w2 = (Ret r3, w')) ∧
  (∀ rt fuel' (u u1 : mworld) r consumed,
     AbstractNode.capture_consumed
       (AbstractNode.inputs (AbstractNode.self u)) ∅ = Ret consumed →
     AbstractNode._execute (AbstractNode.params (AbstractNode.self u)) u
       = (Ret r, u1) →
     budget_spent (Some rt) start_time u1 = false →
     mrun_test_yield_loop (S fuel') (Some rt) start_time u
     = if is_False r
       then Some (Ret PyNone, after_clock (Some rt) u1, [])
       else mrun_test_yield_loop fuel' (Some rt) start_time
              (after_clock (Some rt) u1)).
Proof.
  intros Htest Hrun start_time w0.
  unfold AbstractNode.run_test_yield in Hrun. rewrite Htest in Hrun.
  cbn [negb] in Hrun.
  change (AbstractNode.time_time w) with (start_time, w0) in Hrun.
  cbv beta iota in Hrun.
  destruct (AbstractNode._pre_loop_hook _ w0) as [[r1|e] w1] eqn:Hpre;
    [|done].
  destruct (mrun_test_yield_loop fuel runtime start_time w1)
    as [[[[v2|e] w2] ys2]|] eqn:Hloop; [|done..].
  destruct (AbstractNode._post_loop_hook _ w2) as [[r3|e] w3] eqn:Hpost;
    [|done].
  injection Hrun as <- <- <-.
  pose proof (run_test_yield_loop_state _ _ _ _ _ _ _ Hloop) as [Hstate Hlen].
  split; [|split; [done|split]].
  - unfold AbstractNode.run_test. rewrite Htest. cbn [negb].
    change (AbstractNode.time_time w) with (start_time, w0). cbv beta iota.
    rewrite Hpre, Hstate, Hpost. eauto.
  - intros ->. exists r1, w1, w2, r3. split; [done|]. split; [|done].
    by apply (run_test_yield_loop_count fuel start_time w1 w2 v2).
  - intros rt fuel' u u1 r consumed Hcap Hstep Hb.
    cbn [AbstractNode.run_test_yield_loop]. rewrite Hcap, Hstep.
    unfold budget_spent in Hb. apply negb_false_iff in Hb.
    unfold after_clock. cbn [AbstractNode.time_time snd].
    rewrite Hb. reflexivity.
Qed.

End TestModeFacts.

(** ** _update_params *)

(** The string holds no dollar sign. *)
Fixpoint dollar_free (s : string) : bool :=
  match s with
  | EmptyString => true
  | String c rest => negb (Ascii.eqb c "$"%char) && dollar_free rest
  end.


(** The tree nests less than [depth] deep and has no [None] in it. *)
Fixpoint accepted (depth : nat) (t : pyval) : bool :=
  match depth with
  | O => false
  | S depth' =>
      match t with
      | PyNone => false
      | PyList ts => forallb (accepted depth') ts
      | PyDict kvs => forallb (fun kv => accepted depth' kv.2) kvs
      | _ => true
      end
  end.

(** Every value of the mapping is a string. *)
Definition string_valued (params : list (string * pyval)) : Prop :=
  Forall (fun kv => ∃ s, kv.2 = PyStr s) params.

Lemma replace_from_dollar_free key new s :
  dollar_free s = true →
  ConfigLoader.replace_from (String "$"%char key) new 0 s = s.
Proof.
  induction s as [|c rest IH]; [done|].
  cbn [dollar_free]. intros [Hc Hrest]%andb_true_iff.
  cbn [ConfigLoader.replace_from String.prefix].
  destruct (ascii_dec "$"%char c) as [<-|_]; [done|].
  by rewrite (IH Hrest).
Qed.


Lemma substitute_string_valued params s :
  string_valued params → ∃ s', ConfigLoader.substitute params s = Ret s'.
Proof.
  intros Hp. revert s.
  induction Hp as [|[key val] rest [v Hv] _ IH]; intros s; simpl; [eauto|].
  simpl in Hv. subst val. apply IH.
Qed.

(** X11. With parameters that are all strings, [_update_params]
    returns exactly on the trees that nest less deep than the calls may
    and hold no [None]; the tree returned then differs from the one
    passed in its string leaves at most. On any other tree it raises:
    the [ValueError] for an invalid value type when it reaches a [None]
    first, and otherwise the error of the interpreter for calls nested
    too deep. Booleans, integers and floats are let through. *)
Theorem update_params_outcome depth value params :
  string_valued params →
  match ConfigLoader._update_params depth value params with
  | Ret value' =>
      accepted depth value = true ∧
      ConfigLoader.same_but_strings value value' = true
  | Raise e =>
      accepted depth value = false ∧
      (e = ConfigLoader.invalid_value_type ∨ e = ConfigLoader.recursion_error)
  end.
Proof.
  intros Hp. revert value. induction depth as [|depth IH]; intros value.
  { simpl. eauto. }
  destruct value as [| b | z | x | s | ts | kvs];
    cbn [ConfigLoader._update_params accepted ConfigLoader.same_but_strings].
  - eauto.
  - by rewrite bool_decide_eq_true_2.
  - by rewrite bool_decide_eq_true_2.
  - by rewrite bool_decide_eq_true_2.
  - by destruct (substitute_string_valued params s Hp) as [s' ->].
  - destruct (ConfigLoader.traverse _ ts) as [ts'|e] eqn:Hts.
    + apply traverse_Ret in Hts.
      induction Hts as [|x y xs ys Hxy _ IHf]; [done|].
      specialize (IH x). rewrite Hxy in IH. destruct IH as [Hacc Hsame].
      cbn [forallb]. rewrite Hacc, Hsame. exact IHf.
    + apply traverse_Raise in Hts as (x & Hin & Hx).
      specialize (IH x). rewrite Hx in IH. destruct IH as [Hacc He].
      split; [|done]. apply not_true_is_false. intros Hall.
      rewrite forallb_forall in Hall.
      apply list_elem_of_In in Hin. rewrite (Hall x Hin) in Hacc. done.
  - destruct (ConfigLoader.traverse _ kvs) as [kvs'|e] eqn:Hkvs.
    + apply traverse_Ret in Hkvs.
      induction Hkvs as [|[k x] [k' y] xs ys Hxy _ IHf]; [done|].
      cbn [fst snd] in Hxy. specialize (IH x).
      destruct (ConfigLoader._update_params depth x params) as [t'|]; [|done].
      injection Hxy as <- <-. destruct IH as [Hacc Hsame].
      cbn [forallb snd]. rewrite Hacc, Hsame.
      rewrite bool_decide_eq_true_2 by done. exact IHf.
    + apply traverse_Raise in Hkvs as ([k x] & Hin & Hx).
      cbn [snd] in Hx. specialize (IH x).
      destruct (ConfigLoader._update_params depth x params) as [|e']; [done|].
      injection Hx as ->. destruct IH as [Hacc He].
      split; [|done]. apply not_true_is_false. intros Hall.
      rewrite forallb_forall in Hall.
      apply list_elem_of_In in Hin. specialize (Hall (k, x) Hin).
      cbn [snd] in Hall. congruence.
Qed.


(** X13. A parameter whose value is no string makes [_update_params]
    fail on every string it reaches, with the [TypeError] of
    [str.replace], whether or not the string mentions that parameter;
    the parameters before it in the mapping have to be strings for it to
    be reached. A tree without strings is returned all the same. *)
Theorem update_params_non_string_parameter depth s before key val after :
  string_valued before →
  (∀ v, val ≠ PyStr v) →
  ConfigLoader._update_params (S depth) (PyStr s)
    (before ++ (key, val) :: after)%list
  = Raise (ConfigLoader.replace_type_error val) ∧
  isinstance (ConfigLoader.replace_type_error val) Exception = true ∧
  exn_class (ConfigLoader.replace_type_error val) ≠ ValueError ∧
  ∀ z, ConfigLoader._update_params (S (S depth))
         (PyList [PyInt z; PyBool true])
         (before ++ (key, val) :: after)%list
       = Ret (PyList [PyInt z; PyBool true]).
Proof.
  intros Hbefore Hval. split; [|split; [done|split; [done|]]].
  - cbn [ConfigLoader._update_params].
    assert (Hsub : ∀ s0, ConfigLoader.substitute
                           (before ++ (key, val) :: after)%list s0
                         = Raise (ConfigLoader.replace_type_error val)).
    { clear s. induction Hbefore as [|[k0 v0] rest [v Hv] _ IH]; intros s0.
      - simpl. destruct val as [| | | | v | |]; try done.
        by destruct (Hval v).
      - simpl in Hv. subst v0. simpl. apply IH. }
    by rewrite Hsub.
  - done.
Qed.

Lemma replace_from_skip old new p s :
  ConfigLoader.replace_from old new (String.length p) (p +:+ s)
  = ConfigLoader.replace_from old new 0 s.
Proof.
  induction p as [|c p IH]; [by destruct s|]. exact IH.
Qed.

Lemma prefix_app p s : String.prefix p (p +:+ s) = true.
Proof.
  induction p as [|c p IH]; [by destruct s|].
  change (String c p +:+ s) with (String c (p +:+ s)).
  cbn [String.prefix]. by destruct (ascii_dec c c).
Qed.

(** [replace] at a place where [old] starts. *)
Lemma replace_at_occurrence c old new s :
  ConfigLoader.replace (String c old) new (String c old +:+ s)
  = new +:+ ConfigLoader.replace (String c old) new s.
Proof.
  unfold ConfigLoader.replace.
  change (String c old +:+ s) with (String c (old +:+ s)).
  cbn [ConfigLoader.replace_from].
  change (String c (old +:+ s)) with (String c old +:+ s).
  rewrite prefix_app.
  replace (String.length (String c old) - 1)%nat with (String.length old)
    by (cbn [String.length]; lia).
  by rewrite replace_from_skip.
Qed.

Lemma dollar_free_app s1 s2 :
  dollar_free (s1 +:+ s2) = dollar_free s1 && dollar_free s2.
Proof.
  induction s1 as [|c s1 IH]; [done|].
  change (String c s1 +:+ s2) with (String c (s1 +:+ s2)).
  cbn [dollar_free]. rewrite IH. by rewrite andb_assoc.
Qed.

Lemma app_assoc_string (s1 s2 s3 : string) :
  (s1 +:+ s2) +:+ s3 = s1 +:+ (s2 +:+ s3).
Proof.
  induction s1 as [|c s1 IH]; [done|].
  change (String c s1 +:+ s2) with (String c (s1 +:+ s2)).
  change (String c (s1 +:+ s2) +:+ s3) with (String c ((s1 +:+ s2) +:+ s3)).
  by rewrite IH.
Qed.

(** X14. The parameters are substituted one after the other, in the
    order of the mapping, each in the text the earlier ones left: when a
    key is the beginning of a later key, the placeholder of the longer
    key is taken for the shorter one followed by text, and the value of
    the longer key is never used. The two keys differ, as the keys of a
    mapping do. *)
Theorem update_params_shorter_key_first depth key more v v' :
  more ≠ "" →
  dollar_free v = true →
  dollar_free more = true →
  ConfigLoader._update_params (S depth)
    (PyStr (String "$"%char (key +:+ more)))
    [(key, PyStr v); (key +:+ more, PyStr v')]
  = Ret (PyStr (v +:+ more)).
Proof.
  intros _ Hv Hmore.
  cbn [ConfigLoader._update_params ConfigLoader.substitute].
  change (String "$"%char (key +:+ more))
    with (String "$"%char key +:+ more) at 2.
  rewrite replace_at_occurrence.
  unfold ConfigLoader.replace at 2.
  rewrite (replace_from_dollar_free key v more Hmore).
  unfold ConfigLoader.replace.
  rewrite replace_from_dollar_free; [done|].
  rewrite dollar_free_app. by rewrite Hv, Hmore.
Qed.

(** ** inject_env_vars: more variables, self-reference, failure *)

Section InjectMore.

Abbreviation mstore := (gmap ConfigLoader.loc ConfigLoader.obj).

Lemma dict_loop_returns_same
    (rec rec' : ConfigLoader.val -> M mstore ConfigLoader.val) l :
  (∀ v h v' h', rec v h = (Ret v', h') → rec' v h = (Ret v', h')) →
  ∀ snapshot (h h' : mstore),
    ConfigLoader.dict_loop rec l snapshot h = (Ret tt, h') →
    ConfigLoader.dict_loop rec' l snapshot h = (Ret tt, h').
Proof.
  intros Hrec snapshot. induction snapshot as [|[k v] rest IH]; intros h h';
    [done|].
  cbn [ConfigLoader.dict_loop]. unfold bind.
  destruct (rec v h) as [[v'|e] h1] eqn:Hv; [|done].
  rewrite (Hrec _ _ _ _ Hv).
  destruct (ConfigLoader.dict_setitem l k v' h1) as [[[]|e] h2]; [|done].
  apply IH.
Qed.

Lemma list_loop_returns_same
    (rec rec' : ConfigLoader.val -> M mstore ConfigLoader.val) l :
  (∀ v h v' h', rec v h = (Ret v', h') → rec' v h = (Ret v', h')) →
  ∀ n i (h h' : mstore),
    ConfigLoader.list_loop rec l i n h = (Ret tt, h') →
    ConfigLoader.list_loop rec' l i n h = (Ret tt, h').
Proof.
  intros Hrec n. induction n as [|n IH]; intros i h h'; [done|].
  cbn [ConfigLoader.list_loop].
  destruct (h !! l) as [[items|elems]|]; [done| |done].
  destruct (elems !! i) as [v|]; [|done]. unfold bind.
  destruct (rec v h) as [[v'|e] h1] eqn:Hv; [|done].
  rewrite (Hrec _ _ _ _ Hv).
  destruct (ConfigLoader.list_setitem l i v' h1) as [[[]|e] h2]; [|done].
  apply IH.
Qed.

Lemma inject_returns_same (environ environ' : gmap string string) :
  environ ⊆ environ' →
  ∀ d d', (d ≤ d')%nat →
  ∀ v (h : mstore) v' h',
    ConfigLoader.inject_env_vars environ d v h = (Ret v', h') →
    ConfigLoader.inject_env_vars environ' d' v h = (Ret v', h').
Proof.
  intros Hsub d. induction d as [|d IH]; intros d' Hd v h v' h'; [done|].
  destruct d' as [|d']; [lia|].
  assert (Hd' : (d ≤ d')%nat) by lia.
  destruct v as [| b | z | x | s | l]; try done;
    cbn [ConfigLoader.inject_env_vars].
  - destruct (ConfigLoader.re_search s) as [m|]; [|done].
    destruct (environ !! ConfigLoader.var_name m) as [value|] eqn:Henv;
      [|done].
    rewrite (lookup_weaken _ _ _ _ Henv Hsub). by apply IH.
  - destruct (h !! l) as [[items|elems]|]; [| |done]; unfold bind.
    + destruct (ConfigLoader.dict_loop _ l items h) as [[[]|e] h1] eqn:Hloop;
        [|done].
      rewrite (dict_loop_returns_same _ _ l (IH d' Hd') _ _ _ Hloop). done.
    + destruct (ConfigLoader.list_loop _ l 0 _ h) as [[[]|e] h1] eqn:Hloop;
        [|done].
      rewrite (list_loop_returns_same _ _ l (IH d' Hd') _ _ _ _ Hloop). done.
Qed.

(** X15. An injection that returns does not depend on what else the
    environment holds, nor on how much deeper the calls might have
    nested: in any store, shared objects included, with more variables
    set and with a larger limit on the nesting of calls, the same call
    returns the same value and leaves the same store. *)
Theorem inject_env_vars_larger_environment
    (environ environ' : gmap string string) d d' v (h : mstore) v' h' :
  environ ⊆ environ' →
  (d ≤ d')%nat →
  ConfigLoader.inject_env_vars environ d v h = (Ret v', h') →
  ConfigLoader.inject_env_vars environ' d' v h = (Ret v', h').
Proof. intros Hsub Hd. by apply inject_returns_same. Qed.

(** The string holds no closing brace. *)
Fixpoint brace_free (s : string) : bool :=
  match s with
  | EmptyString => true
  | String c rest => negb (Ascii.eqb c "}"%char) && brace_free rest
  end.

(** The placeholder for the variable [name]. *)
Definition placeholder (name : string) : string :=
  String "{"%char (String "$"%char (name +:+ "}")).

Lemma upto_brace_name name :
  brace_free name = true →
  ConfigLoader.upto_brace (name +:+ "}") = Some (name +:+ "}").
Proof.
  induction name as [|c name IH]; [done|].
  cbn [brace_free]. intros [Hc Hname]%andb_true_iff.
  change (String c name +:+ "}") with (String c (name +:+ "}")).
  cbn [ConfigLoader.upto_brace].
  apply negb_true_iff in Hc. rewrite Hc. by rewrite (IH Hname).
Qed.

Lemma re_search_placeholder name :
  brace_free name = true →
  ConfigLoader.re_search (placeholder name) = Some (placeholder name).
Proof.
  intros Hname. unfold placeholder. cbn [ConfigLoader.re_search].
  cbn [Ascii.eqb Bool.eqb]. by rewrite (upto_brace_name _ Hname).
Qed.

Lemma drop_last_app name c :
  ConfigLoader.drop_last (name +:+ String c "") = name.
Proof.
  induction name as [|a name IH]; [done|].
  change (String a name +:+ String c "")
    with (String a (name +:+ String c "")).
  cbn [ConfigLoader.drop_last]. rewrite IH. by destruct name.
Qed.

Lemma var_name_placeholder name :
  ConfigLoader.var_name (placeholder name) = name.
Proof. unfold ConfigLoader.var_name, placeholder. apply drop_last_app. Qed.

Lemma app_nil_r_string (s : string) : s +:+ "" = s.
Proof.
  induction s as [|c s IH]; [done|].
  change (String c s +:+ "") with (String c (s +:+ "")). by rewrite IH.
Qed.

Lemma replace_whole c old new :
  ConfigLoader.replace (String c old) new (String c old) = new.
Proof.
  rewrite <- (app_nil_r_string (String c old)) at 2.
  rewrite replace_at_occurrence. apply app_nil_r_string.
Qed.

(** X16. A variable whose value is its own placeholder: injecting that
    placeholder finds the variable set every time, so that no
    missing-variable error is raised and no string is ever returned; the
    calls nest until the interpreter stops them, whatever its limit, and
    the store is left as it was. *)
Theorem inject_env_vars_self_reference
    (environ : gmap string string) name d (h : mstore) :
  brace_free name = true →
  environ !! name = Some (placeholder name) →
  ConfigLoader.inject_env_vars environ d
    (ConfigLoader.VStr (placeholder name)) h
  = (Raise ConfigLoader.recursion_error, h) ∧
  ConfigLoader.inject_tree environ d (PyStr (placeholder name))
  = Raise ConfigLoader.recursion_error.
Proof.
  intros Hname Henv. induction d as [|d [IH1 IH2]]; [done|].
  cbn [ConfigLoader.inject_env_vars ConfigLoader.inject_tree].
  rewrite (re_search_placeholder _ Hname), var_name_placeholder, Henv.
  unfold placeholder at 1 2 4 5. rewrite replace_whole.
  fold (placeholder name). done.
Qed.

(** X17. An injection that fails on a tree laid out in the store fails
    for one of two reasons, a variable that is not set or calls nested
    too deep; and even then, whatever it had written before it failed,
    every object of the store is still in its place with the same keys
    or the same length, its entries what they were or strings where
    strings were, the keys of every dictionary are still distinct, and
    the objects the tree is not made of are untouched. *)
Theorem inject_env_vars_failure_keeps_shape
    (environ : gmap string string) d n (h h' : mstore) v t fp e :
  ConfigLoader.laid_out n h v t fp →
  ConfigLoader.distinct_keys h →
  ConfigLoader.inject_env_vars environ d v h = (Raise e, h') →
  (e = ConfigLoader.recursion_error ∨
   ∃ name, e = ConfigLoader.missing_variable name ∧ environ !! name = None) ∧
  (∀ l, l ∉ fp → h' !! l = h !! l) ∧
  ConfigLoader.same_objects h h' ∧
  ConfigLoader.distinct_keys h'.
Proof.
  intros Hlaid Hnd Hrun.
  pose proof (inject_computes environ d n h v t fp _ h' Hlaid Hrun)
    as (Hframe & Hres).
  pose proof (inject_changes_strings_only environ d v h _ h' Hnd Hrun)
    as [Hsame _].
  split; [by apply (inject_tree_failure environ d t)|].
  split; [done|]. split; [done|].
  by apply (same_objects_distinct_keys h h').
Qed.

End InjectMore.

(** ** The further properties on examples *)

Module MoreExamples.

(** A node whose step goes through twice and raises [e] at the third
    call; it counts the calls in its own attribute. *)
Definition faulty_step (e : exn) (_ : pyval) : M Examples.eworld pyval :=
  fun w =>
    let n := AbstractNode.attrs (AbstractNode.self w) in
    let w' := AbstractNode.set_self
                (AbstractNode.set_attrs (S n) (AbstractNode.self w)) w in
    if (n <? 2)%nat then (Ret PyNone, w') else (Raise e, w').

Definition Faulty (e : exn) : @AbstractNode.Subclass queue nat := {|
  AbstractNode._pre_loop_hook := AbstractNode.pass;
  AbstractNode._execute := faulty_step e;
  AbstractNode._post_loop_hook := fun _ => Examples.elog "post" "info"
|}.

Definition missing_key : exn := mk_exn KeyError "'missing'" None.

Definition interrupt : exn := mk_exn KeyboardInterrupt "" None.

(** In test mode, with the doubles [setup_test] installs. *)
Definition faulty_world : Examples.eworld :=
  Examples.test_node "Faulty" None None None.

(** As the constructor leaves it: no outputs, not in test mode. *)
Definition bare_world : Examples.eworld :=
  AbstractNode.init "Faulty" 0%nat "pipeline" None None false
    {[ 1%positive := PoisonPill.init ]} Examples.tens 0.

(** The node after one, two and three calls of the step. *)
Definition after_calls (e : exn) (n : nat) (w : Examples.eworld)
    : Examples.eworld :=
  Nat.iter n (fun w => snd (faulty_step e PyNone w)) w.

Lemma faulty_fails_in e (w : Examples.eworld) :
  AbstractNode.attrs (AbstractNode.self w) = 0%nat →
  fails_in (subclass := Faulty e) 5 (PyDict []) w e (after_calls e 3 w).
Proof.
  intros Hattrs. right. exists PyNone, w, 2%nat, (after_calls e 2 w).
  split; [reflexivity|].
  split; [|split; [lia|]].
  - apply (loop_prefix_step (subclass := Faulty e) _ _ w PyNone
             (after_calls e 1 w)).
    + cbn. unfold faulty_step. by rewrite Hattrs.
    + discriminate.
    + apply (loop_prefix_step (subclass := Faulty e) _ _ _ PyNone
               (after_calls e 2 w)).
      * cbn. unfold faulty_step. cbn. by rewrite Hattrs.
      * discriminate.
      * apply loop_prefix_none.
  - cbn. unfold faulty_step. cbn. by rewrite Hattrs.
Defined.

End MoreExamples.

Lemma get_state_reads_activation_witness :
  let w := Examples.test_node "Probe" (Some 1%positive) None None in
  let w1 := snd (AbstractNode.activate_poison_pill w) in
  AbstractNode.remote 1%positive PoisonPill.GetState w
    = (Ret (PyBool false), w) ∧
  AbstractNode.remote 1%positive PoisonPill.GetState w1
    = (Ret (PyBool true), w1).
Proof.
  intros w w1.
  pose proof (get_state_reads_activation w 1%positive PoisonPill.init
                eq_refl eq_refl) as (Hbefore & _ & Hafter).
  split; [exact Hbefore|exact Hafter].
Defined.

Lemma execute_logs_and_reraises_witness :
  let w2 := MoreExamples.after_calls MoreExamples.missing_key 3
              MoreExamples.faulty_world in
  let w3 := snd (Examples.elog (Examples.show_exc MoreExamples.missing_key)
                   "debug" w2) in
  AbstractNode.execute (subclass := MoreExamples.Faulty MoreExamples.missing_key)
    Examples.LOGGING Examples.show_exc 5 PyNone MoreExamples.faulty_world
  = Some (Raise MoreExamples.missing_key, w3).
Proof.
  intros w2 w3.
  apply (execute_logs_and_reraises
           (subclass := MoreExamples.Faulty MoreExamples.missing_key)
           Examples.LOGGING Examples.show_exc 5 PyNone
           MoreExamples.faulty_world w2 w3 MoreExamples.missing_key PyNone).
  - apply MoreExamples.faulty_fails_in. reflexivity.
  - reflexivity.
  - vm_compute. reflexivity.
Defined.

Lemma execute_logging_failure_masks_witness :
  AbstractNode.execute (subclass := MoreExamples.Faulty MoreExamples.missing_key)
    Examples.LOGGING Examples.show_exc 5 PyNone MoreExamples.bare_world
  = Some (Raise (mk_exn KeyError "'logging'" None),
          MoreExamples.after_calls MoreExamples.missing_key 3
            MoreExamples.bare_world).
Proof.
  refine (proj1 (proj2 (execute_logging_failure_masks
                          (subclass := MoreExamples.Faulty
                                         MoreExamples.missing_key)
                          Examples.LOGGING Examples.show_exc 5 PyNone
                          MoreExamples.bare_world
                          (MoreExamples.after_calls MoreExamples.missing_key 3
                             MoreExamples.bare_world)
                          MoreExamples.missing_key _ _)) _ _).
  - apply MoreExamples.faulty_fails_in. reflexivity.
  - reflexivity.
  - vm_compute. set_solver.
  - reflexivity.
Defined.

Lemma execute_lets_interrupts_through_witness :
  AbstractNode.execute (subclass := MoreExamples.Faulty MoreExamples.interrupt)
    Examples.LOGGING Examples.show_exc 5 PyNone MoreExamples.faulty_world
  = Some (Raise MoreExamples.interrupt,
          MoreExamples.after_calls MoreExamples.interrupt 3
            MoreExamples.faulty_world).
Proof.
  apply (execute_lets_interrupts_through
           (subclass := MoreExamples.Faulty MoreExamples.interrupt)
           Examples.LOGGING Examples.show_exc 5 PyNone
           MoreExamples.faulty_world).
  - apply MoreExamples.faulty_fails_in. reflexivity.
  - reflexivity.
Defined.

Lemma test_mode_is_required_witness :
  AbstractNode.setup_test Examples.LOGGING Examples.new_input
    (Some [("input", [PyInt 1])]) (Some ["output"]) PyNone
    MoreExamples.bare_world
  = (Raise AbstractNode.not_in_test_mode, MoreExamples.bare_world) ∧
  AbstractNode.run_test (subclass := Examples.Relay) 5 None
    MoreExamples.bare_world
  = Some (Raise AbstractNode.not_in_test_mode, MoreExamples.bare_world) ∧
  AbstractNode.run_test_yield (subclass := Examples.Relay) 5 None
    MoreExamples.bare_world
  = Some (Raise AbstractNode.not_in_test_mode, MoreExamples.bare_world, []).
Proof.
  apply (proj1 (test_mode_is_required (subclass := Examples.Relay)
                  Examples.LOGGING Examples.new_input MoreExamples.bare_world
                  (Some [("input", [PyInt 1])]) (Some ["output"]) PyNone
                  5 None)).
  reflexivity.
Defined.

Lemma setup_test_installs_witness :
  let w := snd (AbstractNode.enable_test_mode MoreExamples.bare_world) in
  ∃ w', AbstractNode.setup_test Examples.LOGGING Examples.new_input
          (Some [("input", [PyInt 1])]) (Some ["output"; "output"]) PyNone w
        = (Ret PyNone, w') ∧
        AbstractNode.inputs (AbstractNode.self w')
        = [("input", AbstractNode.InFake
                       (Examples.new_input "input" "Faulty" [PyInt 1]))] ∧
        AbstractNode.outputs (AbstractNode.self w') !! "output"
        = Some (AbstractNode.OutFake
                  (FakeDatasetOutput.mk "output" "Faulty" [])) ∧
        AbstractNode.outputs (AbstractNode.self w') !! "other" = None ∧
        AbstractNode.params (AbstractNode.self w') = PyDict [].
Proof.
  intros w.
  destruct (setup_test_installs Examples.LOGGING Examples.new_input w
              (Some [("input", [PyInt 1])]) (Some ["output"; "output"])
              PyNone eq_refl)
    as (w' & Hrun & Hins & Houts & Hparams & _).
  exists w'. split; [exact Hrun|]. split; [exact Hins|].
  split; [exact (Houts "output")|]. split; [exact (Houts "other")|].
  exact Hparams.
Defined.

Lemma setup_test_last_call_wins_witness :
  let w := snd (AbstractNode.enable_test_mode MoreExamples.bare_world) in
  AbstractNode.setup_test Examples.LOGGING Examples.new_input
    None (Some ["output"]) PyNone
    (snd (AbstractNode.setup_test Examples.LOGGING Examples.new_input
            (Some [("input", [PyInt 1])]) (Some ["other"])
            (PyDict [("k", PyInt 1)]) w))
  = AbstractNode.setup_test Examples.LOGGING Examples.new_input
      None (Some ["output"]) PyNone w.
Proof.
  intros w.
  apply (setup_test_last_call_wins Examples.LOGGING Examples.new_input w).
  reflexivity.
Defined.

Lemma run_test_propagates_failure_witness :
  let w0 := snd (AbstractNode.time_time MoreExamples.faulty_world) in
  AbstractNode.run_test (subclass := MoreExamples.Faulty MoreExamples.missing_key)
    5 None MoreExamples.faulty_world
  = Some (Raise MoreExamples.missing_key,
          MoreExamples.after_calls MoreExamples.missing_key 3 w0).
Proof.
  intros w0.
  apply (run_test_propagates_failure
           (subclass := MoreExamples.Faulty MoreExamples.missing_key)
           5 None MoreExamples.faulty_world).
  - reflexivity.
  - right.
    exists PyNone, w0, 2%nat,
      (MoreExamples.after_calls MoreExamples.missing_key 2 w0).
    split; [reflexivity|]. split; [|split; [lia|reflexivity]].
    apply (test_prefix_step
             (subclass := MoreExamples.Faulty MoreExamples.missing_key)
             None _ _ w0 PyNone
             (MoreExamples.after_calls MoreExamples.missing_key 1 w0)).
    + reflexivity.
    + discriminate.
    + right. reflexivity.
    + apply (test_prefix_step
               (subclass := MoreExamples.Faulty MoreExamples.missing_key)
               None _ _ _ PyNone
               (MoreExamples.after_calls MoreExamples.missing_key 2 w0)).
      * reflexivity.
      * discriminate.
      * right. reflexivity.
      * apply test_prefix_none.
Defined.

Lemma run_test_yield_follows_run_test_witness :
  let w := Examples.relay_world [PyInt 1; PyInt 2] in
  ∃ w' ys,
    AbstractNode.run_test_yield (subclass := Examples.Relay) 10 None w
    = Some (Ret PyNone, w', ys) ∧
    (∃ r, AbstractNode.run_test (subclass := Examples.Relay) 10 None w
          = Some (r, w')) ∧
    (length ys ≤ 10)%nat.
Proof.
  intros w.
  destruct (AbstractNode.run_test_yield (subclass := Examples.Relay) 10 None w)
    as [[[[v|e] w'] ys]|] eqn:Hrun; [|exfalso; vm_compute in Hrun; congruence..].
  assert (Hv : v = PyNone) by (vm_compute in Hrun; congruence).
  subst v. exists w', ys. split; [reflexivity|].
  pose proof (run_test_yield_follows_run_test (subclass := Examples.Relay)
                10 None w w' PyNone ys eq_refl Hrun) as Hthm.
  cbv zeta in Hthm. destruct Hthm as (Hstate & Hlen & _).
  split; [exact Hstate|exact Hlen].
Defined.

Lemma update_params_outcome_witness :
  let value := PyDict [("path", PyStr "$root/data");
                       ("ports", PyList [PyInt 80; PyBool true])] in
  match ConfigLoader._update_params 3 value [("root", PyStr "/srv")] with
  | Ret value' =>
      accepted 3 value = true ∧
      ConfigLoader.same_but_strings value value' = true
  | Raise e =>
      accepted 3 value = false ∧
      (e = ConfigLoader.invalid_value_type ∨ e = ConfigLoader.recursion_error)
  end.
Proof.
  intros value.
  apply (update_params_outcome 3 value [("root", PyStr "/srv")]).
  constructor; [by exists "/srv"|constructor].
Defined.


Lemma update_params_non_string_parameter_witness :
  ConfigLoader._update_params 1 (PyStr "no placeholder here")
    [("root", PyStr "/srv"); ("port", PyNone)]
  = Raise (mk_exn (UserClass "TypeError" Exception)
             "replace() argument 2 must be str, not None" None).
Proof.
  refine (proj1 (update_params_non_string_parameter 0 "no placeholder here"
                   [("root", PyStr "/srv")] "port" PyNone [] _ _)).
  - constructor; [by exists "/srv"|constructor].
  - discriminate.
Defined.

Lemma update_params_shorter_key_first_witness :
  ConfigLoader._update_params 1 (PyStr "$ab")
    [("a", PyStr "1"); ("ab", PyStr "2")]
  = Ret (PyStr "1b").
Proof.
  apply (update_params_shorter_key_first 0 "a" "b" "1" "2").
  - discriminate.
  - reflexivity.
  - reflexivity.
Defined.

Lemma inject_env_vars_larger_environment_witness :
  ConfigLoader.inject_env_vars (<["HOME" := "/root"]> secrets) 12
    (ConfigLoader.VRef 1%positive) docstring_store
  = (Ret (ConfigLoader.VRef 1%positive), docstring_injected).
Proof.
  apply (inject_env_vars_larger_environment secrets
           (<["HOME" := "/root"]> secrets) 10 12).
  - apply insert_subseteq. reflexivity.
  - lia.
  - vm_compute. reflexivity.
Defined.

Lemma inject_env_vars_self_reference_witness :
  ConfigLoader.inject_env_vars {[ "A" := "{$A}" ]} 50
    (ConfigLoader.VStr "{$A}") ∅
  = (Raise ConfigLoader.recursion_error, ∅) ∧
  ConfigLoader.inject_tree {[ "A" := "{$A}" ]} 50 (PyStr "{$A}")
  = Raise ConfigLoader.recursion_error.
Proof.
  apply (inject_env_vars_self_reference {[ "A" := "{$A}" ]} "A" 50 ∅).
  - reflexivity.
  - reflexivity.
Defined.

(** The list of [token_store] after the failed injection: the first
    string has been injected, the second is as it was. *)
Definition token_store_failed : gmap ConfigLoader.loc ConfigLoader.obj :=
  {[ 1%positive :=
       ConfigLoader.OList [ConfigLoader.VStr "secret1";
                           ConfigLoader.VStr "{$SECRET1} {$TOKEN}"] ]}.

Lemma inject_env_vars_failure_keeps_shape_witness :
  ConfigLoader.inject_env_vars secrets 3 (ConfigLoader.VRef 1%positive)
    token_store
  = (Raise (ConfigLoader.missing_variable "TOKEN"), token_store_failed) ∧
  ConfigLoader.same_objects token_store token_store_failed ∧
  ConfigLoader.distinct_keys token_store_failed.
Proof.
  assert (Hrun : ConfigLoader.inject_env_vars secrets 3
                   (ConfigLoader.VRef 1%positive) token_store
                 = (Raise (ConfigLoader.missing_variable "TOKEN"),
                    token_store_failed)) by (vm_compute; reflexivity).
  split; [exact Hrun|].
  refine (proj2 (proj2 (inject_env_vars_failure_keeps_shape secrets 3 1
                          token_store token_store_failed
                          (ConfigLoader.VRef 1%positive) token_tree _
                          (ConfigLoader.missing_variable "TOKEN")
                          token_laid_out _ Hrun))).
  intros l items Hl. unfold token_store in Hl.
  apply lookup_singleton_Some in Hl as [_ Hl]. discriminate Hl.
Defined.

(** ** What run_test_yield reports *)

Section YieldFacts.
Context {D : Type} {U : Type}.

Abbreviation yinput := (@AbstractNode.input_handle D).
Abbreviation youtput := (@AbstractNode.output_handle D).

Lemma capture_consumed_lookup (ins : list (string * yinput)) :
  ∀ acc m,
    NoDup (ins.*1) →
    AbstractNode.capture_consumed ins acc = Ret m →
    ∀ k v, m !! k = Some v ↔
      (∃ f, (k, AbstractNode.InFake f) ∈ ins ∧
            head (FakeDatasetInput.values f) = Some v) ∨
      ((∀ f, (k, AbstractNode.InFake f) ∈ ins →
             FakeDatasetInput.values f = []) ∧
       acc !! k = Some v).
Proof.
  induction ins as [|[name h] rest IH]; intros acc m Hnd.
  - simpl. intros [= <-] k v. split.
    + intros Hk. right. split; [|done].
      intros f Hin. by apply elem_of_nil in Hin.
    + intros [(f & Hin & _) | [_ Hk]]; [by apply elem_of_nil in Hin|done].
  - rewrite fmap_cons in Hnd. apply NoDup_cons in Hnd as [Hname Hnd].
    cbn [AbstractNode.capture_consumed].
    destruct h as [f|d]; cbn [AbstractNode.input_values]; [|done].
    destruct (FakeDatasetInput.values f) as [|x vals] eqn:Hvals.
    + intros Hrun k v. rewrite (IH acc m Hnd Hrun k v). split.
      * intros [(f' & Hin & Hhead) | [Hall Hacc]].
        -- left. exists f'. split; [by apply elem_of_cons; right|done].
        -- right. split; [|done].
           intros f' [Heq|Hin]%elem_of_cons; [|by apply Hall].
           by injection Heq as -> ->.
      * intros [(f' & [Heq|Hin]%elem_of_cons & Hhead) | [Hall Hacc]].
        -- injection Heq as -> ->. by rewrite Hvals in Hhead.
        -- left. eauto.
        -- right. split; [|done].
           intros f' Hin. apply Hall. by apply elem_of_cons; right.
    + intros Hrun k v. rewrite (IH _ m Hnd Hrun k v). split.
      * intros [(f' & Hin & Hhead) | [Hall Hacc]].
        -- left. exists f'. split; [by apply elem_of_cons; right|done].
        -- destruct (decide (k = name)) as [->|Hne].
           ++ rewrite lookup_insert_eq in Hacc. injection Hacc as <-.
              left. exists f. split; [by apply elem_of_cons; left|].
              by rewrite Hvals.
           ++ rewrite lookup_insert_ne in Hacc by done.
              right. split; [|done].
              intros f' [Heq|Hin]%elem_of_cons; [congruence|by apply Hall].
      * intros [(f' & [Heq|Hin]%elem_of_cons & Hhead) | [Hall Hacc]].
        -- injection Heq as -> ->. rewrite Hvals in Hhead.
           injection Hhead as <-. right.
           split; [|by rewrite lookup_insert_eq].
           intros f' Hin. exfalso. apply Hname.
           apply list_elem_of_fmap. by exists (name, AbstractNode.InFake f').
        -- left. eauto.
        -- assert (Hne : k ≠ name).
           { intros ->. specialize (Hall f).
             rewrite Hvals in Hall. discriminate Hall.
             by apply elem_of_cons; left. }
           right. split; [|by rewrite lookup_insert_ne].
           intros f' Hin. apply Hall. by apply elem_of_cons; right.
Qed.

(** X18. What a triple of [run_test_yield] reports: for the inputs of
    the node, as they are before the step is called, the first value of
    every input that still holds one; for its outputs, as they are after
    the step, the last value of every output that holds one. A dataset
    without a value is left out of the dictionary, and nothing else is
    in it. *)
Theorem yielded_values_reported (ins : list (string * yinput))
    (outs : gmap string youtput) consumed produced :
  NoDup (ins.*1) →
  AbstractNode.capture_consumed ins ∅ = Ret consumed →
  AbstractNode.capture_produced outs = Ret produced →
  (∀ k v, consumed !! k = Some v ↔
          ∃ f, (k, AbstractNode.InFake f) ∈ ins ∧
               head (FakeDatasetInput.values f) = Some v) ∧
  (∀ k v, produced !! k = Some v ↔
          ∃ f, outs !! k = Some (AbstractNode.OutFake f) ∧
               last (FakeDatasetOutput.values f) = Some v).
Proof.
  intros Hnd Hcons Hprod. split.
  - intros k v. rewrite (capture_consumed_lookup ins ∅ consumed Hnd Hcons k v).
    split; [|by left].
    intros [Hin | [_ Hempty]]; [done|]. by rewrite lookup_empty in Hempty.
  - intros k v. unfold AbstractNode.capture_produced in Hprod.
    destruct (decide _) as [_|]; [|done]. injection Hprod as <-.
    rewrite lookup_omap. split.
    + destruct (outs !! k) as [[f|d]|]; [|done..].
      cbn. intros Hlast. by exists f.
    + intros (f & -> & Hlast). done.
Qed.

End YieldFacts.

Lemma yielded_values_reported_witness :
  let w := Examples.relay_world [PyInt 1; PyInt 2] in
  let w1 := snd (Examples.relay_step PyNone w) in
  ∃ consumed produced,
    AbstractNode.capture_consumed
      (AbstractNode.inputs (AbstractNode.self w)) ∅ = Ret consumed ∧
    AbstractNode.capture_produced
      (AbstractNode.outputs (AbstractNode.self w1)) = Ret produced ∧
    (consumed !! "input" = Some (PyInt 1) ↔
     ∃ f, ("input", AbstractNode.InFake f)
            ∈ AbstractNode.inputs (AbstractNode.self w) ∧
          head (FakeDatasetInput.values f) = Some (PyInt 1)) ∧
    (produced !! "output" = Some (PyInt 1) ↔
     ∃ f, AbstractNode.outputs (AbstractNode.self w1) !! "output"
          = Some (AbstractNode.OutFake f) ∧
          last (FakeDatasetOutput.values f) = Some (PyInt 1)).
Proof.
  intros w w1.
  destruct (AbstractNode.capture_consumed
              (AbstractNode.inputs (AbstractNode.self w)) ∅)
    as [consumed|e] eqn:Hcons; [|exfalso; vm_compute in Hcons; congruence].
  destruct (AbstractNode.capture_produced
              (AbstractNode.outputs (AbstractNode.self w1)))
    as [produced|e] eqn:Hprod; [|exfalso; vm_compute in Hprod; congruence].
  exists consumed, produced. split; [reflexivity|]. split; [reflexivity|].
  assert (Hnd : NoDup ((AbstractNode.inputs (AbstractNode.self w)).*1)).
  { vm_compute. apply NoDup_singleton. }
  pose proof (yielded_values_reported _ _ consumed produced Hnd Hcons Hprod)
    as [Hc Hp].
  split; [exact (Hc "input" (PyInt 1))|exact (Hp "output" (PyInt 1))].
Defined.
